(** * Mini RDBMS: storage, B-tree index and query execution

    A shallow embedding of the engine under [src/engine] (storage.py,
    index.py, executor.py, database.py) together with the statement and
    schema types of [src/parser/parser.py], and the properties of the
    engine that the specification states.

    Conventions of the embedding.
    - A Python exception is a value [Raise e] of the [result] type; code
      that mutates an object before raising returns the mutated state next
      to the [Raise].
    - A [dict] is an association list in insertion order with one entry
      per key, as Python dictionaries are.
    - A [float] is represented by its exact rational value (every finite
      double is a rational); NaN and the infinities are outside the model.
      The engine compares stored values and tests their types; the one
      arithmetic it does is [+ 1] on a row id and on the row-id counter,
      which on a float is the IEEE sum ([Float64.succ]).
    - [json.dump] followed by [json.load] is taken to return the document
      that was written; documents are kept as typed trees. *)

From Stdlib Require Import ZArith QArith String Ascii List Bool Sorted Lia.
From stdpp Require Import base option list strings gmap fin_maps.

Local Open Scope Z_scope.

(** ** Python values, exceptions and dictionaries *)

Module Py.

(** The scalar values a row can hold, and [None]. *)
Inductive PyVal : Type :=
  | VNone
  | VBool (b : bool)
  | VInt (n : Z)
  | VFloat (q : Q)
  | VStr (s : string).

(** The reasons for which the engine raises [ValueError]; each stands for
    one message of the source. *)
Inductive ValueErrorKind : Type :=
  | CannotBeNull (col : string)      (* Column '..' cannot be NULL *)
  | InvalidType (col : string)       (* Invalid type for column '..' *)
  | DuplicateValue (col : string)    (* Duplicate value for unique column '..' *)
  | TableExists (tbl : string)       (* Table '..' already exists *)
  | TableMissing (tbl : string)      (* Table '..' does not exist *)
  | IndexExists (idx : string)       (* Index '..' already exists *)
  | IndexMissing (idx : string)      (* Index '..' does not exist *)
  | NotAMember (val : string).       (* '..' is not a valid DataType / ConstraintType *)

Inductive PyError : Type :=
  | ValueError (k : ValueErrorKind)
  | TypeError
  | IndexError
  | KeyError (key : string)
  | AttributeError
  | OutOfFuel     (* not a Python exception: the recursion bound of the model ran out *)
  | Unmodelled.   (* not a Python exception: the code goes on, outside what the model describes *)

Inductive result (A : Type) : Type :=
  | Ok (a : A)
  | Raise (e : PyError).
Arguments Ok {A} a.
Arguments Raise {A} e.

#[export] Instance result_ret : MRet result := fun A a => Ok a.
#[export] Instance result_bind : MBind result := fun A B f m =>
  match m with
  | Ok a => f a
  | Raise e => Raise e
  end.

Definition is_ok {A} (r : result A) : bool :=
  match r with Ok _ => true | Raise _ => false end.

(** [bool] is a subclass of [int]: [True] is 1 and [False] is 0 in every
    numeric context. *)
Definition num_of (v : PyVal) : option Q :=
  match v with
  | VBool b => Some (inject_Z (Z.b2z b))
  | VInt n => Some (inject_Z n)
  | VFloat q => Some q
  | VNone | VStr _ => None
  end.

(** [a == b]: numbers compare by value across int, bool and float; a
    string equals only the same string; [None] only [None]. Never raises. *)
Definition py_eq (a b : PyVal) : bool :=
  match num_of a, num_of b with
  | Some x, Some y => Qeq_bool x y
  | None, None =>
      match a, b with
      | VNone, VNone => true
      | VStr s, VStr t => String.eqb s t
      | _, _ => false
      end
  | _, _ => false
  end.

Definition py_ne (a b : PyVal) : bool := negb (py_eq a b).

(** The ordering of two values when Python defines one: numbers with
    numbers, strings with strings (by code point, which on UTF-8 bytes is
    the byte order). Anything else raises [TypeError]. *)
Definition py_order (a b : PyVal) : result comparison :=
  match num_of a, num_of b with
  | Some x, Some y => Ok (x ?= y)%Q
  | None, None =>
      match a, b with
      | VStr s, VStr t => Ok (String.compare s t)
      | _, _ => Raise TypeError
      end
  | _, _ => Raise TypeError
  end.

Definition is_Lt (c : comparison) : bool := match c with Lt => true | _ => false end.
Definition is_Gt (c : comparison) : bool := match c with Gt => true | _ => false end.

Definition py_lt (a b : PyVal) : result bool := c ← py_order a b; Ok (is_Lt c).
Definition py_gt (a b : PyVal) : result bool := c ← py_order a b; Ok (is_Gt c).
Definition py_le (a b : PyVal) : result bool := c ← py_order a b; Ok (negb (is_Gt c)).
Definition py_ge (a b : PyVal) : result bool := c ← py_order a b; Ok (negb (is_Lt c)).

(** Dictionaries with string keys. *)
Definition dict : Type := list (string * PyVal).

Fixpoint dict_get (d : dict) (k : string) : option PyVal :=
  match d with
  | [] => None
  | (k', v) :: d' => if String.eqb k' k then Some v else dict_get d' k
  end.

(** [k in d] *)
Definition dict_contains (d : dict) (k : string) : bool :=
  match dict_get d k with Some _ => true | None => false end.

(** [d[k] = v]: an existing key keeps its position, a new key goes last. *)
Fixpoint dict_set (d : dict) (k : string) (v : PyVal) : dict :=
  match d with
  | [] => [(k, v)]
  | (k', v') :: d' =>
      if String.eqb k' k then (k, v) :: d' else (k', v') :: dict_set d' k v
  end.

Definition dict_keys (d : dict) : list string := map fst d.

End Py.
Export Py.

(** ** Float addition (binary64)

    The sum of two doubles is the double nearest to the exact sum, a tie
    going to the even mantissa. The doubles have 53 significant bits, and
    the last bit of a double has an exponent of at least -1074. The sum
    of a finite double and 1 is below the overflow threshold. *)

Module Float64.

(** [n / d] rounded to the nearest integer, a tie to the even one, for
    [0 <= n] and [0 < d]. *)
Definition round_half_even (n d : Z) : Z :=
  let q := n / d in
  let r := n mod d in
  match 2 * r ?= d with
  | Lt => q
  | Gt => q + 1
  | Eq => if Z.even q then q else q + 1
  end.

(** The exponent [e] of the leading bit of [a / b]: [2^e <= a / b < 2^(e+1)]. *)
Definition floor_log2 (a b : positive) : Z :=
  let e := Z.log2 (Z.pos a) - Z.log2 (Z.pos b) in
  let reaches := if 0 <=? e then Z.pos b * 2 ^ e <=? Z.pos a
                 else Z.pos b <=? Z.pos a * 2 ^ (- e) in
  if reaches then e else e - 1.

(** The double nearest to [a / b]: a multiple of [2^p], where [p] is the
    exponent of its last bit. *)
Definition round_pos (a b : positive) : Q :=
  let p := Z.max (floor_log2 a b - 52) (-1074) in
  if 0 <=? p
  then inject_Z (round_half_even (Z.pos a) (Z.pos b * 2 ^ p) * 2 ^ p)
  else Qred (Qmake (round_half_even (Z.pos a * 2 ^ (- p)) (Z.pos b)) (Z.to_pos (2 ^ (- p)))).

Definition round (x : Q) : Q :=
  match Qnum x with
  | Z0 => 0
  | Zpos a => round_pos a (Qden x)
  | Zneg a => - round_pos a (Qden x)
  end.

(** [x + 1] on a float [x] *)
Definition succ (x : Q) : Q := round (x + 1).

End Float64.

(** ** Statement and schema types (parser.py) *)

Module Parser.

Inductive DataType : Type := INT | TEXT | FLOAT | BOOL.

Inductive ConstraintType : Type := PRIMARY_KEY | UNIQUE | NOT_NULL.

Definition ConstraintType_eqb (a b : ConstraintType) : bool :=
  match a, b with
  | PRIMARY_KEY, PRIMARY_KEY | UNIQUE, UNIQUE | NOT_NULL, NOT_NULL => true
  | _, _ => false
  end.

(** [c in constraints] *)
Definition has_constraint (c : ConstraintType) (cs : list ConstraintType) : bool :=
  existsb (ConstraintType_eqb c) cs.

Record Column : Type := mkColumn {
  col_name : string;
  col_data_type : DataType;
  col_constraints : list ConstraintType
}.

(** A side of a condition: a column name (a [str]) or a literal [Value]. *)
Inductive Operand : Type :=
  | ColRef (column : string)
  | Lit (value : PyVal).

Record Condition : Type := mkCondition {
  cond_left : Operand;
  cond_operator : string;
  cond_right : Operand
}.

(** The [join_clause] dictionary built by the parser. *)
Record JoinClause : Type := mkJoinClause {
  join_table : string;
  join_left_column : string;
  join_right_column : string
}.

End Parser.
Export Parser.

(** ** Rows, schemas and tables (storage.py) *)

Record Row : Type := mkRow { data : dict }.

Module RowOps.

(** [Row.get]: [dict.get], so a missing column reads as [None]. *)
Definition get (row : Row) (column : string) : PyVal :=
  match dict_get (data row) column with
  | Some v => v
  | None => VNone
  end.

Definition set (row : Row) (column : string) (value : PyVal) : Row :=
  mkRow (dict_set (data row) column value).

Definition to_dict (row : Row) : dict := data row.

End RowOps.

Record TableSchema : Type := mkTableSchema {
  schema_name : string;
  columns : list Column;
  primary_key : option string
}.

Module Schema.

Fixpoint find_column (cols : list Column) (name : string) : option Column :=
  match cols with
  | [] => None
  | col :: rest => if String.eqb (col_name col) name then Some col else find_column rest name
  end.

Definition get_column (schema : TableSchema) (name : string) : option Column :=
  find_column (columns schema) name.

(** [isinstance] against the declared type; a [bool] is an [int]. *)
Definition _validate_type (value : PyVal) (data_type : DataType) : bool :=
  match data_type with
  | INT => match value with VInt _ | VBool _ => true | _ => false end
  | FLOAT => match value with VInt _ | VBool _ | VFloat _ => true | _ => false end
  | TEXT => match value with VStr _ => true | _ => false end
  | BOOL => match value with VBool _ => true | _ => false end
  end.

(** First loop of [validate_row]: every NOT_NULL column is a key of the row. *)
Fixpoint check_required (cols : list Column) (row : Row) : result unit :=
  match cols with
  | [] => Ok tt
  | col :: rest =>
      if has_constraint NOT_NULL (col_constraints col)
         && negb (dict_contains (data row) (col_name col))
      then Raise (ValueError (CannotBeNull (col_name col)))
      else check_required rest row
  end.

(** Second loop: every item whose key is a column has that column's type. *)
Fixpoint check_types (schema : TableSchema) (items : dict) : result unit :=
  match items with
  | [] => Ok tt
  | (col_name, value) :: rest =>
      match get_column schema col_name with
      | Some col =>
          if _validate_type value (col_data_type col)
          then check_types schema rest
          else Raise (ValueError (InvalidType col_name))
      | None => check_types schema rest
      end
  end.

Definition validate_row (schema : TableSchema) (row : Row) : result bool :=
  _ ← check_required (columns schema) row;
  _ ← check_types schema (data row);
  Ok true.

End Schema.

(** [next_row_id]: an [int] from [Table(schema)] on; [load_from_disk]
    makes it a [float] when it takes it from a float row id. *)
Inductive Counter : Type :=
  | CInt (n : Z)
  | CFloat (q : Q).

Coercion CInt : Z >-> Counter.

Module CounterOps.

(** The counter as the value [insert] writes into a row. *)
Definition value (c : Counter) : PyVal :=
  match c with
  | CInt n => VInt n
  | CFloat q => VFloat q
  end.

(** [self.next_row_id += 1] *)
Definition succ (c : Counter) : Counter :=
  match c with
  | CInt n => CInt (n + 1)
  | CFloat q => CFloat (Float64.succ q)
  end.

End CounterOps.

Record Table : Type := mkTable {
  schema : TableSchema;
  rows : list Row;
  next_row_id : Counter
}.

Module TableOps.

(** [Table(schema)] *)
Definition new (s : TableSchema) : Table := mkTable s [] 1.

Definition operand_value (row : Row) (o : Operand) : PyVal :=
  match o with
  | ColRef column => RowOps.get row column
  | Lit value => value
  end.

(** [Table._matches_condition]: an operator outside the six falls through
    to the final [return True]. *)
Definition _matches_condition (row : Row) (condition : Condition) : result bool :=
  let left_val := operand_value row (cond_left condition) in
  let right_val := operand_value row (cond_right condition) in
  let op := cond_operator condition in
  if String.eqb op "=" then Ok (py_eq left_val right_val)
  else if String.eqb op "!=" then Ok (py_ne left_val right_val)
  else if String.eqb op ">" then py_gt left_val right_val
  else if String.eqb op "<" then py_lt left_val right_val
  else if String.eqb op ">=" then py_ge left_val right_val
  else if String.eqb op "<=" then py_le left_val right_val
  else Ok true.

(** The inner loop of [_check_unique_constraints] for one column. *)
Fixpoint check_unique_column (name : string) (v : PyVal) (existing : list Row) : result unit :=
  match existing with
  | [] => Ok tt
  | existing_row :: rest =>
      match dict_get (data existing_row) name with
      | Some w =>
          if py_eq w v then Raise (ValueError (DuplicateValue name))
          else check_unique_column name v rest
      | None => check_unique_column name v rest
      end
  end.

Fixpoint check_unique_columns (cols : list Column) (existing : list Row) (new_row : Row)
  : result unit :=
  match cols with
  | [] => Ok tt
  | col :: rest =>
      if has_constraint UNIQUE (col_constraints col)
         || has_constraint PRIMARY_KEY (col_constraints col)
      then
        match dict_get (data new_row) (col_name col) with
        | Some v =>
            _ ← check_unique_column (col_name col) v existing;
            check_unique_columns rest existing new_row
        | None => check_unique_columns rest existing new_row
        end
      else check_unique_columns rest existing new_row
  end.

Definition _check_unique_constraints (t : Table) (new_row : Row) : result unit :=
  check_unique_columns (columns (schema t)) (rows t) new_row.

(** The row-id step of [insert]: a row that carries no ['row_id'] gets
    [next_row_id], and the counter moves on. *)
Definition assign_row_id (t : Table) (row : Row) : Table * Row :=
  if dict_contains (data row) "row_id" then (t, row)
  else (mkTable (schema t) (rows t) (CounterOps.succ (next_row_id t)),
        RowOps.set row "row_id" (CounterOps.value (next_row_id t))).

(** [Table.insert]: the table and the row object after the call (the row
    is the caller's, and [insert] writes the id into it), and the returned
    row id or the exception. *)
Definition insert (t : Table) (row : Row) : Table * Row * result PyVal :=
  match Schema.validate_row (schema t) row with
  | Raise e => (t, row, Raise e)
  | Ok _ =>
      let '(t1, row1) := assign_row_id t row in
      match _check_unique_constraints t1 row1 with
      | Raise e => (t1, row1, Raise e)
      | Ok _ =>
          (mkTable (schema t1) (rows t1 ++ [row1]) (next_row_id t1), row1,
           Ok (RowOps.get row1 "row_id"))
      end
  end.

(** [{col: row.data[col] for col in columns if col in row.data}] *)
Fixpoint project (d : dict) (cols : list string) (acc : dict) : dict :=
  match cols with
  | [] => acc
  | col :: rest =>
      match dict_get d col with
      | Some v => project d rest (dict_set acc col v)
      | None => project d rest acc
      end
  end.

(** ['*' in columns] *)
Definition has_star (cols : list string) : bool := existsb (String.eqb "*") cols.

(** [Table.select]: copies of the rows, whole or projected. *)
Definition select (t : Table) (cols : option (list string)) : list Row :=
  match cols with
  | None => map (fun r => mkRow (data r)) (rows t)
  | Some cs =>
      if has_star cs then map (fun r => mkRow (data r)) (rows t)
      else map (fun r => mkRow (project (data r) cs [])) (rows t)
  end.

(** [for col, value in assignments.items(): row.set(col, value)] *)
Definition apply_assignments (assignments : dict) (row : Row) : Row :=
  fold_left (fun r kv => RowOps.set r (fst kv) (snd kv)) assignments row.

(** [where_clause is None or self._matches_condition(row, where_clause)] *)
Definition selected (where_clause : option Condition) (row : Row) : result bool :=
  match where_clause with
  | None => Ok true
  | Some c => _matches_condition row c
  end.

(** The loop of [update] from the rows still to visit: rows are mutated in
    place, so the rows visited before an exception keep their new
    contents, and so does the row whose validation raised. *)
Fixpoint update_loop (s : TableSchema) (assignments : dict) (where_clause : option Condition)
    (todo : list Row) (count : Z) : list Row * result Z :=
  match todo with
  | [] => ([], Ok count)
  | row :: rest =>
      match selected where_clause row with
      | Raise e => (row :: rest, Raise e)
      | Ok false =>
          let '(rest', r) := update_loop s assignments where_clause rest count in
          (row :: rest', r)
      | Ok true =>
          let row' := apply_assignments assignments row in
          match Schema.validate_row s row' with
          | Raise e => (row' :: rest, Raise e)
          | Ok _ =>
              let '(rest', r) := update_loop s assignments where_clause rest (count + 1) in
              (row' :: rest', r)
          end
      end
  end.

Definition update (t : Table) (assignments : dict) (where_clause : option Condition)
  : Table * result Z :=
  let '(rows', r) := update_loop (schema t) assignments where_clause (rows t) 0 in
  (mkTable (schema t) rows' (next_row_id t), r).

(** [[row for row in rows if not self._matches_condition(row, c)]] *)
Fixpoint reject_matching (c : Condition) (rs : list Row) : result (list Row) :=
  match rs with
  | [] => Ok []
  | row :: rest =>
      m ← _matches_condition row c;
      kept ← reject_matching c rest;
      Ok (if m : bool then kept else row :: kept)
  end.

Definition delete (t : Table) (where_clause : option Condition) : Table * result Z :=
  match where_clause with
  | None => (mkTable (schema t) [] (next_row_id t), Ok (Z.of_nat (length (rows t))))
  | Some c =>
      match reject_matching c (rows t) with
      | Raise e => (t, Raise e)
      | Ok kept =>
          (mkTable (schema t) kept (next_row_id t),
           Ok (Z.of_nat (length (rows t)) - Z.of_nat (length kept)))
      end
  end.

End TableOps.

(** ** The B-tree index (index.py) *)

Module BTree.

Inductive Order : Type := LT | EQ | GT.

(** What an entry of a node's [children] list can be: the [None]
    placeholder, the row-id list of a leaf key, or a child node. A
    [BTreeNode] is an [SNode]. *)
#[warnings="-register-all"] Inductive Slot : Type :=
  | SNone
  | SBucket (values : list PyVal)
  | SNode (keys : list PyVal) (children : list Slot) (is_leaf : bool).

Record BTreeIndex : Type := mkBTreeIndex {
  order : Z;
  root : Slot
}.

(** [BTreeNode(is_leaf)] and [BTreeIndex(order)] *)
Definition new_node (is_leaf : bool) : Slot := SNode [] [] is_leaf.
Definition new_index (order : Z) : BTreeIndex := mkBTreeIndex order (new_node true).

Definition _compare_keys (key1 key2 : PyVal) : result Order :=
  lt ← py_lt key1 key2;
  if lt : bool then Ok LT
  else gt ← py_gt key1 key2; if gt : bool then Ok GT else Ok EQ.

Definition is_LT (o : Order) : bool := match o with LT => true | _ => false end.
Definition is_EQ (o : Order) : bool := match o with EQ => true | _ => false end.
Definition is_GT (o : Order) : bool := match o with GT => true | _ => false end.

(** Python indexing and slicing with a possibly negative integer. *)
Definition py_index {A} (l : list A) (i : Z) : option A :=
  if (0 <=? i)%Z then l !! Z.to_nat i
  else if (0 <=? Z.of_nat (length l) + i)%Z then l !! Z.to_nat (Z.of_nat (length l) + i)
  else None.

Definition slice_bound {A} (l : list A) (i : Z) : nat :=
  if (0 <=? i)%Z then Z.to_nat i else Z.to_nat (Z.of_nat (length l) + i).

(** [l[i:]] and [l[:i]] *)
Definition py_slice_from {A} (l : list A) (i : Z) : list A := drop (slice_bound l i) l.
Definition py_slice_to {A} (l : list A) (i : Z) : list A := take (slice_bound l i) l.

(** [l.insert(i, x)] for [i >= 0] *)
Definition list_insert_at {A} (i : nat) (x : A) (l : list A) : list A :=
  take i l ++ x :: drop i l.

(** [del l[i]] for [0 <= i < len(l)] *)
Definition list_del {A} (i : nat) (l : list A) : list A := take i l ++ drop (S i) l.

(** [_split_child(parent, index)]: the parent after the call. Every
    exception it can raise comes before its first assignment. *)
Definition _split_child (order : Z) (parent : Slot) (index : nat) : result Slot :=
  match parent with
  | SNode pkeys pchildren pleaf =>
      match pchildren !! index with
      | None => Raise IndexError
      | Some (SNode ckeys cchildren cleaf) =>
          match py_index ckeys (order - 1) with
          | None => Raise IndexError
          | Some median =>
              let new_child :=
                SNode (py_slice_from ckeys order)
                      (if cleaf then [] else py_slice_from cchildren order) cleaf in
              let child :=
                SNode (py_slice_to ckeys (order - 1))
                      (if cleaf then cchildren else py_slice_to cchildren order) cleaf in
              Ok (SNode (list_insert_at index median pkeys)
                        (list_insert_at (S index) new_child (<[index := child]> pchildren))
                        pleaf)
          end
      | Some _ => Raise AttributeError
      end
  | _ => Raise AttributeError
  end.

(** The shifting loop of a leaf insertion, with [j = i + 1]:
    [while i >= 0 and compare(key, keys[i]) == LT]. It returns the lists as
    the loop left them, and the final [j] or the exception. *)
Fixpoint leaf_shift (key : PyVal) (keys : list PyVal) (children : list Slot) (j : nat)
  : list PyVal * list Slot * result nat :=
  match j with
  | O => (keys, children, Ok O)
  | S i =>
      match keys !! i with
      | None => (keys, children, Raise IndexError)
      | Some ki =>
          match _compare_keys key ki with
          | Raise e => (keys, children, Raise e)
          | Ok c =>
              if is_LT c then
                let keys1 := <[j := ki]> keys in
                match children !! i with
                | None => (keys1, children, Raise IndexError)
                | Some ci =>
                    if decide (j < length children)%nat
                    then leaf_shift key keys1 (<[j := ci]> children) i
                    else (keys1, children, Raise IndexError)
                end
              else (keys, children, Ok j)
          end
      end
  end.

(** The leaf branch of [_insert_non_full]. *)
Definition leaf_insert (keys : list PyVal) (children : list Slot) (key value : PyVal)
  : list PyVal * list Slot * result unit :=
  match leaf_shift key (keys ++ [VNone]) (children ++ [SNone]) (length keys) with
  | (ks, cs, Raise e) => (ks, cs, Raise e)
  | (ks, cs, Ok j) =>
      let ks1 := <[j := key]> ks in
      match cs !! j with
      | None => (ks1, cs, Raise IndexError)
      | Some SNone => (ks1, <[j := SBucket [value]]> cs, Ok tt)
      | Some c => (ks1, <[j := c]> cs, Ok tt)
      end
  end.

(** The descent loop of an internal node, from [j = i + 1 = len(keys)]:
    [while i >= 0 and compare(key, keys[i]) == LT: i -= 1], then [i += 1]. *)
Fixpoint descend_pos (key : PyVal) (keys : list PyVal) (j : nat) : result nat :=
  match j with
  | O => Ok O
  | S i =>
      match keys !! i with
      | None => Raise IndexError
      | Some ki =>
          c ← _compare_keys key ki;
          if is_LT c then descend_pos key keys i else Ok j
      end
  end.

Fixpoint height (node : Slot) : nat :=
  match node with
  | SNode _ children _ => S (fold_right (fun c h => Nat.max (height c) h) O children)
  | _ => O
  end.

(** [_insert_non_full(node, key, value)]: the node after the call, with
    the exception if one was raised. The recursion follows the children,
    and [fuel] bounds its depth. *)
Fixpoint _insert_non_full_fuel (fuel : nat) (order : Z) (node : Slot) (key value : PyVal)
  : Slot * result unit :=
  match fuel with
  | O => (node, Raise OutOfFuel)
  | S fuel' =>
      let recurse_at (n : Slot) (i : nat) : Slot * result unit :=
        match n with
        | SNode ks cs leaf =>
            match cs !! i with
            | None => (n, Raise IndexError)
            | Some c =>
                let '(c', r) := _insert_non_full_fuel fuel' order c key value in
                (SNode ks (<[i := c']> cs) leaf, r)
            end
        | _ => (n, Raise AttributeError)
        end in
      match node with
      | SNode keys children true =>
          let '(ks, cs, r) := leaf_insert keys children key value in
          (SNode ks cs true, r)
      | SNode keys children false =>
          match descend_pos key keys (length keys) with
          | Raise e => (node, Raise e)
          | Ok i =>
              match children !! i with
              | None => (node, Raise IndexError)
              | Some (SNode ckeys _ _) =>
                  if (Z.of_nat (length ckeys) =? 2 * order - 1)%Z then
                    match _split_child order node i with
                    | Raise e => (node, Raise e)
                    | Ok node1 =>
                        match node1 with
                        | SNode keys1 _ _ =>
                            match keys1 !! i with
                            | None => (node1, Raise IndexError)
                            | Some ki =>
                                match _compare_keys key ki with
                                | Raise e => (node1, Raise e)
                                | Ok c => recurse_at node1 (if is_GT c then S i else i)
                                end
                            end
                        | _ => (node1, Raise AttributeError)
                        end
                    end
                  else recurse_at node i
              | Some _ => (node, Raise AttributeError)
              end
          end
      | _ => (node, Raise AttributeError)
      end
  end.

(** The depth of the recursion is at most the height of the node, plus
    one call when a child is not a node. *)
Definition _insert_non_full (order : Z) (node : Slot) (key value : PyVal)
  : Slot * result unit :=
  _insert_non_full_fuel (S (height node)) order node key value.

(** [BTreeIndex.insert] *)
Definition insert (idx : BTreeIndex) (key value : PyVal) : BTreeIndex * result unit :=
  match root idx with
  | SNode rkeys _ _ =>
      if (Z.of_nat (length rkeys) =? 2 * order idx - 1)%Z then
        match _split_child (order idx) (SNode [] [root idx] false) O with
        | Raise e => (idx, Raise e)
        | Ok new_root =>
            let '(r, res) := _insert_non_full (order idx) new_root key value in
            (mkBTreeIndex (order idx) r, res)
        end
      else
        let '(r, res) := _insert_non_full (order idx) (root idx) key value in
        (mkBTreeIndex (order idx) r, res)
  | _ => (idx, Raise AttributeError)
  end.

(** [while i < len(keys) and compare(key, keys[i]) == GT: i += 1], on the
    keys from position [i] on. *)
Fixpoint search_pos (key : PyVal) (keys_from_i : list PyVal) (i : nat) : result nat :=
  match keys_from_i with
  | [] => Ok i
  | k :: ks =>
      c ← _compare_keys key k;
      if is_GT c then search_pos key ks (S i) else Ok i
  end.

(** [i < len(keys) and compare(key, keys[i]) == EQ] *)
Definition key_at (key : PyVal) (keys : list PyVal) (i : nat) : result bool :=
  match keys !! i with
  | None => Ok false
  | Some k => c ← _compare_keys key k; Ok (is_EQ c)
  end.

(** [_search(node, key)]: what the call returns, a bucket when the tree
    is as intended. *)
Fixpoint _search (node : Slot) (key : PyVal) {struct node} : result Slot :=
  match node with
  | SNode keys children is_leaf =>
      i ← search_pos key keys O;
      found ← key_at key keys i;
      if found : bool then
        match children !! i with
        | None => Raise IndexError
        | Some SNone => Ok (SBucket [])
        | Some c => Ok c
        end
      else if is_leaf then Ok (SBucket [])
      else
        (fix at_child (cs : list Slot) (n : nat) {struct cs} : result Slot :=
           match cs, n with
           | [], _ => Raise IndexError
           | c :: _, O => _search c key
           | _ :: cs', S n' => at_child cs' n'
           end) children i
  | _ => Raise AttributeError
  end.

Definition search (idx : BTreeIndex) (key : PyVal) : result Slot := _search (root idx) key.

(** [_delete(node, key)]: the node after the call and the returned flag. *)
Fixpoint _delete (node : Slot) (key : PyVal) {struct node} : Slot * result bool :=
  match node with
  | SNode keys children is_leaf =>
      match search_pos key keys O with
      | Raise e => (node, Raise e)
      | Ok i =>
          match key_at key keys i with
          | Raise e => (node, Raise e)
          | Ok true =>
              if is_leaf then
                if decide (i < length children)%nat
                then (SNode (list_del i keys) (list_del i children) is_leaf, Ok true)
                else (SNode (list_del i keys) children is_leaf, Raise IndexError)
              else
                if decide (i < length children)%nat
                then (SNode keys (<[i := SNone]> children) is_leaf, Ok true)
                else (node, Raise IndexError)
          | Ok false =>
              if is_leaf then (node, Ok false)
              else
                let '(cs, r) :=
                  (fix at_child (cs : list Slot) (n : nat) {struct cs} : list Slot * result bool :=
                     match cs, n with
                     | [], _ => ([], Raise IndexError)
                     | c :: rest, O => let '(c', r) := _delete c key in (c' :: rest, r)
                     | c :: rest, S n' => let '(rest', r) := at_child rest n' in (c :: rest', r)
                     end) children i in
                (SNode keys cs is_leaf, r)
          end
      end
  | _ => (node, Raise AttributeError)
  end.

Definition delete (idx : BTreeIndex) (key : PyVal) : BTreeIndex * result bool :=
  let '(r, res) := _delete (root idx) key in (mkBTreeIndex (order idx) r, res).

(** The two loops of [_search_range] once the index [i] is past the end of
    [children]: the keys from [i] on, and whether the first loop is still
    running. A key in the range makes [node.children[i]] raise. *)
Fixpoint range_past_children (start_key end_key : PyVal) (keys_from_i : list PyVal)
    (skipping : bool) (res : list (PyVal * PyVal)) : result (list (PyVal * PyVal)) :=
  match keys_from_i with
  | [] => Ok res
  | k :: ks =>
      skip ← (if skipping then c ← _compare_keys start_key k; Ok (is_GT c) else Ok false);
      if skip : bool then range_past_children start_key end_key ks true res
      else
        c ← _compare_keys k end_key;
        if is_GT c then Ok res else Raise IndexError
  end.

Section RangeWalk.

(** [self._search_range(child, start_key, end_key, result)] *)
Variable descend : Slot -> list (PyVal * PyVal) -> result (list (PyVal * PyVal)).
Variables start_key end_key : PyVal.
Variable is_leaf : bool.

(** [if not node.is_leaf and i < len(node.children)], with [i] in range *)
Definition range_last (child : Slot) (res : list (PyVal * PyVal))
  : result (list (PyVal * PyVal)) :=
  if is_leaf then Ok res else descend child res.

(** The two loops of [_search_range] over the keys and the children from
    the index [i] on: the first skips the keys below [start_key]; the
    second, for each key up to [end_key], descends into [children[i]]
    unless the node is a leaf, and then appends [(keys[i], value)] for each
    value of [children[i]], which a node is not a list of. *)
Fixpoint range_walk (children_from_i : list Slot) (keys_from_i : list PyVal)
    (skipping : bool) (res : list (PyVal * PyVal)) {struct children_from_i}
  : result (list (PyVal * PyVal)) :=
  match children_from_i with
  | [] => range_past_children start_key end_key keys_from_i skipping res
  | child :: cs =>
      match keys_from_i with
      | [] => range_last child res
      | k :: ks =>
          skip ← (if skipping then c ← _compare_keys start_key k; Ok (is_GT c) else Ok false);
          if skip : bool then range_walk cs ks true res
          else
            c ← _compare_keys k end_key;
            if is_GT c then range_last child res
            else
              res1 ← (if is_leaf then Ok res else descend child res);
              res2 ← match child with
                     | SNone => Ok res1
                     | SBucket values => Ok (res1 ++ map (fun value => (k, value)) values)
                     | SNode _ _ _ => Raise TypeError
                     end;
              range_walk cs ks false res2
      end
  end.

End RangeWalk.

(** [_search_range(node, start_key, end_key, result)]: the list [result]
    after the call, from [res] before it. *)
Fixpoint _search_range (node : Slot) (start_key end_key : PyVal)
    (res : list (PyVal * PyVal)) {struct node} : result (list (PyVal * PyVal)) :=
  match node with
  | SNode keys children is_leaf =>
      range_walk (fun child res' => _search_range child start_key end_key res')
                 start_key end_key is_leaf children keys true res
  | _ => Raise AttributeError
  end.

Definition search_range (idx : BTreeIndex) (start_key end_key : PyVal)
  : result (list (PyVal * PyVal)) :=
  _search_range (root idx) start_key end_key [].

End BTree.

(** ** The index manager (index.py) *)

Record IndexManager : Type := mkIndexManager {
  indexes : gmap string BTree.BTreeIndex;
  table_indexes : gmap string (list string)
}.

Module IndexManagerOps.

Definition new : IndexManager := mkIndexManager ∅ ∅.

(** [create_index]: a fresh, empty index of the default order 4; the
    column name is not recorded. *)
Definition create_index (im : IndexManager) (index_name table_name column_name : string)
  : IndexManager * result unit :=
  match indexes im !! index_name with
  | Some _ => (im, Raise (ValueError (IndexExists index_name)))
  | None =>
      let names := default [] (table_indexes im !! table_name) in
      (mkIndexManager (<[index_name := BTree.new_index 4]> (indexes im))
                      (<[table_name := names ++ [index_name]]> (table_indexes im)),
       Ok tt)
  end.

(** [index_list.remove(index_name)]: the first occurrence goes. *)
Fixpoint remove_first (name : string) (names : list string) : list string :=
  match names with
  | [] => []
  | n :: rest => if String.eqb n name then rest else n :: remove_first name rest
  end.

(** [drop_index]: the index goes, and its name leaves the list of every
    table that has it ([remove_first] leaves a list without the name as
    it is). *)
Definition drop_index (im : IndexManager) (index_name : string) : IndexManager * result unit :=
  match indexes im !! index_name with
  | None => (im, Raise (ValueError (IndexMissing index_name)))
  | Some _ =>
      (mkIndexManager (delete index_name (indexes im))
                      (remove_first index_name <$> table_indexes im),
       Ok tt)
  end.

Definition get_index (im : IndexManager) (index_name : string) : option BTree.BTreeIndex :=
  indexes im !! index_name.

Definition get_table_indexes (im : IndexManager) (table_name : string) : list string :=
  default [] (table_indexes im !! table_name).

(** [next(iter(row_data.values()))] under [if row_data:] *)
Definition first_value (row_data : dict) : option PyVal :=
  match row_data with
  | [] => None
  | (_, v) :: _ => Some v
  end.

(** The loop of [insert_into_indexes] over the index names still to visit. *)
Fixpoint insert_loop (im : IndexManager) (names : list string) (row_data : dict) (row_id : PyVal)
  : IndexManager * result unit :=
  match names with
  | [] => (im, Ok tt)
  | index_name :: rest =>
      match get_index im index_name, first_value row_data with
      | Some index, Some first_key =>
          let '(index', r) := BTree.insert index first_key row_id in
          let im' := mkIndexManager (<[index_name := index']> (indexes im)) (table_indexes im) in
          match r with
          | Raise e => (im', Raise e)
          | Ok _ => insert_loop im' rest row_data row_id
          end
      | _, _ => insert_loop im rest row_data row_id
      end
  end.

Definition insert_into_indexes (im : IndexManager) (table_name : string) (row_data : dict)
    (row_id : PyVal) : IndexManager * result unit :=
  insert_loop im (get_table_indexes im table_name) row_data row_id.

Fixpoint delete_loop (im : IndexManager) (names : list string) (row_data : dict)
  : IndexManager * result unit :=
  match names with
  | [] => (im, Ok tt)
  | index_name :: rest =>
      match get_index im index_name, first_value row_data with
      | Some index, Some first_key =>
          let '(index', r) := BTree.delete index first_key in
          let im' := mkIndexManager (<[index_name := index']> (indexes im)) (table_indexes im) in
          match r with
          | Raise e => (im', Raise e)
          | Ok _ => delete_loop im' rest row_data
          end
      | _, _ => delete_loop im rest row_data
      end
  end.

Definition delete_from_indexes (im : IndexManager) (table_name : string) (row_data : dict)
    (row_id : PyVal) : IndexManager * result unit :=
  delete_loop im (get_table_indexes im table_name) row_data.

Definition search_index (im : IndexManager) (index_name : string) (key : PyVal)
  : result BTree.Slot :=
  match get_index im index_name with
  | Some index => BTree.search index key
  | None => Ok (BTree.SBucket [])
  end.

Definition search_index_range (im : IndexManager) (index_name : string)
    (start_key end_key : PyVal) : result (list (PyVal * PyVal)) :=
  match get_index im index_name with
  | Some index => BTree.search_range index start_key end_key
  | None => Ok []
  end.

End IndexManagerOps.

(** ** Persistence (storage.py, [StorageEngine]) *)

(** The two JSON documents of a table, as the trees [json.dump] writes. *)
Record ColumnData : Type := mkColumnData {
  cd_name : string;
  cd_data_type : string;
  cd_constraints : list string
}.

Record SchemaData : Type := mkSchemaData {
  sd_name : string;
  sd_columns : list ColumnData;
  sd_primary_key : option string
}.

Inductive Document : Type :=
  | SchemaDoc (schema_data : SchemaData)
  | RowsDoc (rows_data : list dict).

Module StorageEngine.

(** [s.endswith(suffix)] *)
Definition endswith (s suffix : string) : bool :=
  let n := String.length s in
  let m := String.length suffix in
  if (m <=? n)%nat then String.eqb (substring (n - m) m s) suffix else false.

(** [s.replace(old, '')] for a non-empty [old]: the occurrences of [old]
    are dropped from left to right; [skip] counts the characters of the
    occurrence being dropped. *)
Fixpoint remove_from (old : string) (skip : nat) (s : string) : string :=
  match s with
  | EmptyString => EmptyString
  | String c s' =>
      match skip with
      | S k => remove_from old k s'
      | O =>
          if String.prefix old s then remove_from old (String.length old - 1) s'
          else String c (remove_from old O s')
      end
  end.

Definition str_remove (s old : string) : string := remove_from old O s.

Definition schema_file (table_name : string) : string := table_name +:+ "_schema.json".
Definition rows_file (table_name : string) : string := table_name +:+ "_rows.json".

(** The [.value] of the enumeration members, and the lookup by value. *)
Definition DataType_value (t : DataType) : string :=
  match t with INT => "INT" | TEXT => "TEXT" | FLOAT => "FLOAT" | BOOL => "BOOL" end.

Definition ConstraintType_value (c : ConstraintType) : string :=
  match c with
  | PRIMARY_KEY => "PRIMARY_KEY" | UNIQUE => "UNIQUE" | NOT_NULL => "NOT_NULL"
  end.

Definition DataType_of (v : string) : result DataType :=
  if String.eqb v "INT" then Ok INT
  else if String.eqb v "TEXT" then Ok TEXT
  else if String.eqb v "FLOAT" then Ok FLOAT
  else if String.eqb v "BOOL" then Ok BOOL
  else Raise (ValueError (NotAMember v)).

Definition ConstraintType_of (v : string) : result ConstraintType :=
  if String.eqb v "PRIMARY_KEY" then Ok PRIMARY_KEY
  else if String.eqb v "UNIQUE" then Ok UNIQUE
  else if String.eqb v "NOT_NULL" then Ok NOT_NULL
  else Raise (ValueError (NotAMember v)).

Definition column_data (col : Column) : ColumnData :=
  mkColumnData (col_name col) (DataType_value (col_data_type col))
               (map ConstraintType_value (col_constraints col)).

Definition schema_data (s : TableSchema) : SchemaData :=
  mkSchemaData (schema_name s) (map column_data (columns s)) (primary_key s).

(** The body of the loop of [save_to_disk] for one table. *)
Definition save_table (table_name : string) (table : Table) (fs : gmap string Document)
  : gmap string Document :=
  <[rows_file table_name := RowsDoc (map RowOps.to_dict (rows table))]>
    (<[schema_file table_name := SchemaDoc (schema_data (schema table))]> fs).

(** [save_to_disk]: the files of the data directory after the call. *)
Definition save_to_disk (tables : gmap string Table) (fs : gmap string Document)
  : gmap string Document :=
  map_fold save_table fs tables.

Fixpoint load_constraints (cs : list string) : result (list ConstraintType) :=
  match cs with
  | [] => Ok []
  | c :: rest =>
      c' ← ConstraintType_of c;
      rest' ← load_constraints rest;
      Ok (c' :: rest')
  end.

Fixpoint load_columns (cols : list ColumnData) : result (list Column) :=
  match cols with
  | [] => Ok []
  | col_data :: rest =>
      t ← DataType_of (cd_data_type col_data);
      cs ← load_constraints (cd_constraints col_data);
      rest' ← load_columns rest;
      Ok (mkColumn (cd_name col_data) t cs :: rest')
  end.

(** [row_data['row_id'] + 1] once [row_data['row_id'] >= next_row_id]
    held: an [int] for an [int] or a [bool], a [float] for a [float]. *)
Definition succ_row_id (v : PyVal) : result Counter :=
  match v with
  | VInt n => Ok (CInt (n + 1))
  | VBool b => Ok (CInt (Z.b2z b + 1))
  | VFloat q => Ok (CFloat (Float64.succ q))
  | VNone | VStr _ => Raise TypeError
  end.

(** The loop over [rows_data]: the rows in file order, and the counter. *)
Fixpoint load_rows (rows_data : list dict) (acc : list Row) (next : Counter)
  : result (list Row * Counter) :=
  match rows_data with
  | [] => Ok (acc, next)
  | row_data :: rest =>
      let acc' := acc ++ [mkRow row_data] in
      match dict_get row_data "row_id" with
      | None => load_rows rest acc' next
      | Some v =>
          ge ← py_ge v (CounterOps.value next);
          if ge : bool then next' ← succ_row_id v; load_rows rest acc' next'
          else load_rows rest acc' next
      end
  end.

(** The body of the loop of [load_from_disk] for one directory entry. *)
Definition load_file (fs : gmap string Document) (filename : string) (doc : Document)
    (tables : gmap string Table) : result (gmap string Table) :=
  if endswith filename "_schema.json" then
    let table_name := str_remove filename "_schema.json" in
    match doc with
    | SchemaDoc sd =>
        cols ← load_columns (sd_columns sd);
        let s := mkTableSchema (sd_name sd) cols (sd_primary_key sd) in
        match fs !! rows_file table_name with
        | None => Ok (<[table_name := TableOps.new s]> tables)
        | Some (RowsDoc rows_data) =>
            '(rs, next) ← load_rows rows_data [] 1;
            Ok (<[table_name := mkTable s rs next]> tables)
        | Some (SchemaDoc _) => Raise Unmodelled
        end
    | RowsDoc _ => Raise TypeError
    end
  else Ok tables.

(** [load_from_disk] on an engine holding [tables]: the directory entries
    are visited in the order the map enumerates them. *)
Definition load_from_disk (tables : gmap string Table) (fs : gmap string Document)
  : result (gmap string Table) :=
  map_fold (fun filename doc acc => acc ≫= load_file fs filename doc) (Ok tables) fs.

(** [StorageEngine(data_dir)] *)
Definition init (fs : gmap string Document) : result (gmap string Table) :=
  load_from_disk ∅ fs.

Fixpoint first_primary_key (cols : list Column) : option string :=
  match cols with
  | [] => None
  | col :: rest =>
      if has_constraint PRIMARY_KEY (col_constraints col) then Some (col_name col)
      else first_primary_key rest
  end.

(** [create_table]: the registry and the directory after the call. *)
Definition create_table (tables : gmap string Table) (fs : gmap string Document)
    (s : TableSchema) : gmap string Table * gmap string Document * result unit :=
  match tables !! schema_name s with
  | Some _ => (tables, fs, Raise (ValueError (TableExists (schema_name s))))
  | None =>
      let s' :=
        match first_primary_key (columns s) with
        | Some pk => mkTableSchema (schema_name s) (columns s) (Some pk)
        | None => s
        end in
      let tables' := <[schema_name s := TableOps.new s']> tables in
      (tables', save_to_disk tables' fs, Ok tt)
  end.

End StorageEngine.

(** ** The query executor (executor.py) *)

Module QueryExecutor.

(** [QueryExecutor._matches_condition]: an operator outside the six gives
    [False]. *)
Definition _matches_condition (row : Row) (condition : Condition) : result bool :=
  let left_val := TableOps.operand_value row (cond_left condition) in
  let right_val := TableOps.operand_value row (cond_right condition) in
  let op := cond_operator condition in
  if String.eqb op "=" then Ok (py_eq left_val right_val)
  else if String.eqb op "!=" then Ok (py_ne left_val right_val)
  else if String.eqb op ">" then py_gt left_val right_val
  else if String.eqb op "<" then py_lt left_val right_val
  else if String.eqb op ">=" then py_ge left_val right_val
  else if String.eqb op "<=" then py_le left_val right_val
  else Ok false.

(** The body of the match: the left row's items, then every item of the
    right row but ['row_id'] under the key [f"{table}_{key}"]. *)
Definition merge_rows (table_name : string) (left_row right_row : Row) : Row :=
  mkRow (fold_left
           (fun merged_data kv =>
              if String.eqb (fst kv) "row_id" then merged_data
              else dict_set merged_data (table_name +:+ "_" +:+ fst kv) (snd kv))
           (RowOps.to_dict right_row) (RowOps.to_dict left_row)).

(** The inner loop, which stops at its first match ([break]). *)
Fixpoint join_one (table_name right_column : string) (left_row : Row) (left_key : PyVal)
    (right_rows : list Row) : list Row :=
  match right_rows with
  | [] => []
  | right_row :: rest =>
      if py_eq left_key (RowOps.get right_row right_column)
      then [merge_rows table_name left_row right_row]
      else join_one table_name right_column left_row left_key rest
  end.

Fixpoint _apply_join (rows : list Row) (join_table : Table) (join_clause : JoinClause)
  : list Row :=
  match rows with
  | [] => []
  | left_row :: rest =>
      let left_key := RowOps.get left_row (join_left_column join_clause) in
      match left_key with
      | VNone => _apply_join rest join_table join_clause
      | _ =>
          join_one (schema_name (schema join_table)) (join_right_column join_clause)
                   left_row left_key (TableOps.select join_table None)
          ++ _apply_join rest join_table join_clause
      end
  end.

(** [[row for row in rows if self._matches_condition(row, c)]] *)
Fixpoint keep_matching (c : Condition) (rs : list Row) : result (list Row) :=
  match rs with
  | [] => Ok []
  | row :: rest =>
      m ← _matches_condition row c;
      kept ← keep_matching c rest;
      Ok (if m : bool then row :: kept else kept)
  end.

(** [_format_results] *)
Definition _format_results (rs : list Row) (cols : list string) : list dict :=
  map (fun row => if TableOps.has_star cols then RowOps.to_dict row
                  else TableOps.project (data row) cols []) rs.

(** [_execute_select_full_scan], with the registry of the storage engine. *)
Definition _execute_select_full_scan (tables : gmap string Table) (table : Table)
    (cols : list string) (where_clause : option Condition) (join_clause : option JoinClause)
  : result (list dict) :=
  let rows0 := TableOps.select table (Some cols) in
  rows1 ← match where_clause with
          | Some c => keep_matching c rows0
          | None => Ok rows0
          end;
  let rows2 :=
    match join_clause with
    | Some jc =>
        match tables !! join_table jc with
        | Some jt => _apply_join rows1 jt jc
        | None => rows1
        end
    | None => rows1
    end in
  Ok (_format_results rows2 cols).

(** [_can_use_index]: the left side is a column name and the table has
    an index, whatever its column. *)
Definition _can_use_index (im : IndexManager) (table_name : string) (where_clause : Condition)
  : bool :=
  match cond_left where_clause with
  | ColRef _ =>
      match IndexManagerOps.get_table_indexes im table_name with
      | [] => false
      | _ :: _ => true
      end
  | Lit _ => false
  end.

(** [row.get('row_id') in row_ids], where [row_ids] is what [search]
    returned: membership in a list goes by [==]; a node is not iterable. *)
Definition row_id_in (row : Row) (row_ids : BTree.Slot) : result bool :=
  match row_ids with
  | BTree.SBucket values => Ok (existsb (py_eq (RowOps.get row "row_id")) values)
  | _ => Raise TypeError
  end.

(** [[row for row in table.rows if row.get('row_id') in row_ids]] *)
Fixpoint rows_with_ids (rs : list Row) (row_ids : BTree.Slot) : result (list Row) :=
  match rs with
  | [] => Ok []
  | row :: rest =>
      m ← row_id_in row row_ids;
      kept ← rows_with_ids rest row_ids;
      Ok (if m : bool then row :: kept else kept)
  end.

(** [_execute_select_with_index]: the first index registered under the
    name in the table's schema is searched for the value on the right of
    the condition. [where_clause.right.value] raises on a column name. *)
Definition _execute_select_with_index (tables : gmap string Table) (im : IndexManager)
    (table : Table) (cols : list string) (where_clause : Condition)
    (join_clause : option JoinClause) : result (list dict) :=
  match IndexManagerOps.get_table_indexes im (schema_name (schema table)) with
  | [] => _execute_select_full_scan tables table cols (Some where_clause) join_clause
  | index_name :: _ =>
      match IndexManagerOps.get_index im index_name with
      | None => _execute_select_full_scan tables table cols (Some where_clause) join_clause
      | Some index =>
          match cond_right where_clause with
          | ColRef _ => Raise AttributeError
          | Lit VNone =>
              _execute_select_full_scan tables table cols (Some where_clause) join_clause
          | Lit search_key =>
              row_ids ← BTree.search index search_key;
              result_rows ← rows_with_ids (rows table) row_ids;
              Ok (_format_results result_rows cols)
          end
      end
  end.

(** [execute_select] *)
Definition execute_select (tables : gmap string Table) (im : IndexManager)
    (table_name : string) (cols : list string) (where_clause : option Condition)
    (join_clause : option JoinClause) : result (list dict) :=
  match tables !! table_name with
  | None => Raise (ValueError (TableMissing table_name))
  | Some table =>
      match where_clause with
      | Some c =>
          if _can_use_index im table_name c
          then _execute_select_with_index tables im table cols c join_clause
          else _execute_select_full_scan tables table cols where_clause join_clause
      | None => _execute_select_full_scan tables table cols where_clause join_clause
      end
  end.

End QueryExecutor.

(** ** The database (database.py)

    Tables enter the registry through [StorageEngine.create_table] with a
    [TableSchema], or from the data directory when the engine starts.
    [_execute_create_table] hands [create_table] the parser's own table
    description, which is not a [TableSchema]; it is left out here. *)

Record Database : Type := mkDatabase {
  storage : gmap string Table;
  files : gmap string Document;
  index_manager : IndexManager
}.

Module DatabaseOps.

(** [Database(data_dir)] over the directory [fs] *)
Definition new (fs : gmap string Document) : result Database :=
  tables ← StorageEngine.init fs;
  Ok (mkDatabase tables fs IndexManagerOps.new).

Definition _matches_condition (row : Row) (condition : Condition) : result bool :=
  let left_val := TableOps.operand_value row (cond_left condition) in
  let right_val := TableOps.operand_value row (cond_right condition) in
  let op := cond_operator condition in
  if String.eqb op "=" then Ok (py_eq left_val right_val)
  else if String.eqb op "!=" then Ok (py_ne left_val right_val)
  else if String.eqb op ">" then py_gt left_val right_val
  else if String.eqb op "<" then py_lt left_val right_val
  else if String.eqb op ">=" then py_ge left_val right_val
  else if String.eqb op "<=" then py_le left_val right_val
  else Ok false.

Definition merge_rows (table_name : string) (left_row right_row : Row) : Row :=
  mkRow (fold_left
           (fun merged_data kv =>
              if String.eqb (fst kv) "row_id" then merged_data
              else dict_set merged_data (table_name +:+ "_" +:+ fst kv) (snd kv))
           (RowOps.to_dict right_row) (RowOps.to_dict left_row)).

Fixpoint join_one (table_name right_column : string) (left_row : Row) (left_key : PyVal)
    (right_rows : list Row) : list Row :=
  match right_rows with
  | [] => []
  | right_row :: rest =>
      if py_eq left_key (RowOps.get right_row right_column)
      then [merge_rows table_name left_row right_row]
      else join_one table_name right_column left_row left_key rest
  end.

Fixpoint _apply_join (rows : list Row) (join_table : Table) (join_clause : JoinClause)
  : list Row :=
  match rows with
  | [] => []
  | left_row :: rest =>
      let left_key := RowOps.get left_row (join_left_column join_clause) in
      match left_key with
      | VNone => _apply_join rest join_table join_clause
      | _ =>
          join_one (schema_name (schema join_table)) (join_right_column join_clause)
                   left_row left_key (TableOps.select join_table None)
          ++ _apply_join rest join_table join_clause
      end
  end.

(** [[row for row in rows if self._matches_condition(row, c)]] *)
Fixpoint keep_matching (c : Condition) (rs : list Row) : result (list Row) :=
  match rs with
  | [] => Ok []
  | row :: rest =>
      m ← _matches_condition row c;
      kept ← keep_matching c rest;
      Ok (if m : bool then row :: kept else kept)
  end.

(** The rows a statement with this WHERE clause addresses, as copies. *)
Definition matching_rows (table : Table) (where_clause : option Condition)
  : result (list Row) :=
  match where_clause with
  | Some c => keep_matching c (TableOps.select table None)
  | None => Ok (TableOps.select table None)
  end.

(** The final loop of [_execute_select]. *)
Definition format_row (cols : list string) (row : Row) : dict :=
  if TableOps.has_star cols then RowOps.to_dict row
  else TableOps.project (data row) cols [].

Definition _execute_select (db : Database) (table_name : string) (cols : list string)
    (where_clause : option Condition) (join_clause : option JoinClause)
  : result (list dict) :=
  match storage db !! table_name with
  | None => Raise (ValueError (TableMissing table_name))
  | Some table =>
      let rows0 := TableOps.select table (Some cols) in
      rows1 ← match where_clause with
              | Some c => keep_matching c rows0
              | None => Ok rows0
              end;
      let rows2 :=
        match join_clause with
        | Some jc =>
            match storage db !! join_table jc with
            | Some jt => _apply_join rows1 jt jc
            | None => rows1
            end
        | None => rows1
        end in
      Ok (map (format_row cols) rows2)
  end.

(** [row_data[columns[i]] = value] for the values that have a column *)
Fixpoint build_row_data (cols : list Column) (values : list PyVal) (row_data : dict) : dict :=
  match cols, values with
  | col :: cols', value :: values' =>
      build_row_data cols' values' (dict_set row_data (col_name col) value)
  | _, _ => row_data
  end.

(** [_execute_insert]: the database after the statement, and its output
    or the exception. The row data handed to the index manager is the
    dictionary of the stored row, row id included. *)
Definition _execute_insert (db : Database) (table_name : string) (values : list PyVal)
  : Database * result (list dict) :=
  match storage db !! table_name with
  | None => (db, Raise (ValueError (TableMissing table_name)))
  | Some table =>
      let row := mkRow (build_row_data (columns (schema table)) values []) in
      let '(table', row', r) := TableOps.insert table row in
      let storage' := <[table_name := table']> (storage db) in
      match r with
      | Raise e => (mkDatabase storage' (files db) (index_manager db), Raise e)
      | Ok row_id =>
          let '(im', ri) :=
            IndexManagerOps.insert_into_indexes (index_manager db) table_name (data row') row_id in
          match ri with
          | Raise e => (mkDatabase storage' (files db) im', Raise e)
          | Ok _ =>
              (mkDatabase storage' (StorageEngine.save_to_disk storage' (files db)) im',
               Ok [[("affected_rows", VInt 1); ("row_id", row_id)]])
          end
      end
  end.

(** [for row in rows: delete_from_indexes(...)] and the same for inserts *)
Fixpoint delete_rows_from_indexes (im : IndexManager) (table_name : string) (rs : list Row)
  : IndexManager * result unit :=
  match rs with
  | [] => (im, Ok tt)
  | row :: rest =>
      let '(im', r) :=
        IndexManagerOps.delete_from_indexes im table_name (data row) (RowOps.get row "row_id") in
      match r with
      | Raise e => (im', Raise e)
      | Ok _ => delete_rows_from_indexes im' table_name rest
      end
  end.

Fixpoint insert_rows_into_indexes (im : IndexManager) (table_name : string) (rs : list Row)
  : IndexManager * result unit :=
  match rs with
  | [] => (im, Ok tt)
  | row :: rest =>
      let '(im', r) :=
        IndexManagerOps.insert_into_indexes im table_name (data row) (RowOps.get row "row_id") in
      match r with
      | Raise e => (im', Raise e)
      | Ok _ => insert_rows_into_indexes im' table_name rest
      end
  end.

(** [assignments[assignment.column] = assignment.value.value] *)
Definition build_assignments (assignments : list (string * PyVal)) : dict :=
  fold_left (fun d kv => dict_set d (fst kv) (snd kv)) assignments [].

Definition _execute_update (db : Database) (table_name : string)
    (assignments : list (string * PyVal)) (where_clause : option Condition)
  : Database * result (list dict) :=
  match storage db !! table_name with
  | None => (db, Raise (ValueError (TableMissing table_name)))
  | Some table =>
      match matching_rows table where_clause with
      | Raise e => (db, Raise e)
      | Ok rows_to_update =>
          let '(im1, r1) :=
            delete_rows_from_indexes (index_manager db) table_name rows_to_update in
          match r1 with
          | Raise e => (mkDatabase (storage db) (files db) im1, Raise e)
          | Ok _ =>
              let '(table', r2) :=
                TableOps.update table (build_assignments assignments) where_clause in
              let storage' := <[table_name := table']> (storage db) in
              match r2 with
              | Raise e => (mkDatabase storage' (files db) im1, Raise e)
              | Ok affected_rows =>
                  match matching_rows table' where_clause with
                  | Raise e => (mkDatabase storage' (files db) im1, Raise e)
                  | Ok updated_rows =>
                      let '(im2, r3) :=
                        insert_rows_into_indexes im1 table_name updated_rows in
                      match r3 with
                      | Raise e => (mkDatabase storage' (files db) im2, Raise e)
                      | Ok _ =>
                          (mkDatabase storage'
                             (StorageEngine.save_to_disk storage' (files db)) im2,
                           Ok [[("affected_rows", VInt affected_rows)]])
                      end
                  end
              end
          end
      end
  end.

Definition _execute_delete (db : Database) (table_name : string)
    (where_clause : option Condition) : Database * result (list dict) :=
  match storage db !! table_name with
  | None => (db, Raise (ValueError (TableMissing table_name)))
  | Some table =>
      match matching_rows table where_clause with
      | Raise e => (db, Raise e)
      | Ok rows_to_delete =>
          let '(im1, r1) :=
            delete_rows_from_indexes (index_manager db) table_name rows_to_delete in
          match r1 with
          | Raise e => (mkDatabase (storage db) (files db) im1, Raise e)
          | Ok _ =>
              let '(table', r2) := TableOps.delete table where_clause in
              let storage' := <[table_name := table']> (storage db) in
              match r2 with
              | Raise e => (mkDatabase storage' (files db) im1, Raise e)
              | Ok affected_rows =>
                  (mkDatabase storage'
                     (StorageEngine.save_to_disk storage' (files db)) im1,
                   Ok [[("affected_rows", VInt affected_rows)]])
              end
          end
      end
  end.

(** [_execute_create_index]; the message is [f"Index '{name}' created
    successfully"]. *)
Definition _execute_create_index (db : Database) (index_name table_name column_name : string)
  : Database * result (list dict) :=
  let '(im, r) :=
    IndexManagerOps.create_index (index_manager db) index_name table_name column_name in
  match r with
  | Raise e => (mkDatabase (storage db) (files db) im, Raise e)
  | Ok _ =>
      (mkDatabase (storage db) (files db) im,
       Ok [[("message", VStr ("Index '" +:+ index_name +:+ "' created successfully"))]])
  end.

(** A table registered through [StorageEngine.create_table]. *)
Definition create_table (db : Database) (s : TableSchema) : Database * result unit :=
  let '(tables, fs, r) := StorageEngine.create_table (storage db) (files db) s in
  (mkDatabase tables fs (index_manager db), r).

End DatabaseOps.

(** ** Notions the properties are stated with *)

Module Spec.

(** The ValueErrors the specification files under ConstraintViolation: a
    missing NOT_NULL value, a type mismatch, a duplicate UNIQUE or
    PRIMARY_KEY value. *)
Definition constraint_violation (e : PyError) : bool :=
  match e with
  | ValueError (CannotBeNull _) | ValueError (InvalidType _)
  | ValueError (DuplicateValue _) => true
  | _ => false
  end.

(** A column that carries UNIQUE or PRIMARY_KEY. *)
Definition unique_column (col : Column) : bool :=
  has_constraint UNIQUE (col_constraints col)
  || has_constraint PRIMARY_KEY (col_constraints col).

End Spec.

(** The scenario of the specification: [users(id INT PRIMARY KEY, name TEXT
    NOT NULL)], registered through [StorageEngine.create_table] in an empty
    data directory. *)
Module Scenario.

Definition users_schema : TableSchema :=
  mkTableSchema "users"
    [mkColumn "id" INT [PRIMARY_KEY]; mkColumn "name" TEXT [NOT_NULL]] None.

Definition empty_db : Database := mkDatabase ∅ ∅ IndexManagerOps.new.

Definition users_db : Database := fst (DatabaseOps.create_table empty_db users_schema).

(** The number of rows of a table of the database, when it exists. *)
Definition row_count (db : Database) (table_name : string) : option nat :=
  (fun t => length (rows t)) <$> storage db !! table_name.

End Scenario.

Module PredicateSpec.

(** The value tags of the specification's data model. *)
Inductive Tag : Type := TNull | TBoolean | TInteger | TFloat | TText.

Definition tag_of (v : PyVal) : Tag :=
  match v with
  | VNone => TNull
  | VBool _ => TBoolean
  | VInt _ => TInteger
  | VFloat _ => TFloat
  | VStr _ => TText
  end.

(** The specification's comparable pairs: equal tags, or Integer with Float. *)
Definition comparable_tags (a b : PyVal) : bool :=
  match tag_of a, tag_of b with
  | TNull, TNull | TBoolean, TBoolean | TInteger, TInteger
  | TFloat, TFloat | TText, TText
  | TInteger, TFloat | TFloat, TInteger => true
  | _, _ => false
  end.

(** The pairs the code can order: two numbers, a boolean counting as a
    number, or two strings. *)
Definition is_number (v : PyVal) : bool :=
  match v with VBool _ | VInt _ | VFloat _ => true | _ => false end.

Definition is_text (v : PyVal) : bool :=
  match v with VStr _ => true | _ => false end.

Definition orderable (a b : PyVal) : bool :=
  (is_number a && is_number b) || (is_text a && is_text b).

(** The operand is a column reference that the row has no entry for. *)
Definition unresolved (row : Row) (o : Operand) : bool :=
  match o with
  | ColRef column => negb (dict_contains (data row) column)
  | Lit _ => false
  end.

Definition six_operators : list string := ["="; "!="; ">"; "<"; ">="; "<="].
Definition ordering_operators : list string := [">"; "<"; ">="; "<="].

(** The three copies of the evaluator. *)
Definition evaluators : list (Row -> Condition -> result bool) :=
  [TableOps._matches_condition; QueryExecutor._matches_condition;
   DatabaseOps._matches_condition].

(** The specification's sentence: with any of the six operators, an
    unresolved column reference or a pair of incomparable tags makes the
    evaluation fail. *)
Definition fails_on_undefined (eval : Row -> Condition -> result bool) : Prop :=
  forall (row : Row) (c : Condition),
    In (cond_operator c) six_operators ->
    unresolved row (cond_left c) || unresolved row (cond_right c)
    || negb (comparable_tags (TableOps.operand_value row (cond_left c))
                             (TableOps.operand_value row (cond_right c))) = true ->
    is_ok (eval row c) = false.

End PredicateSpec.

Module UpdateSpec.

(** The row is one the statement addresses: the predicate is absent or
    holds of it. *)
Definition touched (where_clause : option Condition) (row : Row) : bool :=
  match TableOps.selected where_clause row with
  | Ok true => true
  | _ => false
  end.

(** The predicate of the statement is absent or has one of the six
    operators of the grammar. *)
Definition well_formed (where_clause : option Condition) : Prop :=
  match where_clause with
  | None => True
  | Some c => In (cond_operator c) PredicateSpec.six_operators
  end.

(** What an operand of the predicate stands for on a row: a literal for
    itself, a column for the value the row has in it, NULL when it has
    none. *)
Definition operand (row : Row) (o : Operand) : PyVal :=
  match o with
  | Lit v => v
  | ColRef column => default VNone (dict_get (data row) column)
  end.

(** Whether [left op right] holds of the row, as Python compares the two
    values; [None] where the comparison is not defined: an ordering between
    a number and a string, or with NULL on a side. *)
Definition holds (c : Condition) (row : Row) : option bool :=
  let l := operand row (cond_left c) in
  let r := operand row (cond_right c) in
  let op := cond_operator c in
  if String.eqb op "=" then Some (py_eq l r)
  else if String.eqb op "!=" then Some (negb (py_eq l r))
  else
    match py_order l r with
    | Raise _ => None
    | Ok o =>
        if String.eqb op "<" then Some (is_Lt o)
        else if String.eqb op "<=" then Some (negb (is_Gt o))
        else if String.eqb op ">" then Some (is_Gt o)
        else if String.eqb op ">=" then Some (negb (is_Lt o))
        else None
    end.

(** The statement addresses the row: there is no predicate, or it holds. *)
Definition addressed (where_clause : option Condition) (row : Row) : option bool :=
  match where_clause with
  | None => Some true
  | Some c => holds c row
  end.

(** The row with every assignment written into it, in the order of the
    statement. *)
Definition assign (assignments : dict) (row : Row) : Row :=
  mkRow (fold_left (fun d kv => dict_set d (fst kv) (snd kv)) assignments (data row)).

(** What the statement makes of a row on which its predicate is defined. *)
Definition rewritten (assignments : dict) (where_clause : option Condition) (row : Row) : Row :=
  match addressed where_clause row with
  | Some true => assign assignments row
  | _ => row
  end.

(** The number of rows the statement addresses. *)
Definition count (where_clause : option Condition) (rs : list Row) : Z :=
  Z.of_nat (length (List.filter
                      (fun row => match addressed where_clause row with
                                  | Some true => true
                                  | _ => false
                                  end) rs)).

(** The statement gets past the row: the predicate is defined on it, and
    where it holds the row with the assignments written is valid for the
    schema. *)
Definition completes (s : TableSchema) (assignments : dict) (where_clause : option Condition)
    (row : Row) : Prop :=
  exists b, addressed where_clause row = Some b /\
            (b = true -> is_ok (Schema.validate_row s (assign assignments row)) = true).

(** The validation of the row fails: the statement addresses it and the
    row with the assignments written is not valid. *)
Definition invalid (s : TableSchema) (assignments : dict) (where_clause : option Condition)
    (row : Row) (e : PyError) : Prop :=
  addressed where_clause row = Some true /\
  Schema.validate_row s (assign assignments row) = Raise e.

(** The specification's last sentence: when no validation fails, update
    returns the count of the rows touched. Here no validation can fail,
    whichever rows are addressed. *)
Definition returns_count : Prop :=
  forall (t : Table) (assignments : dict) (where_clause : option Condition),
    well_formed where_clause ->
    Forall (fun row => is_ok (Schema.validate_row (schema t) (assign assignments row)) = true)
           (rows t) ->
    snd (TableOps.update t assignments where_clause) = Ok (count where_clause (rows t)).

End UpdateSpec.

(** What a SELECT reads of its left table. *)
Module SelectSpec.


(** The rows the WHERE clause keeps, in their order. *)
Definition kept (where_clause : option Condition) (rs : list Row) : list Row :=
  List.filter (fun row => match UpdateSpec.addressed where_clause row with
                          | Some true => true
                          | _ => false
                          end) rs.


End SelectSpec.

(** The join scenario of the specification: users 1 and 2, and three
    orders, two of them of user 1 and one of a user 3. *)
Module JoinScenario.

Definition orders_schema : TableSchema :=
  mkTableSchema "orders"
    [mkColumn "id" INT [PRIMARY_KEY]; mkColumn "user_id" INT []] None.

(** The statements in order; each one completes. *)
Definition db : Database :=
  let db0 := fst (DatabaseOps.create_table Scenario.users_db orders_schema) in
  let db1 := fst (DatabaseOps._execute_insert db0 "users" [VInt 1; VStr "a"]) in
  let db2 := fst (DatabaseOps._execute_insert db1 "users" [VInt 2; VStr "b"]) in
  let db3 := fst (DatabaseOps._execute_insert db2 "orders" [VInt 10; VInt 1]) in
  let db4 := fst (DatabaseOps._execute_insert db3 "orders" [VInt 11; VInt 1]) in
  fst (DatabaseOps._execute_insert db4 "orders" [VInt 12; VInt 3]).

Definition on_user_id : JoinClause := mkJoinClause "orders" "id" "user_id".

End JoinScenario.

Module BTreeSpec.

Import BTree.

(** The largest height among the entries of a [children] list. *)
Definition max_height (cs : list Slot) : nat :=
  fold_right (fun c h => Nat.max (height c) h) O cs.

(** Inserting a list of (key, row id) pairs in order, up to the first
    call that raises. *)
Fixpoint insert_all (idx : BTreeIndex) (kvs : list (PyVal * PyVal)) : BTreeIndex * result unit :=
  match kvs with
  | [] => (idx, Ok tt)
  | (k, v) :: rest =>
      let '(idx', r) := insert idx k v in
      match r with
      | Ok _ => insert_all idx' rest
      | Raise e => (idx', Raise e)
      end
  end.

(** The keys are pairwise in strictly ascending order. *)
Fixpoint strictly_ascending (keys : list PyVal) : bool :=
  match keys with
  | k1 :: (k2 :: _) as rest =>
      match py_order k1 k2 with
      | Ok Lt => strictly_ascending rest
      | _ => false
      end
  | _ => true
  end.

(** The per-node conditions of the shape invariant for order [t]: at most
    [2t-1] keys, at least [t-1] unless the node is the root, ascending
    keys, and for an internal node one child node more than keys. *)
Fixpoint node_ok (t : Z) (is_root : bool) (node : Slot) : bool :=
  match node with
  | SNode keys children is_leaf =>
      (Z.of_nat (length keys) <=? 2 * t - 1)
      && (is_root || (t - 1 <=? Z.of_nat (length keys)))
      && strictly_ascending keys
      && (is_leaf
          || ((length children =? length keys + 1)%nat
              && forallb (node_ok t false) children))
  | _ => false
  end.

(** The depths at which the leaves of the tree lie. *)
Fixpoint leaf_depths (depth : nat) (node : Slot) : list nat :=
  match node with
  | SNode _ children is_leaf =>
      if is_leaf then [depth] else flat_map (leaf_depths (S depth)) children
  | _ => []
  end.

Definition all_equal (l : list nat) : bool :=
  match l with
  | [] => true
  | x :: rest => forallb (Nat.eqb x) rest
  end.

Definition well_shaped (idx : BTreeIndex) : bool :=
  node_ok (order idx) true (root idx) && all_equal (leaf_depths O (root idx)).

(** The (key, row id) pairs held in the buckets of the leaves. *)
Fixpoint entries (node : Slot) : list (PyVal * PyVal) :=
  match node with
  | SNode keys children is_leaf =>
      if is_leaf then
        flat_map (fun kc => match snd kc with
                            | SBucket values => map (pair (fst kc)) values
                            | _ => []
                            end)
                 (combine keys children)
      else flat_map entries children
  | _ => []
  end.

(** [row_id in index.search(key)] *)
Definition found_under (idx : BTreeIndex) (key row_id : PyVal) : bool :=
  match search idx key with
  | Ok (SBucket values) => existsb (py_eq row_id) values
  | _ => false
  end.

End BTreeSpec.

Module ConsistencySpec.

(** Every entry of the index names the row id of a stored row, and every
    stored row is found in the index under its value of the indexed
    column with its row id. *)
Definition index_consistent (t : Table) (column : string) (idx : BTree.BTreeIndex) : bool :=
  forallb (fun e => existsb (fun row => py_eq (RowOps.get row "row_id") (snd e)) (rows t))
          (BTreeSpec.entries (BTree.root idx))
  && forallb (fun row => BTreeSpec.found_under idx (RowOps.get row column)
                                               (RowOps.get row "row_id"))
             (rows t).

(** The same for the index [index_name] of the database, created on
    [column] of [table_name]. *)
Definition consistent (db : Database) (table_name index_name column : string) : bool :=
  match storage db !! table_name, indexes (index_manager db) !! index_name with
  | Some t, Some idx => index_consistent t column idx
  | _, _ => false
  end.

(** A table [t(a INT)] with an index on [a]. *)
Definition indexed_db : Database :=
  let db0 := fst (DatabaseOps.create_table Scenario.empty_db
                    (mkTableSchema "t" [mkColumn "a" INT []] None)) in
  fst (DatabaseOps._execute_create_index db0 "i" "t" "a").

End ConsistencySpec.

Module PersistSpec.

(** The parser's IDENTIFIER: [[a-zA-Z_][a-zA-Z0-9_]*]. *)
Definition in_range (lo hi c : ascii) : bool :=
  (N_of_ascii lo <=? N_of_ascii c)%N && (N_of_ascii c <=? N_of_ascii hi)%N.

Definition ident_start (c : ascii) : bool :=
  in_range "a" "z" c || in_range "A" "Z" c || Ascii.eqb c "_".

Definition ident_char (c : ascii) : bool := ident_start c || in_range "0" "9" c.

Fixpoint ident_chars (s : string) : bool :=
  match s with
  | EmptyString => true
  | String c s' => ident_char c && ident_chars s'
  end.

Definition is_identifier (s : string) : bool :=
  match s with
  | EmptyString => false
  | String c s' => ident_start c && ident_chars s'
  end.

(** No character of the string is a dot. *)
Fixpoint no_dot (s : string) : bool :=
  match s with
  | EmptyString => true
  | String c s' => negb (Ascii.eqb c ".") && no_dot s'
  end.

(** The row's ['row_id'], when it has one, is an [int] (a [bool] is one). *)
Definition int_row_id (row : Row) : bool :=
  match dict_get (data row) "row_id" with
  | None | Some (VInt _) | Some (VBool _) => true
  | _ => false
  end.

(** The counter [load_from_disk] arrives at over rows with integer ids,
    starting from [next]. *)
Fixpoint next_after (rows_data : list dict) (next : Z) : Z :=
  match rows_data with
  | [] => next
  | row_data :: rest =>
      match dict_get row_data "row_id" with
      | Some (VInt n) => next_after rest (if n >=? next then n + 1 else next)
      | Some (VBool b) => next_after rest (if Z.b2z b >=? next then Z.b2z b + 1 else next)
      | _ => next_after rest next
      end
  end.

(** The table as [load_from_disk] rebuilds it from its two files. *)
Definition reloaded (t : Table) : Table :=
  mkTable (schema t) (rows t) (next_after (map data (rows t)) 1).

(** The same table names, and for each the same schema and the same rows. *)
Definition reproduces (tables loaded : gmap string Table) : Prop :=
  forall name,
    match tables !! name, loaded !! name with
    | Some t, Some t' => schema t' = schema t /\ rows t' = rows t
    | None, None => True
    | _, _ => False
    end.

(** The round trip through the directory [fs], into a new engine. *)
Definition round_trip (tables : gmap string Table) (fs : gmap string Document) : Prop :=
  exists loaded,
    StorageEngine.init (StorageEngine.save_to_disk tables fs) = Ok loaded /\
    reproduces tables loaded.

(** Every schema file of the directory belongs to a table of the engine. *)
Definition owned_schema_files (tables : gmap string Table) (fs : gmap string Document) : Prop :=
  forall f doc,
    fs !! f = Some doc -> StorageEngine.endswith f "_schema.json" = true ->
    exists name, f = StorageEngine.schema_file name /\ is_Some (tables !! name).

(** The states the round trip is proved for. *)
Definition well_named (tables : gmap string Table) : Prop :=
  forall name t, tables !! name = Some t -> is_identifier name = true.

Definition integer_row_ids (tables : gmap string Table) : Prop :=
  forall name t, tables !! name = Some t -> forallb int_row_id (rows t) = true.

(** A table whose one column is called [row_id], and one row in it. *)
Definition row_id_column_db : Database :=
  let db0 := fst (DatabaseOps.create_table Scenario.empty_db
                    (mkTableSchema "t" [mkColumn "row_id" TEXT []] None)) in
  fst (DatabaseOps._execute_insert db0 "t" [VStr "x"]).

End PersistSpec.

Module RowIdSpec.

(** The operations on a table. *)
Inductive TableOp : Type :=
  | OpInsert (row : Row)
  | OpUpdate (assignments : dict) (where_clause : option Condition)
  | OpDelete (where_clause : option Condition).

(** The id the counter gave in a call of [insert]: the ['row_id'] the call
    wrote into a row that came without one. *)
Definition assigned (row row' : Row) : list Z :=
  if dict_contains (data row) "row_id" then []
  else match dict_get (data row') "row_id" with
       | Some (VInt n) => [n]
       | _ => []
       end.

(** One operation: the table after it, whether it raised or not, and the
    id it assigned. *)
Definition step (t : Table) (op : TableOp) : Table * list Z :=
  match op with
  | OpInsert row =>
      let '(t', row', _) := TableOps.insert t row in (t', assigned row row')
  | OpUpdate assignments where_clause =>
      (fst (TableOps.update t assignments where_clause), [])
  | OpDelete where_clause => (fst (TableOps.delete t where_clause), [])
  end.

(** A sequence of operations: the final table and the ids assigned, in
    the order of assignment. *)
Fixpoint run (t : Table) (ops : list TableOp) : Table * list Z :=
  match ops with
  | [] => (t, [])
  | op :: rest =>
      let '(t1, ids1) := step t op in
      let '(t2, ids2) := run t1 rest in
      (t2, ids1 ++ ids2)
  end.

(** The integer a stored row id stands for. *)
Definition int_value (v : PyVal) : option Z :=
  match v with
  | VInt n => Some n
  | VBool b => Some (Z.b2z b)
  | _ => None
  end.

Definition row_id_of (row : Row) : option Z :=
  match dict_get (data row) "row_id" with
  | Some v => int_value v
  | None => None
  end.

(** Every row id stored in the directory is an integer (a [bool] is
    one). *)
Definition integer_files (fs : gmap string Document) : Prop :=
  forall f rows_data,
    fs !! f = Some (RowsDoc rows_data) ->
    forallb (fun d => PersistSpec.int_row_id (mkRow d)) rows_data = true.

(** Every integer row id in the table is below [c]. *)
Definition bounded (t : Table) (c : Z) : Prop :=
  forall row n, In row (rows t) -> row_id_of row = Some n -> n < c.

(** [c] is 1, or one more than the row id of a row of the table. *)
Definition restored (t : Table) (c : Z) : Prop :=
  c = 1 \/
  exists row n, In row (rows t) /\ row_id_of row = Some n /\ c = n + 1.

(** The counter of the table is an integer, at least 1, above every row
    id of the table, and 1 or one more than one of them. *)
Definition counter_restored (t : Table) : Prop :=
  exists c, next_row_id t = CInt c /\ bounded t c /\ 1 <= c /\ restored t c.

(** Three users, the last one deleted, and the engine started again on
    the directory. *)
Definition three_users : Database :=
  let db1 := fst (DatabaseOps._execute_insert Scenario.users_db "users" [VInt 1; VStr "a"]) in
  let db2 := fst (DatabaseOps._execute_insert db1 "users" [VInt 2; VStr "b"]) in
  db2.

Definition third_insert : Database * result (list dict) :=
  DatabaseOps._execute_insert three_users "users" [VInt 3; VStr "c"].

Definition after_delete : Database * result (list dict) :=
  DatabaseOps._execute_delete (fst third_insert) "users"
    (Some (mkCondition (ColRef "id") "=" (Lit (VInt 3)))).

Definition restarted : result Database := DatabaseOps.new (files (fst after_delete)).

(** A row id of 2^53 written by an UPDATE, and the engine started again on
    the directory. *)
Definition float_id : Database :=
  let db1 := fst (DatabaseOps._execute_insert Scenario.users_db "users" [VInt 1; VStr "a"]) in
  fst (DatabaseOps._execute_update db1 "users"
         [("row_id", VFloat (inject_Z (2 ^ 53)))] None).

Definition float_restarted : result Database := DatabaseOps.new (files float_id).

End RowIdSpec.

(** ** Notions for the further properties *)

Module TableInv.

(** No row collides on the column with a row stored after it: the values,
    where both rows have one, are not [==]. *)
Definition unique_on (name : string) (rs : list Row) : Prop :=
  forall (i j : nat) (ri rj : Row) (vi vj : PyVal),
    (i < j)%nat -> rs !! i = Some ri -> rs !! j = Some rj ->
    dict_get (data ri) name = Some vi -> dict_get (data rj) name = Some vj ->
    py_eq vi vj = false.

(** The same for every UNIQUE or PRIMARY_KEY column of the table. *)
Definition unique_rows (t : Table) : Prop :=
  forall col, In col (columns (schema t)) -> Spec.unique_column col = true ->
              unique_on (col_name col) (rows t).

(** The row has an entry for every NOT_NULL column. *)
Definition required_present (s : TableSchema) (row : Row) : Prop :=
  forall col, In col (columns s) -> has_constraint NOT_NULL (col_constraints col) = true ->
              dict_contains (data row) (col_name col) = true.

Definition not_null_rows (t : Table) : Prop :=
  Forall (required_present (schema t)) (rows t).

(** [k in cols] *)
Definition mentions (cols : list string) (k : string) : bool := existsb (String.eqb k) cols.

End TableInv.

Module OrderSpec.

Import BTree.

(** The order seen from the other side. *)
Definition flip (o : Order) : Order :=
  match o with LT => GT | EQ => EQ | GT => LT end.

Definition of_comparison (c : comparison) : Order :=
  match c with Lt => LT | Eq => EQ | Gt => GT end.

End OrderSpec.

Module IndexInv.

(** The index name is in the list kept for the table. *)
Definition listed_under (im : IndexManager) (table_name index_name : string) : Prop :=
  In index_name (IndexManagerOps.get_table_indexes im table_name).

(** No list names an index twice; the names listed are those of the
    indexes that exist; and an index is listed under one table. *)
Definition well_formed (im : IndexManager) : Prop :=
  (forall t, NoDup (IndexManagerOps.get_table_indexes im t)) /\
  (forall t n, listed_under im t n -> is_Some (indexes im !! n)) /\
  (forall n, is_Some (indexes im !! n) -> exists t, listed_under im t n) /\
  (forall t t' n, listed_under im t n -> listed_under im t' n -> t = t').

(** The calls that change an index manager. *)
Inductive IndexOp : Type :=
| OpCreate (index_name table_name column_name : string)
| OpDrop (index_name : string)
| OpInsertRow (table_name : string) (row_data : dict) (row_id : PyVal)
| OpDeleteRow (table_name : string) (row_data : dict) (row_id : PyVal).

(** The index manager after the call, whether it returned or raised. *)
Definition step (im : IndexManager) (op : IndexOp) : IndexManager :=
  match op with
  | OpCreate index_name table_name column_name =>
      fst (IndexManagerOps.create_index im index_name table_name column_name)
  | OpDrop index_name => fst (IndexManagerOps.drop_index im index_name)
  | OpInsertRow table_name row_data row_id =>
      fst (IndexManagerOps.insert_into_indexes im table_name row_data row_id)
  | OpDeleteRow table_name row_data row_id =>
      fst (IndexManagerOps.delete_from_indexes im table_name row_data row_id)
  end.

Definition run (im : IndexManager) (ops : list IndexOp) : IndexManager :=
  fold_left step ops im.

End IndexInv.

Module StatementSpec.

(** The statements that change a database. *)
Inductive Statement : Type :=
| Insert (table : string) (values : list PyVal)
| Update (table : string) (assignments : list (string * PyVal))
         (where_clause : option Condition)
| Delete (table : string) (where_clause : option Condition)
| CreateIndex (index_name table_name column_name : string)
| CreateTable (s : TableSchema).

(** Whether the call returned or raised, without what it returned. *)
Definition outcome {A} (r : result A) : result unit :=
  match r with
  | Ok _ => Ok tt
  | Raise e => Raise e
  end.

(** The database after the statement, and how the statement ended. *)
Definition execute (db : Database) (stmt : Statement) : Database * result unit :=
  match stmt with
  | Insert table values =>
      let '(db', r) := DatabaseOps._execute_insert db table values in (db', outcome r)
  | Update table assignments where_clause =>
      let '(db', r) := DatabaseOps._execute_update db table assignments where_clause in
      (db', outcome r)
  | Delete table where_clause =>
      let '(db', r) := DatabaseOps._execute_delete db table where_clause in (db', outcome r)
  | CreateIndex index_name table_name column_name =>
      let '(db', r) :=
        DatabaseOps._execute_create_index db index_name table_name column_name in
      (db', outcome r)
  | CreateTable s => DatabaseOps.create_table db s
  end.

Definition execute_all (db : Database) (stmts : list Statement) : Database :=
  fold_left (fun db stmt => fst (execute db stmt)) stmts db.

(** The statements that end with [save_to_disk]. *)
Definition saves (stmt : Statement) : bool :=
  match stmt with
  | CreateIndex _ _ _ => false
  | _ => true
  end.

Definition no_row_id_column (s : TableSchema) : bool :=
  forallb (fun col => negb (String.eqb (col_name col) "row_id")) (columns s).

(** Tables are named by identifiers, and nothing but the engine writes
    the key ['row_id'] of a row: no column has that name and no
    assignment is to it. *)
Definition admissible (stmt : Statement) : bool :=
  match stmt with
  | CreateTable s => PersistSpec.is_identifier (schema_name s) && no_row_id_column s
  | Update _ assignments _ =>
      forallb (fun kv => negb (String.eqb (fst kv) "row_id")) assignments
  | _ => true
  end.

(** What such statements keep of the registry and the directory. *)
Definition ok (tables : gmap string Table) (fs : gmap string Document) : Prop :=
  PersistSpec.well_named tables /\
  PersistSpec.integer_row_ids tables /\
  PersistSpec.owned_schema_files tables fs /\
  (forall n t, tables !! n = Some t -> no_row_id_column (schema t) = true) /\
  (forall n t, tables !! n = Some t -> exists c : Z, next_row_id t = CInt c).

End StatementSpec.

Module RangeSpec.

(** [lo <= k <= hi], where Python can compare them. *)
Definition between (lo hi k : PyVal) : bool :=
  match py_le lo k, py_le k hi with
  | Ok true, Ok true => true
  | _, _ => false
  end.

(** The (key, value) pairs of a node whose key is in the range. *)
Definition entries_between (lo hi : PyVal) (node : BTree.Slot) : list (PyVal * PyVal) :=
  List.filter (fun kv => between lo hi (fst kv)) (BTreeSpec.entries node).

(** The slot of a leaf holds a list of values or [None], not a node. *)
Definition holds_values (c : BTree.Slot) : bool :=
  match c with
  | BTree.SNode _ _ _ => false
  | _ => true
  end.

End RangeSpec.

(** * Properties *)

(** ** Dictionaries and results *)

Lemma dict_get_set (d : dict) (k k' : string) (v : PyVal) :
  dict_get (dict_set d k v) k' = if String.eqb k k' then Some v else dict_get d k'.
Proof.
  induction d as [|[k0 v0] d IH]; simpl.
  - reflexivity.
  - destruct (String.eqb_spec k0 k) as [->|Hne]; simpl.
    + destruct (String.eqb k k'); reflexivity.
    + rewrite IH. destruct (String.eqb_spec k0 k') as [->|Hne'].
      * destruct (String.eqb_spec k k'); [congruence | reflexivity].
      * reflexivity.
Qed.

Lemma dict_get_set_eq (d : dict) (k : string) (v : PyVal) :
  dict_get (dict_set d k v) k = Some v.
Proof. rewrite dict_get_set, String.eqb_refl. reflexivity. Qed.

Lemma dict_get_set_ne (d : dict) (k k' : string) (v : PyVal) :
  k <> k' -> dict_get (dict_set d k v) k' = dict_get d k'.
Proof.
  intros Hne. rewrite dict_get_set.
  destruct (String.eqb_spec k k'); [contradiction | reflexivity].
Qed.

Lemma dict_contains_get (d : dict) (k : string) (v : PyVal) :
  dict_get d k = Some v -> dict_contains d k = true.
Proof. unfold dict_contains. intros ->. reflexivity. Qed.

(** ** Validation and the uniqueness check raise constraint violations only *)

Lemma check_required_error (cols : list Column) (row : Row) (e : PyError) :
  Schema.check_required cols row = Raise e -> Spec.constraint_violation e = true.
Proof.
  induction cols as [|col cols IH]; simpl; [discriminate|].
  destruct (_ && _); [intros [= <-]; reflexivity | exact IH].
Qed.

Lemma check_types_error (s : TableSchema) (items : dict) (e : PyError) :
  Schema.check_types s items = Raise e -> Spec.constraint_violation e = true.
Proof.
  induction items as [|[k v] items IH]; simpl; [discriminate|].
  destruct (Schema.get_column s k) as [col|]; [|exact IH].
  destruct (Schema._validate_type v (col_data_type col)); [exact IH|].
  intros [= <-]. reflexivity.
Qed.

Lemma validate_row_error (s : TableSchema) (row : Row) (e : PyError) :
  Schema.validate_row s row = Raise e -> Spec.constraint_violation e = true.
Proof.
  unfold Schema.validate_row.
  destruct (Schema.check_required (columns s) row) eqn:Hreq; simpl.
  - destruct (Schema.check_types s (data row)) eqn:Hty; simpl; [discriminate|].
    intros [= <-]. eapply check_types_error, Hty.
  - intros [= <-]. eapply check_required_error, Hreq.
Qed.


Lemma check_unique_column_error (name : string) (v : PyVal) (existing : list Row) (e : PyError) :
  TableOps.check_unique_column name v existing = Raise e ->
  e = ValueError (DuplicateValue name).
Proof.
  induction existing as [|r rs IH]; simpl; [discriminate|].
  destruct (dict_get (data r) name) as [w|]; [|exact IH].
  destruct (py_eq w v); [intros [= <-]; reflexivity | exact IH].
Qed.

Lemma check_unique_column_collision (name : string) (v w : PyVal) (existing : list Row) (r : Row) :
  In r existing -> dict_get (data r) name = Some w -> py_eq w v = true ->
  TableOps.check_unique_column name v existing = Raise (ValueError (DuplicateValue name)).
Proof.
  intros Hin Hget Heq. induction existing as [|r0 rs IH]; simpl; [destruct Hin|].
  destruct Hin as [->|Hin].
  - rewrite Hget, Heq. reflexivity.
  - destruct (dict_get (data r0) name) as [w0|]; [|exact (IH Hin)].
    destruct (py_eq w0 v); [reflexivity | exact (IH Hin)].
Qed.


Lemma check_unique_columns_collision (cols : list Column) (existing : list Row) (new_row : Row)
    (col : Column) (r : Row) (v w : PyVal) :
  In col cols -> Spec.unique_column col = true ->
  dict_get (data new_row) (col_name col) = Some v ->
  In r existing -> dict_get (data r) (col_name col) = Some w -> py_eq w v = true ->
  exists c, TableOps.check_unique_columns cols existing new_row
            = Raise (ValueError (DuplicateValue c)).
Proof.
  intros Hin Hu Hnew Hr Hold Heq.
  induction cols as [|col0 cols IH]; simpl; [destruct Hin|].
  destruct Hin as [->|Hin].
  - unfold Spec.unique_column in Hu. rewrite Hu, Hnew.
    rewrite (check_unique_column_collision _ _ _ _ _ Hr Hold Heq). simpl. eauto.
  - destruct (_ || _); [|exact (IH Hin)].
    destruct (dict_get (data new_row) (col_name col0)) as [v0|]; [|exact (IH Hin)].
    destruct (TableOps.check_unique_column (col_name col0) v0 existing) eqn:Hc; simpl.
    + exact (IH Hin).
    + apply check_unique_column_error in Hc. subst. eauto.
Qed.

(** ** Table.insert *)

Lemma assign_row_id_get (t : Table) (row : Row) (name : string) (v : PyVal) :
  dict_get (data row) name = Some v ->
  dict_get (data (snd (TableOps.assign_row_id t row))) name = Some v.
Proof.
  intros Hget. unfold TableOps.assign_row_id.
  destruct (dict_contains (data row) "row_id") eqn:Hc; simpl; [exact Hget|].
  rewrite dict_get_set_ne; [exact Hget|].
  intros <-. unfold dict_contains in Hc. rewrite Hget in Hc. discriminate.
Qed.

Lemma assign_row_id_frame (t : Table) (row : Row) :
  schema (fst (TableOps.assign_row_id t row)) = schema t /\
  rows (fst (TableOps.assign_row_id t row)) = rows t.
Proof.
  unfold TableOps.assign_row_id.
  destruct (dict_contains (data row) "row_id"); simpl; auto.
Qed.

(** C4. A row whose value on a PRIMARY_KEY or UNIQUE column equals a
    non-null value that a stored row holds on that column is rejected by
    [Table.insert] with a constraint violation and is not appended. In the
    scenario [users(id INT PRIMARY KEY, name TEXT NOT NULL)], INSERT (1,'a')
    succeeds with row id 1, INSERT (1,'b') raises the duplicate-value
    error, and the table holds exactly one row afterwards. *)
Theorem unique_insert_rejected (t : Table) (row existing : Row) (col : Column) (v w : PyVal) :
  In col (columns (schema t)) ->
  Spec.unique_column col = true ->
  In existing (rows t) ->
  dict_get (data existing) (col_name col) = Some w ->
  w <> VNone ->
  dict_get (data row) (col_name col) = Some v ->
  py_eq w v = true ->
  (exists t' row' e,
      TableOps.insert t row = (t', row', Raise e) /\
      Spec.constraint_violation e = true /\
      rows t' = rows t)
  /\
  (let '(db1, r1) :=
     DatabaseOps._execute_insert Scenario.users_db "users" [VInt 1; VStr "a"] in
   let '(db2, r2) := DatabaseOps._execute_insert db1 "users" [VInt 1; VStr "b"] in
   r1 = Ok [[("affected_rows", VInt 1); ("row_id", VInt 1)]] /\
   r2 = Raise (ValueError (DuplicateValue "id")) /\
   Scenario.row_count db1 "users" = Some 1%nat /\
   Scenario.row_count db2 "users" = Some 1%nat).
Proof.
  intros Hcol Huniq Hin Hold Hnonnull Hnew Heq. split.
  - unfold TableOps.insert.
    destruct (Schema.validate_row (schema t) row) as [b|e] eqn:Hval.
    + destruct (TableOps.assign_row_id t row) as [t1 row1] eqn:Hassign.
      pose proof (assign_row_id_get t row _ _ Hnew) as Hnew1.
      pose proof (assign_row_id_frame t row) as [Hs Hr].
      rewrite Hassign in Hnew1, Hs, Hr. simpl in Hnew1, Hs, Hr.
      unfold TableOps._check_unique_constraints. rewrite Hs, Hr.
      destruct (check_unique_columns_collision (columns (schema t)) (rows t) row1
                  col existing v w Hcol Huniq Hnew1 Hin Hold Heq) as [c Hc].
      rewrite Hc. exists t1, row1, (ValueError (DuplicateValue c)). auto.
    + exists t, row, e. split; [reflexivity|]. split; [|reflexivity].
      eapply validate_row_error, Hval.
  - vm_compute. auto.
Qed.

Lemma unique_insert_rejected_witness :
  let t := mkTable Scenario.users_schema
             [mkRow [("id", VInt 1); ("name", VStr "a"); ("row_id", VInt 1)]] 2 in
  exists t' row' e,
    TableOps.insert t (mkRow [("id", VInt 1); ("name", VStr "b")]) = (t', row', Raise e) /\
    Spec.constraint_violation e = true /\
    rows t' = rows t.
Proof.
  refine (proj1 (unique_insert_rejected _ _
            (mkRow [("id", VInt 1); ("name", VStr "a"); ("row_id", VInt 1)])
            (mkColumn "id" INT [PRIMARY_KEY]) (VInt 1) (VInt 1) _ _ _ _ _ _ _)).
  - simpl. left. reflexivity.
  - reflexivity.
  - simpl. left. reflexivity.
  - reflexivity.
  - discriminate.
  - reflexivity.
  - reflexivity.
Defined.





(** ** Table.update *)

Lemma py_order_raises (a b : PyVal) (e : PyError) :
  py_order a b = Raise e -> e = TypeError.
Proof.
  unfold py_order. destruct (num_of a), (num_of b); try discriminate;
    try (intros [= <-]; reflexivity).
  destruct a, b; try discriminate; intros [= <-]; reflexivity.
Qed.

Lemma operand_value_operand (row : Row) (o : Operand) :
  TableOps.operand_value row o = UpdateSpec.operand row o.
Proof. destruct o; reflexivity. Qed.

(** On the six operators the code's test of a row is the predicate: its
    truth value where the comparison is defined, [TypeError] where it is
    not. *)
Lemma selected_addressed (where_clause : option Condition) (row : Row) :
  UpdateSpec.well_formed where_clause ->
  TableOps.selected where_clause row
  = match UpdateSpec.addressed where_clause row with
    | Some b => Ok b
    | None => Raise TypeError
    end.
Proof.
  destruct where_clause as [c|]; [|reflexivity].
  cbn [UpdateSpec.well_formed UpdateSpec.addressed TableOps.selected].
  unfold TableOps._matches_condition, UpdateSpec.holds.
  rewrite !operand_value_operand.
  unfold py_ne, py_gt, py_lt, py_ge, py_le.
  intros Hop.
  destruct (py_order _ _) as [o|e] eqn:Ho;
    [|apply py_order_raises in Ho; subst e];
    repeat (destruct Hop as [<-|Hop]; [reflexivity|]); destruct Hop.
Qed.

Lemma apply_assignments_assign (assignments : dict) (row : Row) :
  TableOps.apply_assignments assignments row = UpdateSpec.assign assignments row.
Proof.
  unfold TableOps.apply_assignments, UpdateSpec.assign.
  revert row. induction assignments as [|[k v] rest IH]; intros [d]; simpl; [reflexivity|].
  rewrite IH. reflexivity.
Qed.

Section UpdateLoop.

Variables (s : TableSchema) (assignments : dict) (where_clause : option Condition).

Hypothesis Hwhere : UpdateSpec.well_formed where_clause.

Local Abbreviation rewritten := (UpdateSpec.rewritten assignments where_clause).
Local Abbreviation completes := (UpdateSpec.completes s assignments where_clause).

(** One round of the loop on a row the statement gets past. *)
Lemma update_loop_step (row : Row) (rest : list Row) (count : Z) :
  completes row ->
  TableOps.update_loop s assignments where_clause (row :: rest) count
  = let '(rest', r) :=
      TableOps.update_loop s assignments where_clause rest
        (count + UpdateSpec.count where_clause [row]) in
    (rewritten row :: rest', r).
Proof.
  intros [b [Hsel Hval]]. cbn [TableOps.update_loop].
  rewrite (selected_addressed _ _ Hwhere), apply_assignments_assign.
  unfold UpdateSpec.rewritten, UpdateSpec.count. cbn [List.filter]. rewrite Hsel.
  destruct b.
  - specialize (Hval eq_refl).
    destruct (Schema.validate_row s _); [|discriminate]. reflexivity.
  - rewrite Z.add_0_r. reflexivity.
Qed.

Lemma count_cons (row : Row) (rest : list Row) :
  UpdateSpec.count where_clause (row :: rest)
  = UpdateSpec.count where_clause [row] + UpdateSpec.count where_clause rest.
Proof.
  unfold UpdateSpec.count. cbn [List.filter].
  destruct (UpdateSpec.addressed where_clause row) as [[|]|]; cbn [length]; lia.
Qed.

Lemma update_loop_ok (todo : list Row) (count : Z) :
  Forall completes todo ->
  TableOps.update_loop s assignments where_clause todo count
  = (map rewritten todo, Ok (count + UpdateSpec.count where_clause todo)).
Proof.
  intros Hall. revert count.
  induction Hall as [|row rest Hrow _ IH]; intros count.
  - cbn. rewrite Z.add_0_r. reflexivity.
  - rewrite (update_loop_step _ _ _ Hrow), IH, (count_cons row rest), Z.add_assoc.
    reflexivity.
Qed.

Lemma update_loop_prefix (pre rest rest' : list Row) (e : PyError) :
  Forall completes pre ->
  (forall count, TableOps.update_loop s assignments where_clause rest count = (rest', Raise e)) ->
  forall count,
    TableOps.update_loop s assignments where_clause (pre ++ rest) count
    = (map rewritten pre ++ rest', Raise e).
Proof.
  intros Hall Hrest.
  induction Hall as [|row pre Hrow _ IH]; intros count; [apply Hrest|].
  rewrite <- app_comm_cons, (update_loop_step _ _ _ Hrow), IH. reflexivity.
Qed.

Lemma update_loop_invalid (pre post : list Row) (row : Row) (e : PyError) (count : Z) :
  Forall completes pre ->
  UpdateSpec.invalid s assignments where_clause row e ->
  TableOps.update_loop s assignments where_clause (pre ++ row :: post) count
  = (map rewritten pre ++ UpdateSpec.assign assignments row :: post, Raise e).
Proof.
  intros Hall [Hsel Hval]. apply update_loop_prefix; [exact Hall|].
  intros count'. cbn [TableOps.update_loop].
  rewrite (selected_addressed _ _ Hwhere), Hsel, apply_assignments_assign, Hval.
  reflexivity.
Qed.

Lemma update_loop_undefined (pre post : list Row) (row : Row) (count : Z) :
  Forall completes pre ->
  UpdateSpec.addressed where_clause row = None ->
  TableOps.update_loop s assignments where_clause (pre ++ row :: post) count
  = (map rewritten pre ++ row :: post, Raise TypeError).
Proof.
  intros Hall Hsel. apply update_loop_prefix; [exact Hall|].
  intros count'. cbn [TableOps.update_loop].
  rewrite (selected_addressed _ _ Hwhere), Hsel. reflexivity.
Qed.

(** The rows are all got past, or there is a first one that is not. *)
Lemma first_failure (todo : list Row) :
  Forall completes todo \/
  exists pre row post,
    todo = pre ++ row :: post /\ Forall completes pre /\
    ((exists e, UpdateSpec.invalid s assignments where_clause row e) \/
     UpdateSpec.addressed where_clause row = None).
Proof.
  induction todo as [|row rest IH]; [left; constructor|].
  destruct (UpdateSpec.addressed where_clause row) as [b|] eqn:Hsel.
  - destruct (Schema.validate_row s (UpdateSpec.assign assignments row)) as [u|e] eqn:Hval.
    + assert (Hrow : completes row)
        by (exists b; split; [exact Hsel | intros _; rewrite Hval; reflexivity]).
      destruct IH as [Hall|(pre & row' & post & -> & Hpre & Hfail)].
      * left. constructor; assumption.
      * right. exists (row :: pre), row', post. repeat split; try assumption.
        constructor; assumption.
    + destruct b.
      * right. exists [], row, rest. repeat split; [constructor|].
        left. exists e. split; assumption.
      * assert (Hrow : completes row)
          by (exists false; split; [exact Hsel | discriminate]).
        destruct IH as [Hall|(pre & row' & post & -> & Hpre & Hfail)].
        -- left. constructor; assumption.
        -- right. exists (row :: pre), row', post. repeat split; try assumption.
           constructor; assumption.
  - right. exists [], row, rest. repeat split; [constructor|]. right. exact Hsel.
Qed.

End UpdateLoop.

(** A statement that fails no validation and raises: the second row has
    no value in the column the predicate orders. *)
Lemma update_undefined_comparison :
  let s := mkTableSchema "t" [mkColumn "a" INT []; mkColumn "b" INT []] None in
  let t := mkTable s [mkRow [("a", VInt 1); ("b", VInt 1); ("row_id", VInt 1)];
                      mkRow [("a", VInt 2); ("row_id", VInt 2)]] 3 in
  let w := Some (mkCondition (ColRef "b") ">" (Lit (VInt 0))) in
  UpdateSpec.well_formed w
  /\ Forall (fun row => is_ok (Schema.validate_row s (UpdateSpec.assign [("a", VInt 5)] row))
                        = true) (rows t)
  /\ TableOps.update t [("a", VInt 5)] w
     = (mkTable s [mkRow [("a", VInt 5); ("b", VInt 1); ("row_id", VInt 1)];
                   mkRow [("a", VInt 2); ("row_id", VInt 2)]] 3,
        Raise TypeError).
Proof.
  cbv zeta. split; [|split].
  - cbn. auto 10.
  - repeat (constructor; [reflexivity|]). constructor.
  - reflexivity.
Qed.

(** C7, the sentence as the specification has it, refuted: on a table
    (a INT, b INT) with the row (a = 1, b = 1) and then the row (a = 2)
    that has no b, the statement [UPDATE t SET a = 5 WHERE b > 0] fails no
    validation, and yet it returns no count: the comparison of [None] with
    0 raises [TypeError] on the second row, after the first row has been
    changed. *)
Lemma update_raises_without_validation_failure : ~ UpdateSpec.returns_count.
Proof.
  intros H.
  destruct update_undefined_comparison as (Hw & Hvalid & Hupdate).
  pose proof (H (mkTable (mkTableSchema "t" [mkColumn "a" INT []; mkColumn "b" INT []] None)
                   [mkRow [("a", VInt 1); ("b", VInt 1); ("row_id", VInt 1)];
                    mkRow [("a", VInt 2); ("row_id", VInt 2)]] 3)
                _ _ Hw Hvalid) as Hcount.
  cbv zeta in Hupdate. rewrite Hupdate in Hcount. discriminate Hcount.
Qed.

(** C7. [Table.update] with a predicate of the six operators, or with
    none, visits the rows in table order; it writes the assignments into
    each row the predicate holds of (into every row when there is no
    predicate) and validates the changed row. There are three outcomes,
    and every call has one of them. If the predicate is defined on every
    row and every validation passes, the call returns the number of rows it
    addressed, and each of these has the assignments written. If the first
    row to fail fails its validation, the call raises that error; the rows
    before it keep their new contents, as does the row that failed, and the
    rows after it are untouched: nothing is rolled back. If the first row
    to fail is one on which the comparison of the predicate is not defined,
    the call raises [TypeError] and returns no count, although no
    validation failed; the rows before it keep their new contents. *)
Theorem update_without_rollback (t : Table) (assignments : dict)
    (where_clause : option Condition) :
  UpdateSpec.well_formed where_clause ->
  (Forall (UpdateSpec.completes (schema t) assignments where_clause) (rows t) ->
   TableOps.update t assignments where_clause
   = (mkTable (schema t) (map (UpdateSpec.rewritten assignments where_clause) (rows t))
              (next_row_id t),
      Ok (UpdateSpec.count where_clause (rows t))))
  /\
  (forall (pre post : list Row) (row : Row) (e : PyError),
     rows t = pre ++ row :: post ->
     Forall (UpdateSpec.completes (schema t) assignments where_clause) pre ->
     UpdateSpec.invalid (schema t) assignments where_clause row e ->
     TableOps.update t assignments where_clause
     = (mkTable (schema t)
          (map (UpdateSpec.rewritten assignments where_clause) pre
           ++ UpdateSpec.assign assignments row :: post)
          (next_row_id t),
        Raise e))
  /\
  (forall (pre post : list Row) (row : Row),
     rows t = pre ++ row :: post ->
     Forall (UpdateSpec.completes (schema t) assignments where_clause) pre ->
     UpdateSpec.addressed where_clause row = None ->
     TableOps.update t assignments where_clause
     = (mkTable (schema t)
          (map (UpdateSpec.rewritten assignments where_clause) pre ++ row :: post)
          (next_row_id t),
        Raise TypeError))
  /\
  (Forall (UpdateSpec.completes (schema t) assignments where_clause) (rows t) \/
   exists (pre : list Row) (row : Row) (post : list Row),
     rows t = pre ++ row :: post /\
     Forall (UpdateSpec.completes (schema t) assignments where_clause) pre /\
     ((exists e, UpdateSpec.invalid (schema t) assignments where_clause row e) \/
      UpdateSpec.addressed where_clause row = None)).
Proof.
  intros Hwhere. refine (conj _ (conj _ (conj _ _))).
  - intros Hall. unfold TableOps.update.
    rewrite (update_loop_ok _ _ _ Hwhere) by exact Hall. reflexivity.
  - intros pre post row e Hrows Hall Hrow. unfold TableOps.update.
    rewrite Hrows, (update_loop_invalid _ _ _ Hwhere pre post row e 0 Hall Hrow).
    reflexivity.
  - intros pre post row Hrows Hall Hrow. unfold TableOps.update.
    rewrite Hrows, (update_loop_undefined _ _ _ Hwhere pre post row 0 Hall Hrow).
    reflexivity.
  - apply first_failure.
Qed.

Lemma update_without_rollback_witness :
  let s := mkTableSchema "t" [mkColumn "a" INT []; mkColumn "b" INT []] None in
  let t := mkTable s [mkRow [("a", VInt 1); ("row_id", VInt 1)];
                      mkRow [("a", VInt 2); ("row_id", VInt 2)];
                      mkRow [("a", VInt 3); ("b", VStr "x"); ("row_id", VInt 3)];
                      mkRow [("a", VInt 4); ("row_id", VInt 4)]] 5 in
  let w := Some (mkCondition (ColRef "a") ">=" (Lit (VInt 2))) in
  UpdateSpec.well_formed w
  /\ TableOps.update t [("a", VInt 9)] w
     = (mkTable s [mkRow [("a", VInt 1); ("row_id", VInt 1)];
                   mkRow [("a", VInt 9); ("row_id", VInt 2)];
                   mkRow [("a", VInt 9); ("b", VStr "x"); ("row_id", VInt 3)];
                   mkRow [("a", VInt 4); ("row_id", VInt 4)]] 5,
        Raise (ValueError (InvalidType "b")))
  /\ TableOps.update t [("b", VInt 0)] w
     = (mkTable s [mkRow [("a", VInt 1); ("row_id", VInt 1)];
                   mkRow [("a", VInt 2); ("row_id", VInt 2); ("b", VInt 0)];
                   mkRow [("a", VInt 3); ("b", VInt 0); ("row_id", VInt 3)];
                   mkRow [("a", VInt 4); ("row_id", VInt 4); ("b", VInt 0)]] 5,
        Ok 3).
Proof.
  cbv zeta.
  assert (Hw : UpdateSpec.well_formed
                 (Some (mkCondition (ColRef "a") ">=" (Lit (VInt 2)))))
    by (cbn; auto 10).
  split; [exact Hw|]. split.
  - refine (proj1 (proj2 (update_without_rollback
                   (mkTable (mkTableSchema "t" [mkColumn "a" INT []; mkColumn "b" INT []] None)
                      [mkRow [("a", VInt 1); ("row_id", VInt 1)];
                       mkRow [("a", VInt 2); ("row_id", VInt 2)];
                       mkRow [("a", VInt 3); ("b", VStr "x"); ("row_id", VInt 3)];
                       mkRow [("a", VInt 4); ("row_id", VInt 4)]] 5)
                   [("a", VInt 9)] _ Hw))
              [mkRow [("a", VInt 1); ("row_id", VInt 1)];
               mkRow [("a", VInt 2); ("row_id", VInt 2)]]
              [mkRow [("a", VInt 4); ("row_id", VInt 4)]]
              (mkRow [("a", VInt 3); ("b", VStr "x"); ("row_id", VInt 3)])
              (ValueError (InvalidType "b")) _ _ _).
    + reflexivity.
    + constructor; [|constructor; [|constructor]].
      * exists false. split; [reflexivity|discriminate].
      * exists true. split; reflexivity.
    + split; reflexivity.
  - refine (proj1 (update_without_rollback
                   (mkTable (mkTableSchema "t" [mkColumn "a" INT []; mkColumn "b" INT []] None)
                      [mkRow [("a", VInt 1); ("row_id", VInt 1)];
                       mkRow [("a", VInt 2); ("row_id", VInt 2)];
                       mkRow [("a", VInt 3); ("b", VStr "x"); ("row_id", VInt 3)];
                       mkRow [("a", VInt 4); ("row_id", VInt 4)]] 5)
                   [("b", VInt 0)] _ Hw) _).
    constructor; [|constructor; [|constructor; [|constructor; [|constructor]]]].
    + exists false. split; [reflexivity|discriminate].
    + exists true. split; reflexivity.
    + exists true. split; reflexivity.
    + exists true. split; reflexivity.
Defined.

(** ** Predicate evaluation *)

Lemma py_order_orderable (a b : PyVal) :
  PredicateSpec.orderable a b = true -> exists c, py_order a b = Ok c.
Proof. destruct a, b; simpl; try discriminate; eauto. Qed.

Lemma py_order_not_orderable (a b : PyVal) :
  PredicateSpec.orderable a b = false -> py_order a b = Raise TypeError.
Proof. destruct a, b; simpl; try discriminate; reflexivity. Qed.

Lemma unresolved_value (row : Row) (o : Operand) :
  PredicateSpec.unresolved row o = true -> TableOps.operand_value row o = VNone.
Proof.
  destruct o as [column|v]; simpl; [|discriminate].
  unfold dict_contains, RowOps.get.
  destruct (dict_get (data row) column); [discriminate | reflexivity].
Qed.

Lemma not_orderable_None_l (b : PyVal) : PredicateSpec.orderable VNone b = false.
Proof. destruct b; reflexivity. Qed.

Lemma not_orderable_None_r (a : PyVal) : PredicateSpec.orderable a VNone = false.
Proof. destruct a; reflexivity. Qed.

(** The three evaluators agree on the six operators. *)
Lemma evaluators_agree (eval : Row -> Condition -> result bool) (row : Row) (c : Condition) :
  In eval PredicateSpec.evaluators ->
  In (cond_operator c) PredicateSpec.six_operators ->
  eval row c = QueryExecutor._matches_condition row c.
Proof.
  intros Hev Hop. simpl in Hev.
  destruct Hev as [<-|[<-|[<-|[]]]]; try reflexivity.
  unfold TableOps._matches_condition, QueryExecutor._matches_condition.
  simpl in Hop.
  destruct Hop as [<-|[<-|[<-|[<-|[<-|[<-|[]]]]]]]; reflexivity.
Qed.

(** C9 (counterexample). On the row without columns, the condition
    [x = 1] evaluates to [False]: the reference does not resolve, and no
    error is raised. *)
Lemma equality_on_unresolved_column_returns :
  ~ PredicateSpec.fails_on_undefined QueryExecutor._matches_condition.
Proof.
  intros H.
  specialize (H (mkRow []) (mkCondition (ColRef "x") "=" (Lit (VInt 1)))).
  simpl in H. discriminate H; auto.
Qed.

(** C9 (amended). For each of the three evaluators: with an ordering
    operator (>, <, >=, <=) the evaluation raises TypeError whenever a
    column reference does not resolve against the row, or the two values
    are not both numbers (a boolean counts as the number 0 or 1) or both
    strings, and it returns a boolean otherwise; with = and != it never
    raises and returns the equality of the two values or its negation,
    where an unresolved reference reads as None. *)
Theorem predicate_errors (eval : Row -> Condition -> result bool) (row : Row) (c : Condition) :
  In eval PredicateSpec.evaluators ->
  let l := TableOps.operand_value row (cond_left c) in
  let r := TableOps.operand_value row (cond_right c) in
  (In (cond_operator c) PredicateSpec.ordering_operators ->
   PredicateSpec.unresolved row (cond_left c)
   || PredicateSpec.unresolved row (cond_right c)
   || negb (PredicateSpec.orderable l r) = true ->
   eval row c = Raise TypeError)
  /\
  (In (cond_operator c) PredicateSpec.ordering_operators ->
   PredicateSpec.orderable l r = true ->
   exists b, eval row c = Ok b)
  /\
  (cond_operator c = "=" -> eval row c = Ok (py_eq l r))
  /\
  (cond_operator c = "!=" -> eval row c = Ok (negb (py_eq l r))).
Proof.
  intros Hev l r.
  assert (Hsix : forall op, In op PredicateSpec.ordering_operators ->
                            In op PredicateSpec.six_operators)
    by (simpl; intuition).
  repeat split.
  - intros Hop Hbad.
    rewrite (evaluators_agree eval row c Hev (Hsix _ Hop)).
    assert (Hno : PredicateSpec.orderable l r = false).
    { apply orb_true_iff in Hbad as [Hbad|Hbad].
      - apply orb_true_iff in Hbad as [Hu|Hu]; apply unresolved_value in Hu.
        + subst l. rewrite Hu. apply not_orderable_None_l.
        + subst r. rewrite Hu. apply not_orderable_None_r.
      - apply negb_true_iff, Hbad. }
    apply py_order_not_orderable in Hno.
    unfold QueryExecutor._matches_condition, py_gt, py_lt, py_ge, py_le.
    fold l r. rewrite Hno. simpl in Hop.
    destruct Hop as [<-|[<-|[<-|[<-|[]]]]]; reflexivity.
  - intros Hop Hord.
    rewrite (evaluators_agree eval row c Hev (Hsix _ Hop)).
    destruct (py_order_orderable l r Hord) as [o Ho].
    unfold QueryExecutor._matches_condition, py_gt, py_lt, py_ge, py_le.
    fold l r. rewrite Ho. simpl in Hop.
    destruct Hop as [<-|[<-|[<-|[<-|[]]]]]; simpl; eauto.
  - intros Hop.
    rewrite (evaluators_agree eval row c Hev) by (rewrite Hop; simpl; auto).
    unfold QueryExecutor._matches_condition. rewrite Hop. reflexivity.
  - intros Hop.
    rewrite (evaluators_agree eval row c Hev) by (rewrite Hop; simpl; auto).
    unfold QueryExecutor._matches_condition. rewrite Hop. reflexivity.
Qed.

Lemma predicate_errors_witness :
  let row := mkRow [("age", VInt 30); ("row_id", VInt 1)] in
  TableOps._matches_condition row (mkCondition (ColRef "name") ">" (Lit (VStr "a")))
  = Raise TypeError.
Proof.
  refine (proj1 (predicate_errors TableOps._matches_condition
                   (mkRow [("age", VInt 30); ("row_id", VInt 1)])
                   (mkCondition (ColRef "name") ">" (Lit (VStr "a"))) _) _ _).
  - simpl. left. reflexivity.
  - simpl. left. reflexivity.
  - reflexivity.
Defined.

(** ** The join *)

Lemma select_all (t : Table) : TableOps.select t None = rows t.
Proof.
  unfold TableOps.select. induction (rows t) as [|[d] rs IH]; simpl; [reflexivity|].
  rewrite IH. reflexivity.
Qed.










Section Merge.

Variable name : string.

Local Abbreviation step :=
  (fun (merged_data : dict) (kv : string * PyVal) =>
     if String.eqb (fst kv) "row_id" then merged_data
     else dict_set merged_data (name +:+ "_" +:+ fst kv) (snd kv)).



End Merge.

(** ** The rows a SELECT gives to the join *)

















(** ** The recursion bound of the insertion is never reached *)

#[local] Arguments BTree._compare_keys : simpl never.

Section Fuel.

Import BTree BTreeSpec.

Lemma height_node (ks : list PyVal) (cs : list Slot) (leaf : bool) :
  height (SNode ks cs leaf) = S (max_height cs).
Proof. reflexivity. Qed.

Lemma max_height_In (cs : list Slot) (c : Slot) :
  In c cs -> (height c <= max_height cs)%nat.
Proof.
  induction cs as [|c0 cs IH]; simpl; [intros []|].
  intros [->|Hin]; [lia | specialize (IH Hin); lia].
Qed.

Lemma max_height_le (cs : list Slot) (n : nat) :
  (forall c, In c cs -> (height c <= n)%nat) -> (max_height cs <= n)%nat.
Proof.
  induction cs as [|c0 cs IH]; simpl; intros H; [lia|].
  pose proof (H c0 (or_introl eq_refl)).
  assert (max_height cs <= n)%nat by (apply IH; intros c Hc; apply H; auto).
  lia.
Qed.

Lemma max_height_lookup (cs : list Slot) (i : nat) (c : Slot) :
  cs !! i = Some c -> (height c <= max_height cs)%nat.
Proof.
  intros H. apply max_height_In, list_elem_of_In, list_elem_of_lookup. eauto.
Qed.

Lemma In_take {A} (n : nat) (l : list A) (x : A) : In x (take n l) -> In x l.
Proof. intros H. rewrite <- (take_drop n l). apply in_or_app. auto. Qed.

Lemma In_drop {A} (n : nat) (l : list A) (x : A) : In x (drop n l) -> In x l.
Proof. intros H. rewrite <- (take_drop n l). apply in_or_app. auto. Qed.

Lemma In_list_insert_at {A} (i : nat) (x y : A) (l : list A) :
  In y (list_insert_at i x l) -> y = x \/ In y l.
Proof.
  unfold list_insert_at. intros H. apply in_app_or in H as [H|[H|H]]; eauto using In_take, In_drop.
Qed.

Lemma In_list_update {A} (i : nat) (x y : A) (l : list A) :
  In y (<[i := x]> l) -> y = x \/ In y l.
Proof.
  revert i. induction l as [|a l IH]; intros [|i]; simpl; try tauto.
  - intros [H|H]; auto.
  - intros [H|H]; [auto|]. destruct (IH i H); auto.
Qed.

(** A split does not make the parent higher. *)
Lemma split_child_height (order : Z) (parent node1 : Slot) (i : nat) :
  _split_child order parent i = Ok node1 -> (height node1 <= height parent)%nat.
Proof.
  unfold _split_child. destruct parent as [| |pkeys pchildren pleaf]; try discriminate.
  destruct (pchildren !! i) as [[| |ckeys cchildren cleaf]|] eqn:Hc; try discriminate.
  destruct (py_index ckeys (order - 1)); [|discriminate].
  intros [= <-]. rewrite !height_node. apply le_n_S.
  pose proof (max_height_lookup _ _ _ Hc) as Hchild. rewrite height_node in Hchild.
  apply max_height_le. intros c Hin.
  assert (Hhalf : forall cs', (forall c', In c' cs' -> In c' cchildren) ->
                    (height (SNode ckeys cs' cleaf) <= max_height pchildren)%nat).
  { intros cs' Hsub. rewrite height_node.
    assert (max_height cs' <= max_height cchildren)%nat; [|lia].
    apply max_height_le. intros c' Hc'. apply max_height_In, Hsub, Hc'. }
  apply In_list_insert_at in Hin as [->|Hin].
  - destruct cleaf; rewrite height_node.
    + simpl. lia.
    + specialize (Hhalf (py_slice_from cchildren order)
                        (fun c' => In_drop _ _ c')).
      rewrite height_node in Hhalf. exact Hhalf.
  - apply In_list_update in Hin as [->|Hin]; [|apply max_height_In, Hin].
    destruct cleaf; rewrite height_node.
    + lia.
    + specialize (Hhalf (py_slice_to cchildren order)
                        (fun c' => In_take _ _ c')).
      rewrite height_node in Hhalf. exact Hhalf.
Qed.

Lemma compare_keys_error (k1 k2 : PyVal) (e : PyError) :
  _compare_keys k1 k2 = Raise e -> e = TypeError.
Proof.
  unfold _compare_keys, py_lt, py_gt, py_order.
  destruct (num_of k1), (num_of k2), k1, k2; cbn;
    try (intros [= <-]; reflexivity);
    repeat match goal with |- context [is_Lt ?c] => destruct c; cbn end;
    try discriminate.
Qed.

Lemma leaf_shift_error (key : PyVal) (j : nat) (keys : list PyVal) (children : list Slot)
    (e : PyError) :
  snd (leaf_shift key keys children j) = Raise e -> e <> OutOfFuel.
Proof.
  revert keys children. induction j as [|i IH]; intros keys children; simpl; [discriminate|].
  destruct (keys !! i) as [ki|]; simpl; [|intros [= <-]; discriminate].
  destruct (_compare_keys key ki) as [c|e0] eqn:Hc; simpl.
  - destruct (is_LT c); simpl; [|discriminate].
    destruct (children !! i); simpl; [|intros [= <-]; discriminate].
    destruct (decide _); simpl; [apply IH | intros [= <-]; discriminate].
  - intros [= <-]. rewrite (compare_keys_error _ _ _ Hc). discriminate.
Qed.

Lemma leaf_insert_error (keys : list PyVal) (children : list Slot) (key value : PyVal)
    (e : PyError) :
  snd (leaf_insert keys children key value) = Raise e -> e <> OutOfFuel.
Proof.
  unfold leaf_insert.
  pose proof (leaf_shift_error key (length keys) (keys ++ [VNone]) (children ++ [SNone])) as H.
  destruct (leaf_shift _ _ _ _) as [[ks cs] [j|e0]]; simpl in *.
  - destruct (cs !! j) as [[| |]|]; simpl; try discriminate.
    intros [= <-]. discriminate.
  - intros [= <-]. apply H. reflexivity.
Qed.

Lemma descend_pos_error (key : PyVal) (keys : list PyVal) (j : nat) (e : PyError) :
  descend_pos key keys j = Raise e -> e <> OutOfFuel.
Proof.
  induction j as [|i IH]; simpl; [discriminate|].
  destruct (keys !! i) as [ki|]; [|intros [= <-]; discriminate].
  destruct (_compare_keys key ki) as [c|e0] eqn:Hc; cbn.
  - destruct (is_LT c); [exact IH | discriminate].
  - intros [= <-]. rewrite (compare_keys_error _ _ _ Hc). discriminate.
Qed.

Lemma split_child_error (order : Z) (parent : Slot) (i : nat) (e : PyError) :
  _split_child order parent i = Raise e -> e <> OutOfFuel.
Proof.
  unfold _split_child. destruct parent as [| |pkeys pchildren pleaf];
    try (intros [= <-]; discriminate).
  destruct (pchildren !! i) as [[| |ckeys cchildren cleaf]|];
    try (intros [= <-]; discriminate).
  destruct (py_index ckeys (order - 1)); [discriminate | intros [= <-]; discriminate].
Qed.

#[local] Arguments _split_child : simpl never.
#[local] Arguments leaf_insert : simpl never.
#[local] Arguments descend_pos : simpl never.

Lemma insert_non_full_fuel_enough (fuel : nat) (order : Z) (node : Slot) (key value : PyVal) :
  (height node < fuel)%nat ->
  snd (_insert_non_full_fuel fuel order node key value) <> Raise OutOfFuel.
Proof.
  revert node. induction fuel as [|fuel IH]; intros node Hh; [lia|].
  assert (Hrec : forall n i,
            (height n <= fuel)%nat ->
            snd (match n with
                 | SNode ks cs leaf =>
                     match cs !! i with
                     | None => (n, Raise IndexError)
                     | Some c =>
                         let '(c', r) := _insert_non_full_fuel fuel order c key value in
                         (SNode ks (<[i := c']> cs) leaf, r)
                     end
                 | _ => (n, Raise AttributeError)
                 end) <> Raise OutOfFuel).
  { intros n i Hn. destruct n as [| |ks cs leaf]; simpl; try discriminate.
    destruct (cs !! i) as [c|] eqn:Hc; simpl; [|discriminate].
    pose proof (max_height_lookup _ _ _ Hc) as Hlt. rewrite height_node in Hn.
    specialize (IH c ltac:(lia)).
    destruct (_insert_non_full_fuel fuel order c key value) as [c' r]. exact IH. }
  cbn [_insert_non_full_fuel].
  destruct node as [| |keys children [|]]; simpl; try discriminate.
  - pose proof (leaf_insert_error keys children key value) as Hl.
    destruct (leaf_insert keys children key value) as [[ks cs] r]. simpl in *.
    intros Hr. exact (Hl _ Hr eq_refl).
  - destruct (descend_pos key keys (length keys)) as [i|e] eqn:Hd; simpl.
    2:{ intros [= ->]. exact (descend_pos_error _ _ _ _ Hd eq_refl). }
    destruct (children !! i) as [[| |ckeys cchildren cleaf]|] eqn:Hc; simpl; try discriminate.
    destruct (Z.of_nat (length ckeys) =? 2 * order - 1).
    + destruct (_split_child order (SNode keys children false) i) as [node1|e] eqn:Hs; simpl.
      2:{ intros [= ->]. exact (split_child_error _ _ _ _ Hs eq_refl). }
      pose proof (split_child_height _ _ _ _ Hs) as Hh1.
      destruct node1 as [| |keys1 children1 leaf1]; simpl; try discriminate.
      destruct (keys1 !! i) as [ki|]; simpl; [|discriminate].
      destruct (_compare_keys key ki) as [c|e] eqn:Hk; simpl.
      2:{ intros [= ->]. pose proof (compare_keys_error _ _ _ Hk). discriminate. }
      apply (Hrec (SNode keys1 children1 leaf1)). lia.
    + pose proof (Hrec (SNode keys children false) i ltac:(lia)) as Hr.
      simpl in Hr. rewrite Hc in Hr. exact Hr.
Qed.

(** [BTreeIndex.insert] returns or raises a Python exception. *)
Lemma insert_not_out_of_fuel (idx : BTreeIndex) (key value : PyVal) :
  snd (insert idx key value) <> Raise OutOfFuel.
Proof.
  assert (H : forall node, snd (_insert_non_full (order idx) node key value) <> Raise OutOfFuel).
  { intros node. apply insert_non_full_fuel_enough. lia. }
  unfold insert. destruct (root idx) as [| |rkeys rchildren rleaf] eqn:Hroot;
    simpl; try discriminate.
  destruct (Z.of_nat (length rkeys) =? 2 * order idx - 1).
  - destruct (_split_child _ _ _) as [new_root|e] eqn:Hs; simpl.
    + specialize (H new_root).
      destruct (_insert_non_full (order idx) new_root key value). exact H.
    + intros [= ->]. exact (split_child_error _ _ _ _ Hs eq_refl).
  - specialize (H (SNode rkeys rchildren rleaf)).
    destruct (_insert_non_full _ _ _ _). exact H.
Qed.

End Fuel.

(** ** The B-tree index *)


Lemma py_order_refl (k : PyVal) :
  PredicateSpec.orderable k k = true -> py_order k k = Ok Eq.
Proof.
  destruct k as [|b|n|q|s]; simpl; try discriminate; intros _;
    unfold py_order; simpl; f_equal.
  - apply Z.compare_refl.
  - apply Z.compare_refl.
  - apply Z.compare_refl.
  - induction s as [|c s IH]; simpl; [reflexivity|].
    unfold Ascii.compare. rewrite N.compare_refl. exact IH.
Qed.

Lemma compare_keys_refl (k : PyVal) :
  PredicateSpec.orderable k k = true -> BTree._compare_keys k k = Ok BTree.EQ.
Proof.
  intros H. unfold BTree._compare_keys, py_lt, py_gt.
  rewrite (py_order_refl k H). reflexivity.
Qed.

(** Insertion into a root that is a leaf with room. *)
Lemma insert_root_leaf (idx : BTree.BTreeIndex) (keys : list PyVal)
    (children : list BTree.Slot) (k v : PyVal) :
  BTree.root idx = BTree.SNode keys children true ->
  Z.of_nat (length keys) <> 2 * BTree.order idx - 1 ->
  BTree.insert idx k v
  = let '(ks, cs, r) := BTree.leaf_insert keys children k v in
    (BTree.mkBTreeIndex (BTree.order idx) (BTree.SNode ks cs true), r).
Proof.
  intros Hroot Hroom. unfold BTree.insert. rewrite Hroot.
  destruct (Z.eqb_spec (Z.of_nat (length keys)) (2 * BTree.order idx - 1)); [contradiction|].
  unfold BTree._insert_non_full.
  cbn [BTree.height BTree._insert_non_full_fuel].
  destruct (BTree.leaf_insert keys children k v) as [[ks cs] r]. reflexivity.
Qed.

(** The two inserts of one key into a fresh index. *)
Lemma insert_same_key_twice (order : Z) (k v1 v2 : PyVal) :
  order <> 1 ->
  PredicateSpec.orderable k k = true ->
  BTree.insert (BTree.new_index order) k v1
  = (BTree.mkBTreeIndex order (BTree.SNode [k] [BTree.SBucket [v1]] true), Ok tt) /\
  BTree.insert (BTree.mkBTreeIndex order (BTree.SNode [k] [BTree.SBucket [v1]] true)) k v2
  = (BTree.mkBTreeIndex order
       (BTree.SNode [k; k] [BTree.SBucket [v1]; BTree.SBucket [v2]] true), Ok tt).
Proof.
  intros Horder Hk.
  pose proof (compare_keys_refl k Hk) as Hcmp. split.
  - rewrite (insert_root_leaf (BTree.new_index order) [] [] k v1 eq_refl)
      by (simpl; lia).
    reflexivity.
  - rewrite (insert_root_leaf
               (BTree.mkBTreeIndex order (BTree.SNode [k] [BTree.SBucket [v1]] true))
               [k] [BTree.SBucket [v1]] k v2 eq_refl)
      by (simpl; lia).
    unfold BTree.leaf_insert. cbn. rewrite Hcmp. reflexivity.
Qed.

(** C2 (the code at the failing input, for any key). On a fresh index of
    an order other than 1, inserting the same key twice, with row ids [v1]
    then [v2], completes both times and leaves two entries for the key in
    the root, each with a bucket of one row id; [search] then returns the
    first bucket, [v1] alone. *)
Theorem duplicate_key_makes_second_entry (order : Z) (k v1 v2 : PyVal) :
  order <> 1 ->
  PredicateSpec.orderable k k = true ->
  let '(idx1, r1) := BTree.insert (BTree.new_index order) k v1 in
  let '(idx2, r2) := BTree.insert idx1 k v2 in
  r1 = Ok tt /\ r2 = Ok tt /\
  BTree.root idx2
  = BTree.SNode [k; k] [BTree.SBucket [v1]; BTree.SBucket [v2]] true /\
  BTree.search idx2 k = Ok (BTree.SBucket [v1]).
Proof.
  intros Horder Hk.
  destruct (insert_same_key_twice order k v1 v2 Horder Hk) as [-> ->].
  pose proof (compare_keys_refl k Hk) as Hcmp.
  repeat split.
  unfold BTree.search. cbn. rewrite Hcmp. cbn.
  unfold BTree.key_at. cbn. rewrite Hcmp. reflexivity.
Qed.

Lemma duplicate_key_makes_second_entry_witness :
  let '(idx1, r1) := BTree.insert (BTree.new_index 4) (VInt 1) (VInt 10) in
  let '(idx2, r2) := BTree.insert idx1 (VInt 1) (VInt 20) in
  r1 = Ok tt /\ r2 = Ok tt /\
  BTree.root idx2
  = BTree.SNode [VInt 1; VInt 1] [BTree.SBucket [VInt 10]; BTree.SBucket [VInt 20]] true /\
  BTree.search idx2 (VInt 1) = Ok (BTree.SBucket [VInt 10]).
Proof.
  refine (duplicate_key_makes_second_entry 4 (VInt 1) (VInt 10) (VInt 20) _ _).
  - discriminate.
  - reflexivity.
Defined.

(** C3 (the code at failing inputs). On a fresh index of an order other
    than 1, two inserts of one key complete and leave a root whose keys
    are not strictly ascending, so the shape invariant fails. On a fresh
    index of order 4, the keys 1 to 7 in ascending order go in and the
    shape holds; the insert of key 8 splits the root, descends into the new
    right sibling, whose [children] list the split left empty, and raises
    IndexError. *)
Theorem insert_breaks_shape (order : Z) (k v1 v2 : PyVal) :
  order <> 1 ->
  PredicateSpec.orderable k k = true ->
  (let '(idx, r) := BTreeSpec.insert_all (BTree.new_index order) [(k, v1); (k, v2)] in
   r = Ok tt /\ BTreeSpec.well_shaped idx = false)
  /\
  (let ascending := map (fun n => (VInt n, VInt n)) [1; 2; 3; 4; 5; 6; 7] in
   let '(idx7, r7) := BTreeSpec.insert_all (BTree.new_index 4) ascending in
   r7 = Ok tt /\ BTreeSpec.well_shaped idx7 = true /\
   snd (BTree.insert idx7 (VInt 8) (VInt 8)) = Raise IndexError).
Proof.
  intros Horder Hk. split.
  - destruct (insert_same_key_twice order k v1 v2 Horder Hk) as [H1 H2].
    cbn [BTreeSpec.insert_all]. rewrite H1, H2. split; [reflexivity|].
    unfold BTreeSpec.well_shaped. cbn -[Z.leb Z.mul Z.sub].
    rewrite (py_order_refl k Hk).
    rewrite !andb_false_r. reflexivity.
  - vm_compute. auto.
Qed.

Lemma insert_breaks_shape_witness :
  let '(idx, r) :=
    BTreeSpec.insert_all (BTree.new_index 4) [(VInt 1, VInt 10); (VInt 1, VInt 20)] in
  r = Ok tt /\ BTreeSpec.well_shaped idx = false.
Proof.
  refine (proj1 (insert_breaks_shape 4 (VInt 1) (VInt 10) (VInt 20) _ _)).
  - discriminate.
  - reflexivity.
Defined.

(** C1 (the code at the failing input). On a table [t(a INT)] with an
    index on [a], INSERT 2 then INSERT 1 both complete. After the first the
    index agrees with the table; after the second the index holds the keys
    1 and 2, both with the bucket of row id 1: the row with [a = 1] and
    row id 2 is not found under its key, and the index is not consistent
    with the table. *)
Theorem index_inconsistent_after_insert :
  let '(db1, r1) := DatabaseOps._execute_insert ConsistencySpec.indexed_db "t" [VInt 2] in
  let '(db2, r2) := DatabaseOps._execute_insert db1 "t" [VInt 1] in
  r1 = Ok [[("affected_rows", VInt 1); ("row_id", VInt 1)]] /\
  r2 = Ok [[("affected_rows", VInt 1); ("row_id", VInt 2)]] /\
  ConsistencySpec.consistent db1 "t" "i" "a" = true /\
  indexes (index_manager db2) !! "i"
  = Some (BTree.mkBTreeIndex 4
            (BTree.SNode [VInt 1; VInt 2]
               [BTree.SBucket [VInt 1]; BTree.SBucket [VInt 1]] true)) /\
  ConsistencySpec.consistent db2 "t" "i" "a" = false.
Proof. vm_compute. auto 10. Qed.

(** ** File names *)

Lemma append_cons (c : ascii) (a b : string) : String c a +:+ b = String c (a +:+ b).
Proof. reflexivity. Qed.

Lemma length_append (a b : string) :
  String.length (a +:+ b) = (String.length a + String.length b)%nat.
Proof.
  induction a as [|c a IH]; [reflexivity|].
  rewrite append_cons. simpl. rewrite IH. reflexivity.
Qed.

Lemma append_inj_r (a b s : string) : a +:+ s = b +:+ s -> a = b.
Proof.
  revert b. induction a as [|c a IH]; intros [|d b] H.
  - reflexivity.
  - apply (f_equal String.length) in H. rewrite !length_append in H.
    simpl in H. lia.
  - apply (f_equal String.length) in H. rewrite !length_append in H.
    simpl in H. lia.
  - rewrite !append_cons in H. injection H as -> H. f_equal. apply IH, H.
Qed.

Lemma substring_all (s : string) : substring 0 (String.length s) s = s.
Proof. induction s as [|c s IH]; simpl; [reflexivity|]. rewrite IH. reflexivity. Qed.

Lemma substring_after (p s : string) (m : nat) :
  substring (String.length p) m (p +:+ s) = substring 0 m s.
Proof. induction p as [|c p IH]; [reflexivity|]. rewrite append_cons. simpl. exact IH. Qed.

Lemma substring_split (s : string) (k : nat) :
  (k <= String.length s)%nat ->
  s = substring 0 k s +:+ substring k (String.length s - k) s.
Proof.
  revert k. induction s as [|c s IH]; intros [|k] Hk; simpl in *; try lia.
  - reflexivity.
  - rewrite substring_all. reflexivity.
  - rewrite append_cons. f_equal. apply IH. lia.
Qed.

Lemma endswith_append (p suffix : string) :
  StorageEngine.endswith (p +:+ suffix) suffix = true.
Proof.
  unfold StorageEngine.endswith. rewrite length_append.
  destruct (Nat.leb_spec (String.length suffix) (String.length p + String.length suffix));
    [|lia].
  replace (String.length p + String.length suffix - String.length suffix)%nat
    with (String.length p) by lia.
  rewrite substring_after, substring_all. apply String.eqb_refl.
Qed.

Lemma endswith_inv (s suffix : string) :
  StorageEngine.endswith s suffix = true -> exists p, s = p +:+ suffix.
Proof.
  unfold StorageEngine.endswith.
  destruct (Nat.leb_spec (String.length suffix) (String.length s)) as [Hle|]; [|discriminate].
  intros Heq. apply String.eqb_eq in Heq.
  exists (substring 0 (String.length s - String.length suffix) s).
  pose proof (substring_split s (String.length s - String.length suffix)) as Hs.
  replace (String.length s - (String.length s - String.length suffix))%nat
    with (String.length suffix) in Hs by lia.
  rewrite Heq in Hs. apply Hs. lia.
Qed.

Lemma schema_file_inj (n m : string) :
  StorageEngine.schema_file n = StorageEngine.schema_file m -> n = m.
Proof. apply append_inj_r. Qed.

Lemma rows_file_inj (n m : string) :
  StorageEngine.rows_file n = StorageEngine.rows_file m -> n = m.
Proof. apply append_inj_r. Qed.

Lemma schema_file_not_rows_file (n m : string) :
  StorageEngine.schema_file n <> StorageEngine.rows_file m.
Proof.
  unfold StorageEngine.schema_file, StorageEngine.rows_file.
  revert m. induction n as [|c n IH]; intros [|d m] H.
  - discriminate H.
  - destruct m as [|e [|f m]].
    + discriminate H.
    + discriminate H.
    + apply (f_equal String.length) in H. rewrite !length_append in H.
      simpl in H. lia.
  - apply (f_equal String.length) in H. rewrite !length_append in H.
    simpl in H. lia.
  - rewrite !append_cons in H. injection H as _ H. exact (IH _ H).
Qed.

Lemma rows_file_not_schema (m : string) :
  StorageEngine.endswith (StorageEngine.rows_file m) "_schema.json" = false.
Proof.
  destruct (StorageEngine.endswith _ _) eqn:H; [|reflexivity].
  apply endswith_inv in H as [p H]. symmetry in H.
  exfalso. exact (schema_file_not_rows_file p m H).
Qed.

Lemma ident_char_not_dot (c : ascii) :
  PersistSpec.ident_char c = true -> Ascii.eqb c "." = false.
Proof.
  intros H. destruct (Ascii.eqb_spec c ".") as [->|]; [|reflexivity].
  vm_compute in H. discriminate H.
Qed.

Lemma ident_chars_no_dot (s : string) :
  PersistSpec.ident_chars s = true -> PersistSpec.no_dot s = true.
Proof.
  induction s as [|c s IH]; simpl; [reflexivity|].
  intros [Hc Hs]%andb_true_iff. rewrite (ident_char_not_dot c Hc). simpl. auto.
Qed.

Lemma is_identifier_no_dot (s : string) :
  PersistSpec.is_identifier s = true -> PersistSpec.no_dot s = true.
Proof.
  destruct s as [|c s]; simpl; [discriminate|].
  intros [Hc Hs]%andb_true_iff.
  rewrite ident_char_not_dot
    by (unfold PersistSpec.ident_char; rewrite Hc; reflexivity).
  simpl. apply ident_chars_no_dot, Hs.
Qed.

Lemma prefix_inv (p s : string) : String.prefix p s = true -> exists t, s = p +:+ t.
Proof.
  revert s. induction p as [|a p IH]; intros s H.
  - exists s. reflexivity.
  - destruct s as [|b s]; simpl in H; [discriminate|].
    destruct (ascii_dec a b) as [->|]; [|discriminate].
    destruct (IH s H) as [t ->]. exists t. reflexivity.
Qed.

(** In a name without dots followed by the suffix, the suffix does not
    occur before its place: its dot would have to be a character of the
    name. *)
Lemma no_early_suffix (m : string) :
  PersistSpec.no_dot m = true -> m <> "" ->
  String.prefix "_schema.json" (m +:+ "_schema.json") = false.
Proof.
  intros Hdot Hne.
  destruct (String.prefix _ _) eqn:Hp; [|reflexivity]. exfalso.
  apply prefix_inv in Hp as [t Ht].
  apply (f_equal (String.get 7)) in Ht.
  change (String.get 7 ("_schema.json" +:+ t)) with (Some "."%char) in Ht.
  destruct m as [|c0 [|c1 [|c2 [|c3 [|c4 [|c5 [|c6 [|c7 m]]]]]]]];
    try contradiction; try discriminate Ht.
  simpl in Hdot. rewrite !andb_true_iff in Hdot.
  destruct Hdot as (_ & _ & _ & _ & _ & _ & _ & Hc & _).
  change (Some c7 = Some "."%char) in Ht. injection Ht as ->.
  discriminate Hc.
Qed.

Lemma str_remove_schema_file (n : string) :
  PersistSpec.no_dot n = true ->
  StorageEngine.str_remove (StorageEngine.schema_file n) "_schema.json" = n.
Proof.
  unfold StorageEngine.str_remove, StorageEngine.schema_file.
  induction n as [|c n IH]; intros Hdot; [reflexivity|].
  pose proof (no_early_suffix (String c n) Hdot) as Hp.
  rewrite append_cons in *. cbn [StorageEngine.remove_from].
  rewrite Hp by discriminate. f_equal. apply IH.
  simpl in Hdot. apply andb_true_iff in Hdot as [_ Hdot]. exact Hdot.
Qed.

(** ** The documents read back *)

Lemma DataType_of_value (t : DataType) :
  StorageEngine.DataType_of (StorageEngine.DataType_value t) = Ok t.
Proof. destruct t; reflexivity. Qed.

Lemma ConstraintType_of_value (c : ConstraintType) :
  StorageEngine.ConstraintType_of (StorageEngine.ConstraintType_value c) = Ok c.
Proof. destruct c; reflexivity. Qed.

Lemma load_constraints_values (cs : list ConstraintType) :
  StorageEngine.load_constraints (map StorageEngine.ConstraintType_value cs) = Ok cs.
Proof.
  induction cs as [|c cs IH]; [reflexivity|].
  cbn [map StorageEngine.load_constraints].
  rewrite ConstraintType_of_value. cbn. rewrite IH. reflexivity.
Qed.

Lemma load_columns_data (cols : list Column) :
  StorageEngine.load_columns (map StorageEngine.column_data cols) = Ok cols.
Proof.
  induction cols as [|[name t cs] cols IH]; [reflexivity|].
  cbn [map StorageEngine.load_columns StorageEngine.column_data
       cd_name cd_data_type cd_constraints col_name col_data_type col_constraints].
  rewrite DataType_of_value. cbn.
  rewrite load_constraints_values. cbn. rewrite IH. reflexivity.
Qed.

Lemma py_ge_int (a b : Z) : py_ge (VInt a) (VInt b) = Ok (a >=? b).
Proof.
  unfold py_ge, py_order. cbn. unfold Qcompare. cbn. rewrite !Z.mul_1_r.
  unfold Z.geb. destruct (a ?= b); reflexivity.
Qed.

Lemma py_ge_bool (a : bool) (b : Z) : py_ge (VBool a) (VInt b) = Ok (Z.b2z a >=? b).
Proof.
  unfold py_ge, py_order. cbn. unfold Qcompare. cbn. rewrite !Z.mul_1_r.
  unfold Z.geb. destruct (Z.b2z a ?= b); reflexivity.
Qed.

Lemma load_rows_integer_ids (rs acc : list Row) (next : Z) :
  forallb PersistSpec.int_row_id rs = true ->
  StorageEngine.load_rows (map RowOps.to_dict rs) acc (CInt next)
  = Ok (acc ++ rs, CInt (PersistSpec.next_after (map data rs) next)).
Proof.
  revert acc next. induction rs as [|[d] rs IH]; intros acc next Hint.
  - cbn. rewrite app_nil_r. reflexivity.
  - cbn [forallb] in Hint. apply andb_true_iff in Hint as [Hr Hrs].
    unfold PersistSpec.int_row_id in Hr. cbn [data] in Hr.
    cbn [map RowOps.to_dict data StorageEngine.load_rows PersistSpec.next_after
         CounterOps.value].
    destruct (dict_get d "row_id") as [[|b|n|q|s]|]; try discriminate Hr.
    + rewrite py_ge_bool. cbn.
      destruct (Z.b2z b >=? next); cbn; rewrite IH by exact Hrs;
        rewrite <- app_assoc; reflexivity.
    + rewrite py_ge_int. cbn.
      destruct (n >=? next); cbn; rewrite IH by exact Hrs;
        rewrite <- app_assoc; reflexivity.
    + rewrite IH by exact Hrs. rewrite <- app_assoc. reflexivity.
Qed.

(** ** The directory after [save_to_disk] *)

Section Saved.

Variables (tables : gmap string Table) (fs : gmap string Document).

Local Abbreviation schema_doc t := (SchemaDoc (StorageEngine.schema_data (schema t))).
Local Abbreviation rows_doc t := (RowsDoc (map RowOps.to_dict (rows t))).

Lemma save_to_disk_spec :
  (forall n t, tables !! n = Some t ->
     StorageEngine.save_to_disk tables fs !! StorageEngine.schema_file n = Some (schema_doc t) /\
     StorageEngine.save_to_disk tables fs !! StorageEngine.rows_file n = Some (rows_doc t))
  /\
  (forall f doc, StorageEngine.save_to_disk tables fs !! f = Some doc ->
     fs !! f = Some doc \/
     exists n, is_Some (tables !! n) /\
               (f = StorageEngine.schema_file n \/ f = StorageEngine.rows_file n)).
Proof.
  unfold StorageEngine.save_to_disk.
  apply (map_fold_weak_ind
           (fun (r : gmap string Document) (m : gmap string Table) =>
              (forall n t, m !! n = Some t ->
                 r !! StorageEngine.schema_file n = Some (schema_doc t) /\
                 r !! StorageEngine.rows_file n = Some (rows_doc t))
              /\
              (forall f doc, r !! f = Some doc ->
                 fs !! f = Some doc \/
                 exists n, is_Some (m !! n) /\
                           (f = StorageEngine.schema_file n \/ f = StorageEngine.rows_file n)))).
  - split.
    + intros n t H. rewrite lookup_empty in H. discriminate.
    + intros f doc H. left. exact H.
  - intros i x m r Hfresh [IH1 IH2]. unfold StorageEngine.save_table. split.
    + intros n t Hn.
      destruct (decide (n = i)) as [->|Hne].
      * rewrite lookup_insert_eq in Hn. injection Hn as ->. split.
        -- rewrite lookup_insert_ne
             by (intros H; symmetry in H; exact (schema_file_not_rows_file _ _ H)).
           apply lookup_insert_eq.
        -- apply lookup_insert_eq.
      * rewrite lookup_insert_ne in Hn by congruence.
        destruct (IH1 n t Hn) as [Hs Hr]. split.
        -- rewrite lookup_insert_ne
             by (intros H; symmetry in H; exact (schema_file_not_rows_file _ _ H)).
           rewrite lookup_insert_ne
             by (intros H; apply schema_file_inj in H; congruence).
           exact Hs.
        -- rewrite lookup_insert_ne
             by (intros H; apply rows_file_inj in H; congruence).
           rewrite lookup_insert_ne
             by (intros H; exact (schema_file_not_rows_file _ _ H)).
           exact Hr.
    + intros f doc Hf.
      destruct (decide (f = StorageEngine.rows_file i)) as [->|Hr].
      { right. exists i. rewrite lookup_insert_eq. eauto. }
      rewrite lookup_insert_ne in Hf by congruence.
      destruct (decide (f = StorageEngine.schema_file i)) as [->|Hs].
      { right. exists i. rewrite lookup_insert_eq. eauto. }
      rewrite lookup_insert_ne in Hf by congruence.
      destruct (IH2 f doc Hf) as [Hfs|[n [Hn Hfn]]]; [left; exact Hfs|].
      right. exists n. split; [|exact Hfn].
      destruct (decide (n = i)) as [->|Hne].
      * rewrite lookup_insert_eq. eauto.
      * rewrite lookup_insert_ne by congruence. exact Hn.
Qed.

End Saved.

(** ** The registry after [load_from_disk] *)

Lemma table_schema_eta (s : TableSchema) :
  mkTableSchema (schema_name s) (columns s) (primary_key s) = s.
Proof. destruct s. reflexivity. Qed.

Section Loaded.

Variables (tables tables0 : gmap string Table) (fs : gmap string Document).

Hypothesis Hnames : PersistSpec.well_named tables.
Hypothesis Hids : PersistSpec.integer_row_ids tables.
Hypothesis Hsaved : forall n t, tables !! n = Some t ->
  fs !! StorageEngine.schema_file n = Some (SchemaDoc (StorageEngine.schema_data (schema t))) /\
  fs !! StorageEngine.rows_file n = Some (RowsDoc (map RowOps.to_dict (rows t))).
Hypothesis Howned : PersistSpec.owned_schema_files tables fs.

(** Reading the schema file of a table of [tables]. *)
Lemma load_file_schema (n : string) (t : Table) (doc : Document) (acc : gmap string Table) :
  tables !! n = Some t ->
  fs !! StorageEngine.schema_file n = Some doc ->
  StorageEngine.load_file fs (StorageEngine.schema_file n) doc acc
  = Ok (<[n := PersistSpec.reloaded t]> acc).
Proof.
  intros Hn Hdoc. destruct (Hsaved n t Hn) as [Hs Hr].
  rewrite Hs in Hdoc. injection Hdoc as <-.
  unfold StorageEngine.load_file.
  unfold StorageEngine.schema_file at 1. rewrite endswith_append.
  rewrite str_remove_schema_file by (apply is_identifier_no_dot, (Hnames n t Hn)).
  cbn [StorageEngine.schema_data sd_columns sd_name sd_primary_key].
  rewrite load_columns_data. cbn. rewrite table_schema_eta, Hr.
  rewrite load_rows_integer_ids by (apply (Hids n t Hn)).
  reflexivity.
Qed.

Lemma load_from_disk_spec :
  exists loaded,
    StorageEngine.load_from_disk tables0 fs = Ok loaded /\
    forall n, loaded !! n = match tables !! n with
                            | Some t => Some (PersistSpec.reloaded t)
                            | None => tables0 !! n
                            end.
Proof.
  unfold StorageEngine.load_from_disk.
  assert (Hinv : forall m : gmap string Document, m ⊆ fs ->
            exists loaded,
              map_fold (fun filename doc acc => acc ≫= StorageEngine.load_file fs filename doc)
                       (Ok tables0) m = Ok loaded /\
              forall n, loaded !! n = match m !! StorageEngine.schema_file n with
                                      | Some _ => PersistSpec.reloaded <$> tables !! n
                                      | None => tables0 !! n
                                      end).
  { intros m.
    apply (map_fold_weak_ind
             (fun (r : result (gmap string Table)) (m : gmap string Document) =>
                m ⊆ fs ->
                exists loaded, r = Ok loaded /\
                  forall n, loaded !! n = match m !! StorageEngine.schema_file n with
                                          | Some _ => PersistSpec.reloaded <$> tables !! n
                                          | None => tables0 !! n
                                          end)).
    - intros _. exists tables0. split; [reflexivity|].
      intros n. rewrite lookup_empty. reflexivity.
    - clear m. intros i x m r Hfresh IH Hsub.
      assert (Hix : fs !! i = Some x).
      { eapply lookup_weaken; [|exact Hsub]. apply lookup_insert_eq. }
      assert (Hm : m ⊆ fs).
      { etransitivity; [|exact Hsub]. apply insert_subseteq. exact Hfresh. }
      destruct (IH Hm) as [loaded [-> Hloaded]]. cbn.
      destruct (StorageEngine.endswith i "_schema.json") eqn:Hend.
      + destruct (Howned i x Hix Hend) as [n' [-> [t' Ht']]].
        rewrite (load_file_schema n' t' x loaded Ht' Hix).
        eexists. split; [reflexivity|]. intros n.
        destruct (decide (n = n')) as [->|Hne].
        * rewrite !lookup_insert_eq, Ht'. reflexivity.
        * rewrite lookup_insert_ne by congruence.
          rewrite lookup_insert_ne
            by (intros H; apply schema_file_inj in H; congruence).
          apply Hloaded.
      + unfold StorageEngine.load_file. rewrite Hend.
        eexists. split; [reflexivity|]. intros n.
        rewrite lookup_insert_ne; [apply Hloaded|].
        intros ->. unfold StorageEngine.schema_file in Hend.
        rewrite endswith_append in Hend. discriminate. }
  destruct (Hinv fs (reflexivity _)) as [loaded [Hload Hloaded]].
  exists loaded. split; [exact Hload|]. intros n. rewrite Hloaded.
  destruct (tables !! n) as [t|] eqn:Hn.
  - destruct (Hsaved n t Hn) as [-> _]. reflexivity.
  - destruct (fs !! StorageEngine.schema_file n) as [doc|] eqn:Hdoc; [|reflexivity].
    exfalso.
    destruct (Howned _ doc Hdoc (endswith_append n "_schema.json")) as [n' [Heq [t' Ht']]].
    apply schema_file_inj in Heq. subst n'. congruence.
Qed.

End Loaded.

Lemma saved_schema_files_owned (tables : gmap string Table) (fs : gmap string Document) :
  PersistSpec.owned_schema_files tables fs ->
  PersistSpec.owned_schema_files tables (StorageEngine.save_to_disk tables fs).
Proof.
  intros Howned f doc Hf Hend.
  destruct (proj2 (save_to_disk_spec tables fs) f doc Hf) as [Hfs|[n [Hn [->| ->]]]].
  - exact (Howned f doc Hfs Hend).
  - exists n. split; [reflexivity | exact Hn].
  - rewrite rows_file_not_schema in Hend. discriminate.
Qed.

Lemma reloaded_reproduces (tables : gmap string Table) :
  PersistSpec.reproduces tables (PersistSpec.reloaded <$> tables).
Proof.
  intros name. rewrite lookup_fmap.
  destruct (tables !! name) as [t|]; simpl; auto.
Qed.

(** The two other conditions of the round trip are needed as well. A
    schema file of the directory that belongs to no table of the engine is
    loaded as a table. *)
Lemma foreign_schema_file_is_loaded :
  ~ PersistSpec.round_trip ∅ {["ghost_schema.json" := SchemaDoc (mkSchemaData "ghost" [] None)]}.
Proof.
  intros [loaded [Hload Hsame]]. vm_compute in Hload. injection Hload as <-.
  specialize (Hsame "ghost"). vm_compute in Hsame. exact Hsame.
Qed.

(** A table whose name contains the suffix comes back under the name
    with the suffix removed. *)
Lemma suffix_in_name_is_dropped :
  ~ PersistSpec.round_trip
      {["x_schema.json" := TableOps.new (mkTableSchema "x_schema.json" [] None)]} ∅.
Proof.
  intros [loaded [Hload Hsame]]. vm_compute in Hload. injection Hload as <-.
  specialize (Hsame "x"). vm_compute in Hsame. exact Hsame.
Qed.

(** C5 (counterexample). A table whose column is called [row_id] stores
    the inserted text under the key the engine uses for its row ids; the
    statement completes and saves, and loading the directory raises
    TypeError on ['x' >= 1]. *)
Lemma text_row_id_breaks_round_trip :
  ~ PersistSpec.round_trip (storage PersistSpec.row_id_column_db)
                           (files PersistSpec.row_id_column_db).
Proof.
  intros [loaded [Hload _]]. vm_compute in Hload. discriminate Hload.
Qed.

(** C5 (amended). For a registry whose table names are identifiers and
    whose stored row ids are integers, and a data directory in which every
    schema file belongs to a table of the registry, [save_to_disk] followed
    by [load_from_disk], into a new engine or into the same one, gives the
    same table names, and for each table the same schema and the same rows,
    row ids included; only [next_row_id] is computed anew. *)
Theorem save_load_round_trip (tables : gmap string Table) (fs : gmap string Document) :
  PersistSpec.well_named tables ->
  PersistSpec.integer_row_ids tables ->
  PersistSpec.owned_schema_files tables fs ->
  StorageEngine.init (StorageEngine.save_to_disk tables fs)
  = Ok (PersistSpec.reloaded <$> tables) /\
  StorageEngine.load_from_disk tables (StorageEngine.save_to_disk tables fs)
  = Ok (PersistSpec.reloaded <$> tables) /\
  PersistSpec.round_trip tables fs.
Proof.
  intros Hnames Hids Howned.
  assert (Hload : forall tables0,
             (forall n, tables !! n = None -> tables0 !! n = None) ->
             StorageEngine.load_from_disk tables0 (StorageEngine.save_to_disk tables fs)
             = Ok (PersistSpec.reloaded <$> tables)).
  { intros tables0 Hdom.
    destruct (load_from_disk_spec tables tables0 (StorageEngine.save_to_disk tables fs)
                Hnames Hids (proj1 (save_to_disk_spec tables fs))
                (saved_schema_files_owned tables fs Howned)) as [loaded [-> Hloaded]].
    f_equal. apply map_eq. intros n. rewrite Hloaded, lookup_fmap.
    destruct (tables !! n) eqn:Hn; [reflexivity | exact (Hdom n Hn)]. }
  assert (Hinit : StorageEngine.init (StorageEngine.save_to_disk tables fs)
                  = Ok (PersistSpec.reloaded <$> tables)).
  { apply Hload. intros n _. apply lookup_empty. }
  split; [exact Hinit|]. split; [apply Hload; auto|].
  exists (PersistSpec.reloaded <$> tables). split; [exact Hinit|].
  apply reloaded_reproduces.
Qed.

Lemma save_load_round_trip_witness :
  let users := mkTable Scenario.users_schema
                 [mkRow [("id", VInt 1); ("name", VStr "a"); ("row_id", VInt 1)]] 5 in
  StorageEngine.init (StorageEngine.save_to_disk {["users" := users]} ∅)
  = Ok (PersistSpec.reloaded <$> {["users" := users]}) /\
  StorageEngine.load_from_disk {["users" := users]}
    (StorageEngine.save_to_disk {["users" := users]} ∅)
  = Ok (PersistSpec.reloaded <$> {["users" := users]}) /\
  PersistSpec.round_trip {["users" := users]} ∅.
Proof.
  refine (save_load_round_trip
            {["users" := mkTable Scenario.users_schema
                 [mkRow [("id", VInt 1); ("name", VStr "a"); ("row_id", VInt 1)]] 5]}
            ∅ _ _ _).
  - intros name t H. apply lookup_singleton_Some in H as [<- _]. reflexivity.
  - intros name t H. apply lookup_singleton_Some in H as [_ <-]. reflexivity.
  - intros f doc H. rewrite lookup_empty in H. discriminate H.
Defined.

(** ** Row ids *)

Lemma update_next_row_id (t : Table) (a : dict) (w : option Condition) :
  next_row_id (fst (TableOps.update t a w)) = next_row_id t.
Proof.
  unfold TableOps.update.
  destruct (TableOps.update_loop _ _ _ _ _) as [rows' r]. reflexivity.
Qed.

Lemma delete_next_row_id (t : Table) (w : option Condition) :
  next_row_id (fst (TableOps.delete t w)) = next_row_id t.
Proof.
  unfold TableOps.delete. destruct w as [c|]; [|reflexivity].
  destruct (TableOps.reject_matching c (rows t)); reflexivity.
Qed.

(** One operation on a table whose counter is the integer [c] assigns
    nothing and leaves the counter, or assigns [c] and moves the counter
    on by one. *)
Lemma step_counter (t : Table) (op : RowIdSpec.TableOp) (c : Z) :
  next_row_id t = CInt c ->
  let '(t', ids) := RowIdSpec.step t op in
  (ids = [] /\ next_row_id t' = CInt c) \/
  (ids = [c] /\ next_row_id t' = CInt (c + 1)).
Proof.
  intros Hc. destruct op as [row|a w|w]; cbn [RowIdSpec.step].
  - unfold TableOps.insert, TableOps.assign_row_id.
    destruct (Schema.validate_row (schema t) row).
    + destruct (dict_contains (data row) "row_id") eqn:Hd.
      * destruct (TableOps._check_unique_constraints t row);
          unfold RowIdSpec.assigned; rewrite Hd; left; auto.
      * rewrite Hc.
        destruct (TableOps._check_unique_constraints _ _);
          unfold RowIdSpec.assigned; rewrite Hd; cbn;
          rewrite dict_get_set_eq; right; auto.
    + left. split; [|exact Hc].
      unfold RowIdSpec.assigned, dict_contains.
      destruct (dict_get (data row) "row_id"); reflexivity.
  - left. split; [reflexivity | rewrite update_next_row_id; exact Hc].
  - left. split; [reflexivity | rewrite delete_next_row_id; exact Hc].
Qed.

Lemma run_counter (ops : list RowIdSpec.TableOp) (t : Table) (c : Z) :
  next_row_id t = CInt c ->
  let '(t', ids) := RowIdSpec.run t ops in
  exists c',
    next_row_id t' = CInt c' /\
    c <= c' /\
    Forall (fun n => c <= n < c') ids /\
    StronglySorted Z.lt ids.
Proof.
  revert t c. induction ops as [|op ops IH]; intros t c Hc; simpl.
  - exists c. split; [exact Hc|]. split; [lia|]. split; constructor.
  - pose proof (step_counter t op c Hc) as Hstep.
    destruct (RowIdSpec.step t op) as [t1 ids1].
    destruct Hstep as [[-> Hn]|[-> Hn]].
    + specialize (IH t1 c Hn). destruct (RowIdSpec.run t1 ops) as [t2 ids2].
      exact IH.
    + specialize (IH t1 (c + 1) Hn). destruct (RowIdSpec.run t1 ops) as [t2 ids2].
      destruct IH as (c' & Hc' & Hle & Hall & Hsorted).
      exists c'. split; [exact Hc'|]. split; [lia|]. simpl. split.
      * constructor; [lia|].
        eapply Forall_impl; [exact Hall|]. simpl. intros n Hn'. lia.
      * constructor; [exact Hsorted|].
        eapply Forall_impl; [exact Hall|]. simpl. intros n Hn'. lia.
Qed.

Lemma py_ge_int_value (v : PyVal) (next : Z) (ge : bool) :
  py_ge v (VInt next) = Ok ge ->
  forall n, RowIdSpec.int_value v = Some n -> ge = (n >=? next).
Proof.
  intros Hge n Hv. destruct v as [|b|m|q|s]; simpl in Hv; try discriminate.
  - injection Hv as <-. rewrite py_ge_bool in Hge. congruence.
  - injection Hv as <-. rewrite py_ge_int in Hge. congruence.
Qed.

(** The loop over a rows file whose row ids are integers: the rows come
    back in order, behind the ones already there; the counter stays an
    integer, only grows, ends above every row id it met, and if it moved
    it is one more than one of them. *)
Lemma load_rows_counter (rows_data : list dict) (acc rs : list Row) (next : Z)
    (counter : Counter) :
  forallb (fun d => PersistSpec.int_row_id (mkRow d)) rows_data = true ->
  StorageEngine.load_rows rows_data acc (CInt next) = Ok (rs, counter) ->
  exists next',
    counter = CInt next' /\
    rs = acc ++ map mkRow rows_data /\
    next <= next' /\
    (forall d n, In d rows_data -> RowIdSpec.row_id_of (mkRow d) = Some n -> n < next') /\
    (next' = next \/
     exists d n, In d rows_data /\ RowIdSpec.row_id_of (mkRow d) = Some n /\ next' = n + 1).
Proof.
  revert acc next. induction rows_data as [|d rest IH]; intros acc next Hint; simpl.
  - intros [= <- <-]. exists next. rewrite app_nil_r.
    repeat split; [lia | intros d n [] | auto].
  - simpl in Hint. apply andb_true_iff in Hint as [Hd0 Hrest].
    assert (Hkeep : forall nx,
              next <= nx ->
              (forall n, RowIdSpec.row_id_of (mkRow d) = Some n -> n < nx) ->
              (nx = next \/ exists n, RowIdSpec.row_id_of (mkRow d) = Some n /\ nx = n + 1) ->
              StorageEngine.load_rows rest (acc ++ [mkRow d]) (CInt nx) = Ok (rs, counter) ->
              exists next',
                counter = CInt next' /\
                rs = acc ++ mkRow d :: map mkRow rest /\
                next <= next' /\
                (forall d0 n, d = d0 \/ In d0 rest ->
                              RowIdSpec.row_id_of (mkRow d0) = Some n -> n < next') /\
                (next' = next \/
                 exists d0 n, (d = d0 \/ In d0 rest) /\
                              RowIdSpec.row_id_of (mkRow d0) = Some n /\ next' = n + 1)).
    { intros nx Hle Hd Hnx Hload.
      destruct (IH _ _ Hrest Hload) as (next' & -> & -> & Hle' & Hbound & Hatt).
      exists next'. split; [reflexivity|].
      split; [rewrite <- app_assoc; reflexivity|]. split; [lia|]. split.
      - intros d0 n [<-|Hin] Hid; [specialize (Hd n Hid); lia | eauto].
      - destruct Hatt as [->|(d0 & n & Hin & Hid & ->)].
        + destruct Hnx as [->|(n & Hid & ->)]; [left; reflexivity|].
          right. exists d, n. auto.
        + right. exists d0, n. auto. }
    unfold RowIdSpec.row_id_of in Hkeep. cbn [data] in Hkeep.
    unfold PersistSpec.int_row_id in Hd0. cbn [data] in Hd0.
    cbn [CounterOps.value].
    destruct (dict_get d "row_id") as [v|] eqn:Hget.
    + assert (Hv : exists n, RowIdSpec.int_value v = Some n
                             /\ StorageEngine.succ_row_id v = Ok (CInt (n + 1))).
      { destruct v; try discriminate Hd0; eexists; split; reflexivity. }
      destruct Hv as (n & Hv & Hsucc).
      destruct (py_ge v (VInt next)) as [ge|e] eqn:Hge; cbn; [|discriminate].
      pose proof (py_ge_int_value v next ge Hge n Hv) as Hcmp.
      destruct ge.
      * rewrite Hsucc. cbn.
        apply Hkeep; [lia | intros m Hm; rewrite Hv in Hm; injection Hm as <-; lia | eauto].
      * apply Hkeep; [lia | | auto].
        intros m Hm. rewrite Hv in Hm. injection Hm as <-. lia.
    + apply Hkeep; [lia | discriminate | auto].
Qed.

Lemma load_file_counter (fs : gmap string Document) (f : string) (doc : Document)
    (acc loaded : gmap string Table) :
  RowIdSpec.integer_files fs ->
  StorageEngine.load_file fs f doc acc = Ok loaded ->
  (forall name t, acc !! name = Some t -> RowIdSpec.counter_restored t) ->
  forall name t, loaded !! name = Some t -> RowIdSpec.counter_restored t.
Proof.
  unfold StorageEngine.load_file. intros Hfiles Hload Hacc.
  destruct (StorageEngine.endswith f "_schema.json"); [|injection Hload as <-; exact Hacc].
  destruct doc as [sd|]; [|discriminate].
  destruct (StorageEngine.load_columns (sd_columns sd)) as [cols|]; cbn in Hload;
    [|discriminate].
  assert (Hins : forall t0, RowIdSpec.counter_restored t0 ->
            forall name t,
              <[StorageEngine.str_remove f "_schema.json" := t0]> acc !! name = Some t ->
              RowIdSpec.counter_restored t).
  { intros t0 Ht0 name t Hlook.
    destruct (decide (StorageEngine.str_remove f "_schema.json" = name)) as [<-|Hne].
    - rewrite lookup_insert_eq in Hlook. injection Hlook as <-. exact Ht0.
    - rewrite lookup_insert_ne in Hlook by exact Hne. eauto. }
  destruct (fs !! StorageEngine.rows_file _) as [[|rows_data]|] eqn:Hrf.
  - discriminate.
  - destruct (StorageEngine.load_rows rows_data [] 1) as [[rs next]|] eqn:Hrows;
      cbn in Hload; [|discriminate].
    injection Hload as <-. apply Hins.
    destruct (load_rows_counter _ _ _ _ _ (Hfiles _ _ Hrf) Hrows)
      as (c & -> & -> & Hle & Hbound & Hatt).
    exists c. split; [reflexivity|]. split; [|split]; simpl.
    + intros row n Hin Hid. apply in_map_iff in Hin as (d & <- & Hin). eauto.
    + exact Hle.
    + destruct Hatt as [->|(d & n & Hin & Hid & ->)]; [left; reflexivity|].
      right. exists (mkRow d), n. split; [apply in_map, Hin | auto].
  - injection Hload as <-. apply Hins.
    exists 1. split; [reflexivity|].
    split; [|split]; simpl; [intros row n [] | lia | left; reflexivity].
Qed.

Lemma load_from_disk_counter (tables0 loaded : gmap string Table) (fs : gmap string Document) :
  RowIdSpec.integer_files fs ->
  StorageEngine.load_from_disk tables0 fs = Ok loaded ->
  (forall name t, tables0 !! name = Some t -> RowIdSpec.counter_restored t) ->
  forall name t, loaded !! name = Some t -> RowIdSpec.counter_restored t.
Proof.
  unfold StorageEngine.load_from_disk. intros Hfiles Hload H0. revert loaded Hload.
  apply (map_fold_weak_ind
           (fun (r : result (gmap string Table)) (_ : gmap string Document) =>
              forall loaded, r = Ok loaded ->
                forall name t, loaded !! name = Some t -> RowIdSpec.counter_restored t)).
  - intros loaded [= <-]. exact H0.
  - intros i x m r _ IH loaded Hstep.
    destruct r as [acc|e]; cbn in Hstep; [|discriminate].
    eapply load_file_counter; [exact Hfiles | exact Hstep|]. apply IH. reflexivity.
Qed.

(** What [save_to_disk] writes for tables with integer row ids. *)
Lemma saved_files_integer (tables : gmap string Table) (fs : gmap string Document) :
  RowIdSpec.integer_files fs ->
  PersistSpec.integer_row_ids tables ->
  RowIdSpec.integer_files (StorageEngine.save_to_disk tables fs).
Proof.
  intros Hfs Hids f rows_data Hf.
  destruct (save_to_disk_spec tables fs) as [Hsaved Hfrom].
  destruct (Hfrom f _ Hf) as [Hold|(n & [t Hn] & [-> | ->])].
  - exact (Hfs f rows_data Hold).
  - destruct (Hsaved n t Hn) as [Hs _]. rewrite Hs in Hf. discriminate Hf.
  - destruct (Hsaved n t Hn) as [_ Hr]. rewrite Hr in Hf. injection Hf as <-.
    pose proof (Hids n t Hn) as Hint. clear - Hint.
    induction (rows t) as [|[d] rs IH]; [reflexivity|].
    simpl in *. apply andb_true_iff in Hint as [Hd Hrs].
    apply andb_true_iff. split; [exact Hd | exact (IH Hrs)].
Qed.

Lemma strictly_increasing_NoDup (ids : list Z) : StronglySorted Z.lt ids -> NoDup ids.
Proof.
  induction 1 as [|n ids _ IH Hall]; constructor; [|exact IH].
  intros Hin. apply list_elem_of_In in Hin.
  rewrite List.Forall_forall in Hall. specialize (Hall n Hin). lia.
Qed.

(** C6 (counterexample). Users 1, 2 and 3 get the row ids 1, 2 and 3; the
    third is deleted; the engine is started again on the directory and
    the next insert gets the row id 3 a second time. *)
Lemma row_id_reused_after_reload :
  snd RowIdSpec.third_insert = Ok [[("affected_rows", VInt 1); ("row_id", VInt 3)]] /\
  snd RowIdSpec.after_delete = Ok [[("affected_rows", VInt 1)]] /\
  exists db,
    RowIdSpec.restarted = Ok db /\
    snd (DatabaseOps._execute_insert db "users" [VInt 4; VStr "d"])
    = Ok [[("affected_rows", VInt 1); ("row_id", VInt 3)]].
Proof.
  split; [vm_compute; reflexivity|]. split; [vm_compute; reflexivity|].
  eexists. split; [vm_compute; reflexivity|]. vm_compute. reflexivity.
Qed.

(** A stored float row id is carried on as a float counter: after the row
    id 2.5 the counter is 3.5, and the next insert assigns 3.5. *)
Lemma float_row_id_counter :
  let stored := [("id", VInt 1); ("name", VStr "a"); ("row_id", VFloat (5 # 2))] in
  let t := mkTable Scenario.users_schema [mkRow stored] (CFloat (7 # 2)) in
  StorageEngine.load_rows [stored] [] 1 = Ok ([mkRow stored], CFloat (7 # 2)) /\
  snd (TableOps.insert t (mkRow [("id", VInt 2); ("name", VStr "b")])) = Ok (VFloat (7 # 2)) /\
  next_row_id (fst (fst (TableOps.insert t (mkRow [("id", VInt 2); ("name", VStr "b")]))))
  = CFloat (9 # 2).
Proof. cbv zeta. split; [|split]; vm_compute; reflexivity. Qed.

(** A float row id makes the counter a float, and a float counter of
    2^53 does not move: the row id 2^53 written by an UPDATE and saved
    comes back as the counter 2^53 (the double nearest to 2^53 + 1), and
    two inserts into the reloaded table both get the row id 2^53. *)
Lemma float_row_id_repeats :
  exists db db1 db2 r1 r2,
    RowIdSpec.float_restarted = Ok db /\
    next_row_id <$> storage db !! "users" = Some (CFloat (inject_Z (2 ^ 53))) /\
    DatabaseOps._execute_insert db "users" [VInt 2; VStr "b"] = (db1, Ok r1) /\
    DatabaseOps._execute_insert db1 "users" [VInt 3; VStr "c"] = (db2, Ok r2) /\
    r1 = [[("affected_rows", VInt 1); ("row_id", VFloat (inject_Z (2 ^ 53)))]] /\
    r2 = [[("affected_rows", VInt 1); ("row_id", VFloat (inject_Z (2 ^ 53)))]].
Proof.
  do 5 eexists.
  split; [vm_compute; reflexivity|]. split; [vm_compute; reflexivity|].
  split; [vm_compute; reflexivity|]. split; [vm_compute; reflexivity|].
  split; reflexivity.
Qed.

(** C6 (amended). Within the life of a table object whose counter is an
    integer, whatever the sequence of inserts, updates and deletes, failed
    ones included, the counter stays an integer and the row ids the table
    assigns are strictly increasing in the order of assignment, hence
    pairwise distinct, and lie between the counter before and the counter
    after. From a directory whose stored row ids are integers,
    [load_from_disk] leaves every table it builds with an integer counter
    that is at least 1, above every row id among the loaded rows, and
    equal to 1 or to one more than one of them; so a row id assigned after
    a reload is not the id of a row present at the reload. The id of a row
    deleted before the save is not excluded, and neither is anything once
    a stored row id is a float. *)
Theorem row_ids_increase :
  (forall (t : Table) (ops : list RowIdSpec.TableOp) (c : Z),
     next_row_id t = CInt c ->
     let '(t', ids) := RowIdSpec.run t ops in
     exists c',
       next_row_id t' = CInt c' /\
       StronglySorted Z.lt ids /\ NoDup ids /\
       Forall (fun n => c <= n < c') ids)
  /\
  (forall (fs : gmap string Document) (loaded : gmap string Table) (name : string) (t : Table),
     RowIdSpec.integer_files fs ->
     StorageEngine.init fs = Ok loaded ->
     loaded !! name = Some t ->
     exists c,
       next_row_id t = CInt c /\
       RowIdSpec.bounded t c /\ 1 <= c /\ RowIdSpec.restored t c)
  /\
  (forall (fs : gmap string Document) (loaded : gmap string Table) (name : string) (t : Table)
          (ops : list RowIdSpec.TableOp) (n : Z) (row : Row),
     RowIdSpec.integer_files fs ->
     StorageEngine.init fs = Ok loaded ->
     loaded !! name = Some t ->
     In n (snd (RowIdSpec.run t ops)) ->
     In row (rows t) ->
     RowIdSpec.row_id_of row <> Some n).
Proof.
  assert (Hinit : forall fs loaded name t,
             RowIdSpec.integer_files fs ->
             StorageEngine.init fs = Ok loaded -> loaded !! name = Some t ->
             RowIdSpec.counter_restored t).
  { intros fs loaded name t Hfiles Hload Ht.
    eapply (load_from_disk_counter ∅ loaded fs Hfiles Hload); [|exact Ht].
    intros name0 t0 H. rewrite lookup_empty in H. discriminate H. }
  split; [|split].
  - intros t ops c Hc. pose proof (run_counter ops t c Hc) as H.
    destruct (RowIdSpec.run t ops) as [t' ids].
    destruct H as (c' & Hc' & _ & Hall & Hs).
    exists c'. auto using strictly_increasing_NoDup.
  - intros fs loaded name t Hfiles Hload Ht. exact (Hinit fs loaded name t Hfiles Hload Ht).
  - intros fs loaded name t ops n row Hfiles Hload Ht Hn Hrow Hid.
    destruct (Hinit fs loaded name t Hfiles Hload Ht) as (c & Hc & Hb & _ & _).
    specialize (Hb row n Hrow Hid).
    pose proof (run_counter ops t c Hc) as H.
    destruct (RowIdSpec.run t ops) as [t' ids]. destruct H as (c' & _ & _ & Hall & _).
    rewrite List.Forall_forall in Hall. specialize (Hall n Hn). lia.
Qed.

Lemma row_ids_increase_witness :
  let users := mkTable Scenario.users_schema
                 [mkRow [("id", VInt 1); ("name", VStr "a"); ("row_id", VInt 1)];
                  mkRow [("id", VInt 2); ("name", VStr "b"); ("row_id", VInt 2)]] 3 in
  (exists c,
     next_row_id users = CInt c /\
     RowIdSpec.bounded users c /\ 1 <= c /\ RowIdSpec.restored users c) /\
  (forall ops n row,
     In n (snd (RowIdSpec.run users ops)) -> In row (rows users) ->
     RowIdSpec.row_id_of row <> Some n).
Proof.
  assert (Hfiles : RowIdSpec.integer_files
                     (StorageEngine.save_to_disk
                        {["users" := mkTable Scenario.users_schema
                            [mkRow [("id", VInt 1); ("name", VStr "a"); ("row_id", VInt 1)];
                             mkRow [("id", VInt 2); ("name", VStr "b"); ("row_id", VInt 2)]]
                            7]} ∅)).
  { apply saved_files_integer.
    - intros f rows_data H. rewrite lookup_empty in H. discriminate H.
    - intros name t H. apply lookup_singleton_Some in H as [_ <-]. reflexivity. }
  split.
  - refine (proj1 (proj2 row_ids_increase) _
              {["users" := mkTable Scenario.users_schema
                     [mkRow [("id", VInt 1); ("name", VStr "a"); ("row_id", VInt 1)];
                      mkRow [("id", VInt 2); ("name", VStr "b"); ("row_id", VInt 2)]] 3]}
              "users" _ Hfiles _ _).
    + vm_compute. reflexivity.
    + vm_compute. reflexivity.
  - intros ops n row.
    refine (proj2 (proj2 row_ids_increase) _
              {["users" := mkTable Scenario.users_schema
                     [mkRow [("id", VInt 1); ("name", VStr "a"); ("row_id", VInt 1)];
                      mkRow [("id", VInt 2); ("name", VStr "b"); ("row_id", VInt 2)]] 3]}
              "users" _ ops n row Hfiles _ _).
    + vm_compute. reflexivity.
    + vm_compute. reflexivity.
Defined.

(** * Further properties of the tables *)

(** ** Inserts keep UNIQUE and PRIMARY_KEY columns free of duplicates *)

Lemma check_unique_column_ok (name : string) (v : PyVal) (existing : list Row) :
  TableOps.check_unique_column name v existing = Ok tt ->
  forall r w, In r existing -> dict_get (data r) name = Some w -> py_eq w v = false.
Proof.
  induction existing as [|r0 rs IH]; simpl; [intros _ r w []|].
  destruct (dict_get (data r0) name) as [w0|] eqn:Hw0.
  - destruct (py_eq w0 v) eqn:Heq; [discriminate|].
    intros Hok r w [<-|Hin] Hw; [congruence | eauto].
  - intros Hok r w [<-|Hin] Hw; [congruence | eauto].
Qed.

Lemma check_unique_columns_ok (cols : list Column) (existing : list Row) (new_row : Row) :
  TableOps.check_unique_columns cols existing new_row = Ok tt ->
  forall col v, In col cols -> Spec.unique_column col = true ->
    dict_get (data new_row) (col_name col) = Some v ->
    TableOps.check_unique_column (col_name col) v existing = Ok tt.
Proof.
  induction cols as [|c cols IH]; simpl; [intros _ col v []|].
  intros Hok col v [<-|Hin] Hu Hv.
  - unfold Spec.unique_column in Hu. rewrite Hu, Hv in Hok.
    destruct (TableOps.check_unique_column (col_name c) v existing) as [[]|]; [reflexivity|].
    discriminate Hok.
  - apply IH; try assumption.
    destruct (_ || _); [|exact Hok].
    destruct (dict_get (data new_row) (col_name c)) as [v0|]; [|exact Hok].
    destruct (TableOps.check_unique_column (col_name c) v0 existing); [exact Hok|].
    discriminate Hok.
Qed.

(** What a successful insert does, whether the row brought a row id or not. *)
Lemma insert_ok (t t' : Table) (row row' : Row) (v : PyVal) :
  TableOps.insert t row = (t', row', Ok v) ->
  row' = snd (TableOps.assign_row_id t row) /\
  schema t' = schema t /\
  rows t' = rows t ++ [row'] /\
  Schema.validate_row (schema t) row = Ok true /\
  TableOps.check_unique_columns (columns (schema t)) (rows t) row' = Ok tt.
Proof.
  unfold TableOps.insert.
  destruct (Schema.validate_row (schema t) row) as [b|] eqn:Hval; [|discriminate].
  pose proof (assign_row_id_frame t row) as [Hs Hr].
  destruct (TableOps.assign_row_id t row) as [t1 row1]. simpl in Hs, Hr.
  unfold TableOps._check_unique_constraints. rewrite Hs, Hr.
  destruct (TableOps.check_unique_columns _ _ _) as [[]|] eqn:Hu; [|discriminate].
  intros [= <- <- _]. simpl. repeat split; auto.
  unfold Schema.validate_row in Hval.
  destruct (Schema.check_required _ _); [|discriminate].
  destruct (Schema.check_types _ _); [|discriminate].
  simpl in Hval. injection Hval as <-. reflexivity.
Qed.

(** X1. If no two rows of a table collide on a UNIQUE or PRIMARY_KEY
    column, a successful [Table.insert] leaves it so. *)
Theorem insert_keeps_unique (t t' : Table) (row row' : Row) (v : PyVal) :
  TableInv.unique_rows t ->
  TableOps.insert t row = (t', row', Ok v) ->
  TableInv.unique_rows t'.
Proof.
  intros Hinv Hins.
  destruct (insert_ok _ _ _ _ _ Hins) as (_ & Hs & Hr & _ & Hu).
  intros col Hcol Hucol i j ri rj vi vj Hij Hi Hj Hvi Hvj.
  rewrite Hs in Hcol. rewrite Hr in Hi, Hj.
  destruct (decide (j < length (rows t))%nat) as [Hlt|Hge].
  - rewrite lookup_app_l in Hi, Hj by lia.
    exact (Hinv col Hcol Hucol i j ri rj vi vj Hij Hi Hj Hvi Hvj).
  - rewrite lookup_app_r in Hj by lia.
    destruct (j - length (rows t))%nat as [|n] eqn:Hn; [|destruct n; discriminate Hj].
    injection Hj as <-.
    rewrite lookup_app_l in Hi by lia.
    pose proof (check_unique_columns_ok _ _ _ Hu col vj Hcol Hucol Hvj) as Hc.
    eapply check_unique_column_ok; [exact Hc | | exact Hvi].
    apply list_elem_of_In, list_elem_of_lookup. eauto.
Qed.

Lemma insert_keeps_unique_witness :
  TableInv.unique_rows
    (mkTable Scenario.users_schema
       [mkRow [("id", VInt 1); ("name", VStr "a"); ("row_id", VInt 1)];
        mkRow [("id", VInt 2); ("name", VStr "a"); ("row_id", VInt 2)];
        mkRow [("id", VInt 3); ("name", VStr "a"); ("row_id", VInt 3)]] 4).
Proof.
  refine (insert_keeps_unique
            (mkTable Scenario.users_schema
               [mkRow [("id", VInt 1); ("name", VStr "a"); ("row_id", VInt 1)];
                mkRow [("id", VInt 2); ("name", VStr "a"); ("row_id", VInt 2)]] 3)
            _
            (mkRow [("id", VInt 3); ("name", VStr "a")])
            (mkRow [("id", VInt 3); ("name", VStr "a"); ("row_id", VInt 3)])
            (VInt 3) _ _).
  - intros col Hcol Hucol i j ri rj vi vj Hij Hi Hj Hvi Hvj.
    destruct j as [|[|j]]; [lia | | discriminate Hj].
    destruct i as [|i]; [|lia].
    simpl in Hi, Hj. injection Hi as <-. injection Hj as <-.
    destruct Hcol as [<-|[<-|[]]]; [|discriminate Hucol].
    simpl in Hvi, Hvj. injection Hvi as <-. injection Hvj as <-. reflexivity.
  - reflexivity.
Defined.

(** ** Every row keeps an entry for every NOT_NULL column *)

Lemma dict_contains_set (d : dict) (k k' : string) (v : PyVal) :
  dict_contains d k = true -> dict_contains (dict_set d k' v) k = true.
Proof.
  unfold dict_contains. rewrite dict_get_set.
  destruct (String.eqb k' k); [reflexivity | auto].
Qed.

Lemma apply_assignments_contains (a : dict) (row : Row) (k : string) :
  dict_contains (data row) k = true ->
  dict_contains (data (TableOps.apply_assignments a row)) k = true.
Proof.
  unfold TableOps.apply_assignments. revert row.
  induction a as [|[k0 v0] a IH]; intros row H; simpl; [exact H|].
  apply IH. simpl. apply dict_contains_set, H.
Qed.

Lemma check_required_present (s : TableSchema) (row : Row) :
  Schema.check_required (columns s) row = Ok tt -> TableInv.required_present s row.
Proof.
  unfold TableInv.required_present.
  induction (columns s) as [|c cols IH]; simpl; [intros _ col []|].
  destruct (has_constraint NOT_NULL (col_constraints c)) eqn:Hnn; simpl.
  - destruct (dict_contains (data row) (col_name c)) eqn:Hc; simpl; [|discriminate].
    intros Hok col [<-|Hin] Hcol; [exact Hc | eauto].
  - intros Hok col [<-|Hin] Hcol; [congruence | eauto].
Qed.

Lemma validate_row_present (s : TableSchema) (row : Row) (b : bool) :
  Schema.validate_row s row = Ok b -> TableInv.required_present s row.
Proof.
  unfold Schema.validate_row.
  destruct (Schema.check_required (columns s) row) as [[]|] eqn:H; [|discriminate].
  intros _. apply check_required_present, H.
Qed.

(** The rows after [update]: each is the row it was, or that row with the
    assignments applied; this holds when the call raises, too. *)
Lemma update_loop_pointwise (s : TableSchema) (a : dict) (w : option Condition)
    (todo : list Row) (count : Z) :
  Forall2 (fun r r' => r' = r \/ r' = TableOps.apply_assignments a r)
          todo (fst (TableOps.update_loop s a w todo count)).
Proof.
  revert count. induction todo as [|row rest IH]; intros count; simpl; [constructor|].
  assert (Hid : Forall2 (fun r r' => r' = r \/ r' = TableOps.apply_assignments a r) rest rest).
  { clear. induction rest; constructor; auto. }
  destruct (TableOps.selected w row) as [[|]|e].
  - destruct (Schema.validate_row s _).
    + specialize (IH (count + 1)).
      destruct (TableOps.update_loop s a w rest (count + 1)). simpl in *.
      constructor; auto.
    + simpl. constructor; auto.
  - specialize (IH count). destruct (TableOps.update_loop s a w rest count). simpl in *.
    constructor; auto.
  - simpl. constructor; auto.
Qed.

Lemma update_rows_pointwise (t : Table) (a : dict) (w : option Condition) :
  Forall2 (fun r r' => r' = r \/ r' = TableOps.apply_assignments a r)
          (rows t) (rows (fst (TableOps.update t a w))).
Proof.
  unfold TableOps.update.
  pose proof (update_loop_pointwise (schema t) a w (rows t) 0) as H.
  destruct (TableOps.update_loop _ _ _ _ _). exact H.
Qed.

Lemma update_schema (t : Table) (a : dict) (w : option Condition) :
  schema (fst (TableOps.update t a w)) = schema t.
Proof.
  unfold TableOps.update. destruct (TableOps.update_loop _ _ _ _ _). reflexivity.
Qed.

Lemma reject_matching_kept (c : Condition) (rs kept : list Row) :
  TableOps.reject_matching c rs = Ok kept ->
  kept = List.filter (fun r => negb (UpdateSpec.touched (Some c) r)) rs /\
  Forall (fun r => exists b, TableOps._matches_condition r c = Ok b) rs.
Proof.
  revert kept. induction rs as [|r rs IH]; intros kept; simpl.
  - intros [= <-]. auto.
  - unfold UpdateSpec.touched. simpl.
    destruct (TableOps._matches_condition r c) as [m|] eqn:Hm; cbn; [|discriminate].
    destruct (TableOps.reject_matching c rs) as [kept0|]; cbn; [|discriminate].
    destruct (IH kept0 eq_refl) as [-> Hall].
    intros [= <-]. split; [destruct m; reflexivity|]. constructor; eauto.
Qed.

Lemma delete_schema (t : Table) (w : option Condition) :
  schema (fst (TableOps.delete t w)) = schema t.
Proof.
  unfold TableOps.delete. destruct w as [c|]; [|reflexivity].
  destruct (TableOps.reject_matching c (rows t)); reflexivity.
Qed.

Lemma step_schema (t : Table) (op : RowIdSpec.TableOp) :
  schema (fst (RowIdSpec.step t op)) = schema t.
Proof.
  destruct op as [row|a w|w]; simpl.
  - unfold TableOps.insert.
    pose proof (assign_row_id_frame t row) as [Hs _].
    destruct (Schema.validate_row _ _); [|reflexivity].
    destruct (TableOps.assign_row_id t row) as [t1 row1]. simpl in Hs.
    destruct (TableOps._check_unique_constraints t1 row1); simpl; exact Hs.
  - apply update_schema.
  - apply delete_schema.
Qed.

Lemma step_keeps_not_null (t : Table) (op : RowIdSpec.TableOp) :
  TableInv.not_null_rows t -> TableInv.not_null_rows (fst (RowIdSpec.step t op)).
Proof.
  unfold TableInv.not_null_rows. intros Hinv. rewrite step_schema.
  destruct op as [row|a w|w]; simpl.
  - unfold TableOps.insert.
    destruct (Schema.validate_row (schema t) row) as [b|] eqn:Hval; [|exact Hinv].
    pose proof (validate_row_present _ _ _ Hval) as Hrow.
    unfold TableOps.assign_row_id.
    destruct (dict_contains (data row) "row_id"); simpl.
    + destruct (TableOps._check_unique_constraints t row); simpl; [|exact Hinv].
      apply Forall_app. split; [exact Hinv | constructor; [exact Hrow | constructor]].
    + destruct (TableOps._check_unique_constraints _ _); simpl; [|exact Hinv].
      apply Forall_app. split; [exact Hinv|]. constructor; [|constructor].
      intros col Hcol Hnn. apply dict_contains_set. exact (Hrow col Hcol Hnn).
  - pose proof (update_rows_pointwise t a w) as H.
    induction H as [|r r' rs rs' [->| ->] _ IH]; [constructor| |].
    + inversion Hinv; subst. constructor; auto.
    + inversion Hinv as [|? ? Hr Hrs]; subst. constructor; [|auto].
      intros col Hcol Hnn. apply apply_assignments_contains. exact (Hr col Hcol Hnn).
  - unfold TableOps.delete. destruct w as [c|]; simpl; [|constructor].
    destruct (TableOps.reject_matching c (rows t)) as [kept|] eqn:Hk; simpl; [|exact Hinv].
    destruct (reject_matching_kept _ _ _ Hk) as [-> _].
    clear Hk. induction Hinv as [|r rs Hr _ IH]; simpl; [constructor|].
    destruct (negb _); [constructor|]; auto.
Qed.

(** X2. A table in which every row has an entry for every NOT_NULL column
    stays so under any sequence of inserts, updates and deletes, whether
    they complete or raise: [insert] checks the new row, and [update]
    writes entries but never removes one. *)
Theorem not_null_columns_stay_present (t : Table) (ops : list RowIdSpec.TableOp) :
  TableInv.not_null_rows t ->
  TableInv.not_null_rows (fst (RowIdSpec.run t ops)).
Proof.
  revert t. induction ops as [|op ops IH]; intros t Hinv; simpl; [exact Hinv|].
  pose proof (step_keeps_not_null t op Hinv) as Hstep.
  destruct (RowIdSpec.step t op) as [t1 ids1]. simpl in Hstep.
  specialize (IH t1 Hstep). destruct (RowIdSpec.run t1 ops) as [t2 ids2]. exact IH.
Qed.

Lemma not_null_columns_stay_present_witness :
  TableInv.not_null_rows
    (fst (RowIdSpec.run (TableOps.new Scenario.users_schema)
            [RowIdSpec.OpInsert (mkRow [("id", VInt 1); ("name", VStr "a")]);
             RowIdSpec.OpInsert (mkRow [("id", VInt 2)]);
             RowIdSpec.OpUpdate [("name", VInt 7)] None])).
Proof.
  refine (not_null_columns_stay_present (TableOps.new Scenario.users_schema) _ _).
  constructor.
Defined.

(** ** What [update] leaves alone *)

Lemma apply_assignments_other (a : dict) (row : Row) (k : string) :
  dict_get a k = None ->
  dict_get (data (TableOps.apply_assignments a row)) k = dict_get (data row) k.
Proof.
  unfold TableOps.apply_assignments. revert row.
  induction a as [|[k0 v0] a IH]; intros row Hk; simpl in *; [reflexivity|].
  destruct (String.eqb_spec k0 k) as [->|Hne]; [discriminate|].
  rewrite IH by exact Hk. simpl. apply dict_get_set_ne, Hne.
Qed.

Lemma dict_get_not_key (d : dict) (k : string) : ~ In k (dict_keys d) -> dict_get d k = None.
Proof.
  induction d as [|[k0 v0] d IH]; simpl; [reflexivity|]. intros Hnot.
  destruct (String.eqb_spec k0 k) as [->|_]; [exfalso; auto | apply IH; auto].
Qed.

Lemma apply_assignments_assigned (a : dict) (row : Row) (k : string) (v : PyVal) :
  NoDup (dict_keys a) -> dict_get a k = Some v ->
  dict_get (data (TableOps.apply_assignments a row)) k = Some v.
Proof.
  unfold TableOps.apply_assignments. revert row.
  induction a as [|[k0 v0] a IH]; intros row Hnd Hk; simpl in *; [discriminate|].
  apply NoDup_cons in Hnd as [Hfresh Hnd].
  destruct (String.eqb_spec k0 k) as [->|Hne].
  - injection Hk as ->.
    pose proof (apply_assignments_other a (RowOps.set row k v) k) as Hother.
    unfold TableOps.apply_assignments in Hother. rewrite Hother.
    + simpl. apply dict_get_set_eq.
    + apply dict_get_not_key. intros Hin. apply Hfresh, list_elem_of_In, Hin.
  - apply IH; assumption.
Qed.

(** X3. [Table.update], whether it completes or raises, keeps the schema,
    the counter, the number of rows and their order; each row is as it was
    or has the assignments applied; and applying the assignments changes
    no column that is not assigned and gives every assigned column its
    assigned value. *)
Theorem update_frame (t : Table) (a : dict) (w : option Condition) :
  let t' := fst (TableOps.update t a w) in
  schema t' = schema t /\
  next_row_id t' = next_row_id t /\
  Forall2 (fun r r' => r' = r \/ r' = TableOps.apply_assignments a r) (rows t) (rows t') /\
  (forall r k, dict_get a k = None ->
     dict_get (data (TableOps.apply_assignments a r)) k = dict_get (data r) k) /\
  (forall r k v, NoDup (dict_keys a) -> dict_get a k = Some v ->
     dict_get (data (TableOps.apply_assignments a r)) k = Some v).
Proof.
  cbv zeta. split; [apply update_schema|]. split; [apply update_next_row_id|].
  split; [apply update_rows_pointwise|]. split.
  - intros r k. apply apply_assignments_other.
  - intros r k v. apply apply_assignments_assigned.
Qed.

Lemma update_frame_witness :
  dict_get (data (TableOps.apply_assignments [("name", VStr "z"); ("age", VInt 3)]
                    (mkRow [("id", VInt 1); ("name", VStr "a"); ("row_id", VInt 1)])))
           "age" = Some (VInt 3).
Proof.
  refine (proj2 (proj2 (proj2 (proj2
            (update_frame (TableOps.new Scenario.users_schema)
               [("name", VStr "z"); ("age", VInt 3)] None)))) _ "age" (VInt 3) _ _).
  - repeat constructor; rewrite ?elem_of_cons, ?elem_of_nil; intuition discriminate.
  - reflexivity.
Defined.

(** ** [delete] *)




(** ** Projection *)

Lemma project_get (d : dict) (cols : list string) (acc : dict) (k : string) :
  dict_get (TableOps.project d cols acc) k
  = if TableInv.mentions cols k && dict_contains d k then dict_get d k else dict_get acc k.
Proof.
  revert acc. induction cols as [|c cols IH]; intros acc; simpl; [reflexivity|].
  unfold dict_contains in *.
  destruct (dict_get d c) as [v|] eqn:Hc; rewrite IH; clear IH.
  - destruct (String.eqb_spec k c) as [->|Hne]; simpl.
    + rewrite Hc. destruct (TableInv.mentions cols c); simpl; [reflexivity|].
      apply dict_get_set_eq.
    + destruct (TableInv.mentions cols k && _); [reflexivity|].
      apply dict_get_set_ne. congruence.
  - destruct (String.eqb_spec k c) as [->|Hne]; simpl; [|reflexivity].
    rewrite Hc. rewrite andb_false_r. reflexivity.
Qed.

(** X5. A column list with the wildcard, or no list, selects the rows
    whole. Otherwise [Table.select] gives, row by row and in order, a row
    with the requested columns the stored row has, each with its stored
    value, and nothing else: a name the row does not have is left out
    without an error. The final projection of [Database._execute_select]
    and [QueryExecutor._format_results] do the same. *)
Theorem projection_keeps_requested_columns (t : Table) (cols : list string) :
  TableOps.select t None = rows t /\
  (TableOps.has_star cols = true -> TableOps.select t (Some cols) = rows t) /\
  (TableOps.has_star cols = false ->
   Forall2 (fun r r' => forall k,
              dict_get (data r') k
              = if TableInv.mentions cols k then dict_get (data r) k else None)
           (rows t) (TableOps.select t (Some cols))) /\
  (forall row k,
     dict_get (DatabaseOps.format_row cols row) k
     = if TableOps.has_star cols || TableInv.mentions cols k
       then dict_get (data row) k else None) /\
  (forall rs, QueryExecutor._format_results rs cols = map (DatabaseOps.format_row cols) rs).
Proof.
  assert (Hproj : forall d k,
            dict_get (TableOps.project d cols []) k
            = if TableInv.mentions cols k then dict_get d k else None).
  { intros d k. rewrite project_get. unfold dict_contains.
    destruct (TableInv.mentions cols k); simpl; [|reflexivity].
    destruct (dict_get d k); reflexivity. }
  split; [apply select_all|]. split; [|split; [|split]].
  - intros Hstar. unfold TableOps.select. rewrite Hstar. apply (select_all t).
  - intros Hstar. unfold TableOps.select. rewrite Hstar.
    induction (rows t) as [|r rs IH]; simpl; constructor; [|exact IH].
    intros k. simpl. apply Hproj.
  - intros row k. unfold DatabaseOps.format_row.
    destruct (TableOps.has_star cols); simpl; [reflexivity | apply Hproj].
  - reflexivity.
Qed.

Lemma projection_keeps_requested_columns_witness :
  Forall2 (fun r r' => forall k,
             dict_get (data r') k
             = if TableInv.mentions ["name"; "age"] k then dict_get (data r) k else None)
          [mkRow [("id", VInt 1); ("name", VStr "a"); ("row_id", VInt 1)]]
          (TableOps.select
             (mkTable Scenario.users_schema
                [mkRow [("id", VInt 1); ("name", VStr "a"); ("row_id", VInt 1)]] 2)
             (Some ["name"; "age"])).
Proof.
  refine (proj1 (proj2 (proj2
            (projection_keeps_requested_columns
               (mkTable Scenario.users_schema
                  [mkRow [("id", VInt 1); ("name", VStr "a"); ("row_id", VInt 1)]] 2)
               ["name"; "age"]))) _).
  reflexivity.
Defined.

(** * Further properties of the B-tree *)

(** ** Key comparison *)

Lemma compare_keys_order (a b : PyVal) :
  BTree._compare_keys a b
  = match py_order a b with
    | Ok c => Ok (OrderSpec.of_comparison c)
    | Raise e => Raise e
    end.
Proof.
  unfold BTree._compare_keys, py_lt, py_gt.
  destruct (py_order a b) as [[| |]|]; reflexivity.
Qed.

Lemma py_order_flip (a b : PyVal) (c : comparison) :
  py_order a b = Ok c -> py_order b a = Ok (CompOpp c).
Proof.
  unfold py_order.
  destruct (num_of a) as [x|] eqn:Ha, (num_of b) as [y|] eqn:Hb; try discriminate.
  - intros [= <-]. rewrite Qcompare_antisym. reflexivity.
  - destruct a, b; try discriminate. intros [= <-].
    f_equal. apply String.compare_antisym.
Qed.

Lemma string_compare_refl (s : string) : String.compare s s = Eq.
Proof.
  induction s as [|c s IH]; simpl; [reflexivity|].
  unfold Ascii.compare. rewrite N.compare_refl. exact IH.
Qed.

Lemma py_order_eq (a b : PyVal) (c : comparison) :
  py_order a b = Ok c -> (c = Eq <-> py_eq a b = true).
Proof.
  unfold py_order, py_eq.
  destruct (num_of a) as [x|] eqn:Ha, (num_of b) as [y|] eqn:Hb; try discriminate.
  - intros [= <-]. rewrite <- Qeq_alt, Qeq_bool_iff. reflexivity.
  - destruct a, b; try discriminate. intros [= <-].
    split; intros H.
    + apply String.eqb_eq, String.compare_eq_iff, H.
    + apply String.eqb_eq in H. subst s0. apply string_compare_refl.
Qed.

(** X6. [_compare_keys] raises TypeError exactly on the pairs that are
    not two numbers (booleans included) or two strings. On the others it
    returns an order that is the mirror image of the order of the swapped
    pair, and it returns EQ exactly when the two keys are [==]. *)
Theorem compare_keys_consistent (a b : PyVal) :
  (PredicateSpec.orderable a b = false -> BTree._compare_keys a b = Raise TypeError)
  /\
  (PredicateSpec.orderable a b = true ->
   exists o, BTree._compare_keys a b = Ok o /\
             BTree._compare_keys b a = Ok (OrderSpec.flip o) /\
             (o = BTree.EQ <-> py_eq a b = true)).
Proof.
  rewrite !compare_keys_order. split.
  - intros H. rewrite (py_order_not_orderable a b H). reflexivity.
  - intros H. destruct (py_order_orderable a b H) as [c Hc].
    rewrite Hc, (py_order_flip a b c Hc).
    exists (OrderSpec.of_comparison c). split; [reflexivity|]. split.
    + destruct c; reflexivity.
    + rewrite <- (py_order_eq a b c Hc). destruct c; simpl; split; congruence.
Qed.

Lemma compare_keys_consistent_witness :
  exists o, BTree._compare_keys (VInt 2) (VBool true) = Ok o /\
            BTree._compare_keys (VBool true) (VInt 2) = Ok (OrderSpec.flip o) /\
            (o = BTree.EQ <-> py_eq (VInt 2) (VBool true) = true).
Proof.
  refine (proj2 (compare_keys_consistent (VInt 2) (VBool true)) _).
  reflexivity.
Defined.

(** ** Splitting a full child *)

(** X7. [_split_child] on a child with [2t-1] keys does not raise. The
    median key goes into the parent at the child's position, the child
    keeps the [t-1] keys before it and a new right sibling, placed after
    the child, gets the [t-1] keys after it. An internal child hands the
    children from position [t] on to the sibling; a leaf keeps all its
    buckets and the sibling starts without any. The other keys and
    children of the parent keep their order. *)
Theorem split_child_full (order : Z) (pkeys : list PyVal) (pchildren : list BTree.Slot)
    (pleaf : bool) (i : nat) (ckeys : list PyVal) (cchildren : list BTree.Slot) (cleaf : bool) :
  pchildren !! i = Some (BTree.SNode ckeys cchildren cleaf) ->
  Z.of_nat (length ckeys) = 2 * order - 1 ->
  exists left_keys median right_keys,
    ckeys = left_keys ++ median :: right_keys /\
    Z.of_nat (length left_keys) = order - 1 /\
    Z.of_nat (length right_keys) = order - 1 /\
    BTree._split_child order (BTree.SNode pkeys pchildren pleaf) i
    = Ok (BTree.SNode
            (take i pkeys ++ median :: drop i pkeys)
            (take i pchildren
             ++ BTree.SNode left_keys
                  (if cleaf then cchildren else take (Z.to_nat order) cchildren) cleaf
             :: BTree.SNode right_keys
                  (if cleaf then [] else drop (Z.to_nat order) cchildren) cleaf
             :: drop (S i) pchildren)
            pleaf).
Proof.
  intros Hchild Hfull.
  assert (Horder : 1 <= order) by lia.
  assert (Hlt : (Z.to_nat (order - 1) < length ckeys)%nat) by lia.
  destruct (lookup_lt_is_Some_2 ckeys _ Hlt) as [median Hmed].
  exists (take (Z.to_nat (order - 1)) ckeys), median, (drop (Z.to_nat order) ckeys).
  assert (Hsucc : Z.to_nat order = S (Z.to_nat (order - 1))) by lia.
  split; [|split; [|split]].
  - rewrite Hsucc. symmetry. apply take_drop_middle, Hmed.
  - rewrite length_take. lia.
  - rewrite length_drop. lia.
  - unfold BTree._split_child. rewrite Hchild.
    unfold BTree.py_index, BTree.py_slice_from, BTree.py_slice_to, BTree.slice_bound.
    destruct (Z.leb_spec 0 (order - 1)); [|lia].
    destruct (Z.leb_spec 0 order); [|lia].
    rewrite Hmed. f_equal. unfold BTree.list_insert_at. f_equal.
    assert (Hi : (i < length pchildren)%nat) by (eapply lookup_lt_Some, Hchild).
    rewrite take_insert_lt by lia.
    rewrite drop_insert_lt by lia.
    rewrite (take_S_r _ _ _ Hchild).
    rewrite insert_app_r_alt by (rewrite length_take; lia).
    rewrite length_take. replace (i - i `min` length pchildren)%nat with O by lia.
    simpl. rewrite <- app_assoc. reflexivity.
Qed.

Lemma split_child_full_witness :
  exists left_keys median right_keys,
    [VInt 1; VInt 2; VInt 3] = left_keys ++ median :: right_keys /\
    Z.of_nat (length left_keys) = 2 - 1 /\
    Z.of_nat (length right_keys) = 2 - 1 /\
    BTree._split_child 2
      (BTree.SNode [] [BTree.SNode [VInt 1; VInt 2; VInt 3]
                         [BTree.SBucket [VInt 10]; BTree.SBucket [VInt 20];
                          BTree.SBucket [VInt 30]] true] false) 0
    = Ok (BTree.SNode
            (take 0 [] ++ median :: drop 0 [])
            (take 0 [BTree.SNode [VInt 1; VInt 2; VInt 3]
                       [BTree.SBucket [VInt 10]; BTree.SBucket [VInt 20];
                        BTree.SBucket [VInt 30]] true]
             ++ BTree.SNode left_keys
                  [BTree.SBucket [VInt 10]; BTree.SBucket [VInt 20];
                   BTree.SBucket [VInt 30]] true
             :: BTree.SNode right_keys [] true
             :: drop 1 [BTree.SNode [VInt 1; VInt 2; VInt 3]
                          [BTree.SBucket [VInt 10]; BTree.SBucket [VInt 20];
                           BTree.SBucket [VInt 30]] true])
            false).
Proof.
  refine (split_child_full 2 []
            [BTree.SNode [VInt 1; VInt 2; VInt 3]
               [BTree.SBucket [VInt 10]; BTree.SBucket [VInt 20];
                BTree.SBucket [VInt 30]] true]
            false 0 [VInt 1; VInt 2; VInt 3]
            [BTree.SBucket [VInt 10]; BTree.SBucket [VInt 20]; BTree.SBucket [VInt 30]]
            true _ _).
  - reflexivity.
  - reflexivity.
Defined.

(** ** A new largest key in a root leaf *)

Lemma leaf_shift_largest (keys : list PyVal) (children : list BTree.Slot) (key : PyVal) :
  length children = length keys ->
  Forall (fun k => BTree._compare_keys key k = Ok BTree.GT) keys ->
  BTree.leaf_shift key (keys ++ [VNone]) (children ++ [BTree.SNone]) (length keys)
  = (keys ++ [VNone], children ++ [BTree.SNone], Ok (length keys)).
Proof.
  intros Haligned Hlargest.
  destruct (length keys) as [|n] eqn:Hlen; [reflexivity|].
  cbn [BTree.leaf_shift].
  assert (Hn : exists kn, keys !! n = Some kn)
    by (apply lookup_lt_is_Some_2; lia).
  destruct Hn as [kn Hkn].
  rewrite lookup_app_l by lia. rewrite Hkn.
  rewrite List.Forall_forall in Hlargest.
  rewrite (Hlargest kn) by (apply list_elem_of_In, list_elem_of_lookup; eauto).
  reflexivity.
Qed.

Lemma leaf_insert_largest (keys : list PyVal) (children : list BTree.Slot) (key value : PyVal) :
  length children = length keys ->
  Forall (fun k => BTree._compare_keys key k = Ok BTree.GT) keys ->
  BTree.leaf_insert keys children key value
  = (keys ++ [key], children ++ [BTree.SBucket [value]], Ok tt).
Proof.
  intros Haligned Hlargest.
  unfold BTree.leaf_insert.
  rewrite (leaf_shift_largest keys children key Haligned Hlargest).
  rewrite lookup_app_r by lia. rewrite Haligned, Nat.sub_diag. cbn [lookup list_lookup].
  rewrite (insert_app_r_alt keys) by lia.
  rewrite <- Haligned.
  rewrite (insert_app_r_alt children) by lia.
  rewrite !Nat.sub_diag. reflexivity.
Qed.

Lemma search_pos_largest (keys : list PyVal) (key : PyVal) (i : nat) :
  Forall (fun k => BTree._compare_keys key k = Ok BTree.GT) keys ->
  PredicateSpec.orderable key key = true ->
  BTree.search_pos key (keys ++ [key]) i = Ok (i + length keys)%nat.
Proof.
  intros Hlargest Hself. revert i.
  induction Hlargest as [|k ks Hk _ IH]; intros i.
  - cbn. rewrite (compare_keys_refl key Hself). cbn. f_equal. lia.
  - cbn [app BTree.search_pos]. rewrite Hk. cbn. rewrite IH. f_equal. simpl. lia.
Qed.

Lemma key_at_largest (keys : list PyVal) (key : PyVal) :
  PredicateSpec.orderable key key = true ->
  BTree.key_at key (keys ++ [key]) (length keys) = Ok true.
Proof.
  intros Hself.
  unfold BTree.key_at. rewrite lookup_app_r by lia. rewrite Nat.sub_diag. cbn.
  rewrite (compare_keys_refl key Hself). reflexivity.
Qed.

(** X8. On an index whose root is a leaf with room and one bucket per
    key, inserting a key that compares greater than every key of the root
    appends it with the bucket of the one row id; [search] for it then
    returns that bucket, and [delete] of it returns True and gives back
    the index as it was before the insert. *)
Theorem insert_largest_key (idx : BTree.BTreeIndex) (keys : list PyVal)
    (children : list BTree.Slot) (key value : PyVal) :
  BTree.root idx = BTree.SNode keys children true ->
  length children = length keys ->
  Z.of_nat (length keys) <> 2 * BTree.order idx - 1 ->
  Forall (fun k => BTree._compare_keys key k = Ok BTree.GT) keys ->
  PredicateSpec.orderable key key = true ->
  let idx' := BTree.mkBTreeIndex (BTree.order idx)
                (BTree.SNode (keys ++ [key]) (children ++ [BTree.SBucket [value]]) true) in
  BTree.insert idx key value = (idx', Ok tt) /\
  BTree.search idx' key = Ok (BTree.SBucket [value]) /\
  BTree.delete idx' key = (idx, Ok true).
Proof.
  intros Hroot Haligned Hroom Hlargest Hself. cbv zeta. split; [|split].
  - rewrite (insert_root_leaf idx keys children key value Hroot Hroom).
    rewrite (leaf_insert_largest keys children key value Haligned Hlargest).
    reflexivity.
  - unfold BTree.search. cbn [BTree.root BTree._search].
    rewrite (search_pos_largest keys key 0 Hlargest Hself). cbn [mbind result_bind plus].
    rewrite (key_at_largest keys key Hself). cbn [mbind result_bind].
    rewrite lookup_app_r by lia. rewrite Haligned, Nat.sub_diag. reflexivity.
  - unfold BTree.delete. cbn [BTree.root BTree._delete].
    rewrite (search_pos_largest keys key 0 Hlargest Hself). cbn [plus].
    rewrite (key_at_largest keys key Hself).
    destruct (decide _) as [_|Hn]; [|rewrite length_app in Hn; simpl in Hn; lia].
    unfold BTree.list_del.
    rewrite (take_app_length' keys [key] (length keys)) by lia.
    rewrite (take_app_length' children [BTree.SBucket [value]] (length keys)) by lia.
    rewrite !drop_ge by (rewrite length_app; simpl; lia).
    rewrite !app_nil_r.
    destruct idx as [o r]. simpl in *. subst r. reflexivity.
Qed.

Lemma insert_largest_key_witness :
  let idx := BTree.mkBTreeIndex 4 (BTree.SNode [VInt 1] [BTree.SBucket [VInt 10]] true) in
  let idx' := BTree.mkBTreeIndex 4
                (BTree.SNode ([VInt 1] ++ [VFloat (5 # 2)])
                   ([BTree.SBucket [VInt 10]] ++ [BTree.SBucket [VInt 20]]) true) in
  BTree.insert idx (VFloat (5 # 2)) (VInt 20) = (idx', Ok tt) /\
  BTree.search idx' (VFloat (5 # 2)) = Ok (BTree.SBucket [VInt 20]) /\
  BTree.delete idx' (VFloat (5 # 2)) = (idx, Ok true).
Proof.
  refine (insert_largest_key
            (BTree.mkBTreeIndex 4 (BTree.SNode [VInt 1] [BTree.SBucket [VInt 10]] true))
            [VInt 1] [BTree.SBucket [VInt 10]] (VFloat (5 # 2)) (VInt 20) _ _ _ _ _).
  - reflexivity.
  - reflexivity.
  - discriminate.
  - constructor; [reflexivity | constructor].
  - reflexivity.
Defined.

(** ** Deleting a key that is not there *)

Lemma Slot_nested_ind (P : BTree.Slot -> Prop) :
  P BTree.SNone ->
  (forall values, P (BTree.SBucket values)) ->
  (forall keys children is_leaf, Forall P children -> P (BTree.SNode keys children is_leaf)) ->
  forall s, P s.
Proof.
  intros HN HB HS. fix IH 1. intros [|values|keys children is_leaf].
  - exact HN.
  - apply HB.
  - apply HS. induction children as [|c cs IHcs]; constructor; [apply IH | exact IHcs].
Qed.

(** X9. Whatever the shape of the tree, a [delete] that returns False has
    changed nothing. *)
Theorem delete_missing_changes_nothing (idx idx' : BTree.BTreeIndex) (key : PyVal) :
  BTree.delete idx key = (idx', Ok false) -> idx' = idx.
Proof.
  assert (Hnode : forall node node',
            BTree._delete node key = (node', Ok false) -> node' = node).
  { intros node. induction node as [|values|keys children is_leaf IH] using Slot_nested_ind;
      intros node'; cbn [BTree._delete]; try discriminate.
    destruct (BTree.search_pos key keys 0) as [i|]; [|discriminate].
    destruct (BTree.key_at key keys i) as [[|]|]; try discriminate.
    - destruct is_leaf; destruct (decide _); discriminate.
    - destruct is_leaf; [intros [= <-]; reflexivity|].
      match goal with |- context [?f children i] => set (at_child := f) end.
      assert (Hat : forall cs n cs', Forall (fun c => forall c', BTree._delete c key = (c', Ok false) -> c' = c) cs ->
                      at_child cs n = (cs', Ok false) -> cs' = cs).
      { clear. intros cs. induction cs as [|c cs IHcs]; intros n cs' Hall; simpl; [discriminate|].
        apply Forall_cons in Hall as [Hc Hcs].
        destruct n as [|n].
        - destruct (BTree._delete c key) as [c0 r] eqn:Hd. intros [= <- ->].
          rewrite (Hc c0 eq_refl). reflexivity.
        - specialize (IHcs n). destruct (at_child cs n) as [rest r].
          intros [= <- ->]. rewrite (IHcs rest Hcs eq_refl). reflexivity. }
      specialize (Hat children i). destruct (at_child children i) as [cs r].
      intros [= <- ->]. rewrite (Hat cs IH eq_refl). reflexivity. }
  unfold BTree.delete. destruct (BTree._delete (BTree.root idx) key) as [r res] eqn:Hd.
  intros [= <- ->]. rewrite (Hnode _ _ Hd). destruct idx. reflexivity.
Qed.

Lemma delete_missing_changes_nothing_witness :
  fst (BTree.delete
         (BTree.mkBTreeIndex 4
            (BTree.SNode [VInt 4]
               [BTree.SNode [VInt 1; VInt 3]
                  [BTree.SBucket [VInt 10]; BTree.SBucket [VInt 30]] true;
                BTree.SNode [VInt 5] [BTree.SBucket [VInt 50]] true] false))
         (VInt 2))
  = BTree.mkBTreeIndex 4
      (BTree.SNode [VInt 4]
         [BTree.SNode [VInt 1; VInt 3]
            [BTree.SBucket [VInt 10]; BTree.SBucket [VInt 30]] true;
          BTree.SNode [VInt 5] [BTree.SBucket [VInt 50]] true] false).
Proof.
  refine (delete_missing_changes_nothing
            (BTree.mkBTreeIndex 4
               (BTree.SNode [VInt 4]
                  [BTree.SNode [VInt 1; VInt 3]
                     [BTree.SBucket [VInt 10]; BTree.SBucket [VInt 30]] true;
                   BTree.SNode [VInt 5] [BTree.SBucket [VInt 50]] true] false))
            _ (VInt 2) _).
  reflexivity.
Defined.

(** * The index manager: what its registry keeps *)

Lemma remove_first_In (n m : string) (names : list string) :
  In m (IndexManagerOps.remove_first n names) -> In m names.
Proof.
  induction names as [|a names IH]; simpl; [tauto|].
  destruct (String.eqb a n); simpl; tauto.
Qed.

Lemma remove_first_NoDup (n : string) (names : list string) :
  NoDup names -> NoDup (IndexManagerOps.remove_first n names).
Proof.
  induction names as [|a names IH]; simpl; intros Hnd; [constructor|].
  apply NoDup_cons in Hnd as [Ha Hnd].
  destruct (String.eqb a n); [exact Hnd|].
  apply NoDup_cons. split; [|exact (IH Hnd)].
  intros Hin. apply Ha, list_elem_of_In, (remove_first_In n).
  apply list_elem_of_In. exact Hin.
Qed.

Lemma remove_first_other (n m : string) (names : list string) :
  m <> n -> In m names -> In m (IndexManagerOps.remove_first n names).
Proof.
  intros Hne. induction names as [|a names IH]; simpl; [tauto|].
  destruct (String.eqb_spec a n) as [->|Hna]; simpl; intros [->|Hin]; tauto.
Qed.

Lemma remove_first_gone (n : string) (names : list string) :
  NoDup names -> ~ In n (IndexManagerOps.remove_first n names).
Proof.
  induction names as [|a names IH]; simpl; intros Hnd; [tauto|].
  apply NoDup_cons in Hnd as [Ha Hnd].
  destruct (String.eqb_spec a n) as [->|Hna].
  - intros Hin. apply Ha, list_elem_of_In. exact Hin.
  - simpl. intros [Heq|Hin]; [exact (Hna Heq) | exact (IH Hnd Hin)].
Qed.

Lemma remove_first_absent (n : string) (names : list string) :
  ~ In n names -> IndexManagerOps.remove_first n names = names.
Proof.
  induction names as [|a names IH]; simpl; intros Hn; [reflexivity|].
  destruct (String.eqb_spec a n) as [->|Hna]; [tauto|].
  f_equal. apply IH. tauto.
Qed.

Lemma remove_first_last (n : string) (names : list string) :
  ~ In n names -> IndexManagerOps.remove_first n (names ++ [n]) = names.
Proof.
  induction names as [|a names IH]; simpl; intros Hn.
  - rewrite String.eqb_refl. reflexivity.
  - destruct (String.eqb_spec a n) as [->|Hna]; [tauto|].
    f_equal. apply IH. tauto.
Qed.

(** The lists of a manager after [create_index] and after [drop_index]. *)
Lemma create_index_lists (im : IndexManager) (n t c t' : string) :
  indexes im !! n = None ->
  IndexManagerOps.get_table_indexes (fst (IndexManagerOps.create_index im n t c)) t'
  = if decide (t = t') then IndexManagerOps.get_table_indexes im t ++ [n]
    else IndexManagerOps.get_table_indexes im t'.
Proof.
  intros Hn. unfold IndexManagerOps.create_index. rewrite Hn. simpl.
  unfold IndexManagerOps.get_table_indexes. simpl.
  rewrite lookup_insert. destruct (decide (t = t')); reflexivity.
Qed.

Lemma drop_index_lists (im : IndexManager) (n t' : string) :
  is_Some (indexes im !! n) ->
  IndexManagerOps.get_table_indexes (fst (IndexManagerOps.drop_index im n)) t'
  = IndexManagerOps.remove_first n (IndexManagerOps.get_table_indexes im t').
Proof.
  intros [ix Hn]. unfold IndexManagerOps.drop_index. rewrite Hn. simpl.
  unfold IndexManagerOps.get_table_indexes. simpl.
  rewrite lookup_fmap. destruct (table_indexes im !! t'); reflexivity.
Qed.

Lemma create_index_well_formed (im : IndexManager) (n t c : string) :
  IndexInv.well_formed im ->
  IndexInv.well_formed (fst (IndexManagerOps.create_index im n t c)).
Proof.
  intros (Hnd & Hex & Hlisted & Hone).
  destruct (indexes im !! n) as [ix|] eqn:Hn.
  { unfold IndexManagerOps.create_index. rewrite Hn. simpl.
    exact (conj Hnd (conj Hex (conj Hlisted Hone))). }
  assert (Hfresh : forall t', ~ IndexInv.listed_under im t' n).
  { intros t' Hin. destruct (Hex t' n Hin) as [ix Hix]. congruence. }
  assert (Hix : indexes (fst (IndexManagerOps.create_index im n t c))
                = <[n := BTree.new_index 4]> (indexes im)).
  { unfold IndexManagerOps.create_index. rewrite Hn. reflexivity. }
  unfold IndexInv.well_formed, IndexInv.listed_under.
  rewrite Hix. refine (conj _ (conj _ (conj _ _))).
  - intros t'. rewrite create_index_lists by exact Hn.
    destruct (decide (t = t')); [|apply Hnd].
    apply NoDup_app. split; [apply Hnd|]. split; [|apply NoDup_singleton].
    intros m Hm Hm'. apply list_elem_of_In in Hm. apply list_elem_of_In in Hm'.
    destruct Hm' as [<-|[]]. exact (Hfresh t Hm).
  - intros t' m. rewrite create_index_lists by exact Hn.
    rewrite lookup_insert_is_Some'.
    destruct (decide (t = t')) as [<-|_].
    + rewrite in_app_iff. intros [Hm|[<-|[]]]; [right; exact (Hex t m Hm) | left; reflexivity].
    + intros Hm. right. exact (Hex t' m Hm).
  - intros m. rewrite lookup_insert_is_Some'. intros [<-|Hm].
    + exists t. rewrite create_index_lists by exact Hn.
      rewrite decide_True by reflexivity. apply in_app_iff. right. left. reflexivity.
    + destruct (Hlisted m Hm) as [t' Ht']. exists t'.
      rewrite create_index_lists by exact Hn.
      destruct (decide (t = t')) as [<-|_]; [apply in_app_iff; left|]; exact Ht'.
  - assert (Hold : forall t' m,
               In m (IndexManagerOps.get_table_indexes
                       (fst (IndexManagerOps.create_index im n t c)) t') ->
               (m = n /\ t' = t) \/ (m <> n /\ IndexInv.listed_under im t' m)).
    { intros t' m. rewrite create_index_lists by exact Hn.
      destruct (decide (t = t')) as [<-|_].
      - rewrite in_app_iff. intros [Hm|[<-|[]]]; [|left; split; reflexivity].
        right. split; [|exact Hm]. intros ->. exact (Hfresh t Hm).
      - intros Hm. right. split; [|exact Hm]. intros ->. exact (Hfresh t' Hm). }
    intros t1 t2 m H1 H2.
    destruct (Hold t1 m H1) as [[Hm1 Ht1]|[Hne1 Hl1]];
      destruct (Hold t2 m H2) as [[Hm2 Ht2]|[Hne2 Hl2]];
      try congruence.
    exact (Hone t1 t2 m Hl1 Hl2).
Qed.

Lemma drop_index_well_formed (im : IndexManager) (n : string) :
  IndexInv.well_formed im ->
  IndexInv.well_formed (fst (IndexManagerOps.drop_index im n)).
Proof.
  intros (Hnd & Hex & Hlisted & Hone).
  destruct (indexes im !! n) as [ix|] eqn:Hn.
  2:{ unfold IndexManagerOps.drop_index. rewrite Hn. simpl.
      exact (conj Hnd (conj Hex (conj Hlisted Hone))). }
  assert (Hsome : is_Some (indexes im !! n)) by (rewrite Hn; eauto).
  assert (Hix : indexes (fst (IndexManagerOps.drop_index im n)) = delete n (indexes im)).
  { unfold IndexManagerOps.drop_index. rewrite Hn. reflexivity. }
  unfold IndexInv.well_formed, IndexInv.listed_under.
  rewrite Hix. refine (conj _ (conj _ (conj _ _))).
  - intros t'. rewrite drop_index_lists by exact Hsome. apply remove_first_NoDup, Hnd.
  - intros t' m. rewrite drop_index_lists by exact Hsome. intros Hm.
    assert (Hne : n <> m).
    { intros <-. exact (remove_first_gone n _ (Hnd t') Hm). }
    rewrite lookup_delete_ne by exact Hne.
    exact (Hex t' m (remove_first_In n m _ Hm)).
  - intros m Hm. apply lookup_delete_is_Some in Hm as [Hne Hm].
    destruct (Hlisted m Hm) as [t' Ht']. exists t'.
    rewrite drop_index_lists by exact Hsome.
    apply remove_first_other; [congruence | exact Ht'].
  - intros t1 t2 m. rewrite !drop_index_lists by exact Hsome. intros H1 H2.
    exact (Hone t1 t2 m (remove_first_In n m _ H1) (remove_first_In n m _ H2)).
Qed.

(** The row loops replace trees under names that have one, and leave the
    lists alone. *)
Lemma insert_loop_shape (names : list string) (im : IndexManager) (row_data : dict)
    (row_id : PyVal) :
  let im' := fst (IndexManagerOps.insert_loop im names row_data row_id) in
  table_indexes im' = table_indexes im /\
  forall m, is_Some (indexes im' !! m) <-> is_Some (indexes im !! m).
Proof.
  revert im. induction names as [|n names IH]; intros im; simpl; [tauto|].
  unfold IndexManagerOps.get_index.
  destruct (indexes im !! n) as [ix|] eqn:Hn; [|apply IH].
  destruct (IndexManagerOps.first_value row_data) as [k|]; [|apply IH].
  destruct (BTree.insert ix k row_id) as [ix' r].
  assert (Hkeep : forall m, is_Some (<[n := ix']> (indexes im) !! m)
                            <-> is_Some (indexes im !! m)).
  { intros m. rewrite lookup_insert_is_Some'. split; [|tauto].
    intros [<-|Hm]; [rewrite Hn; eauto | exact Hm]. }
  destruct r as [u|e]; simpl.
  - destruct (IH (mkIndexManager (<[n := ix']> (indexes im)) (table_indexes im)))
      as [Ht Hi].
    split; [exact Ht|]. intros m. rewrite Hi. apply Hkeep.
  - split; [reflexivity | exact Hkeep].
Qed.

Lemma delete_loop_shape (names : list string) (im : IndexManager) (row_data : dict) :
  let im' := fst (IndexManagerOps.delete_loop im names row_data) in
  table_indexes im' = table_indexes im /\
  forall m, is_Some (indexes im' !! m) <-> is_Some (indexes im !! m).
Proof.
  revert im. induction names as [|n names IH]; intros im; simpl; [tauto|].
  unfold IndexManagerOps.get_index.
  destruct (indexes im !! n) as [ix|] eqn:Hn; [|apply IH].
  destruct (IndexManagerOps.first_value row_data) as [k|]; [|apply IH].
  destruct (BTree.delete ix k) as [ix' r].
  assert (Hkeep : forall m, is_Some (<[n := ix']> (indexes im) !! m)
                            <-> is_Some (indexes im !! m)).
  { intros m. rewrite lookup_insert_is_Some'. split; [|tauto].
    intros [<-|Hm]; [rewrite Hn; eauto | exact Hm]. }
  destruct r as [u|e]; simpl.
  - destruct (IH (mkIndexManager (<[n := ix']> (indexes im)) (table_indexes im)))
      as [Ht Hi].
    split; [exact Ht|]. intros m. rewrite Hi. apply Hkeep.
  - split; [reflexivity | exact Hkeep].
Qed.

Lemma same_shape_well_formed (im im' : IndexManager) :
  table_indexes im' = table_indexes im ->
  (forall m, is_Some (indexes im' !! m) <-> is_Some (indexes im !! m)) ->
  IndexInv.well_formed im -> IndexInv.well_formed im'.
Proof.
  intros Ht Hi (Hnd & Hex & Hlisted & Hone).
  unfold IndexInv.well_formed, IndexInv.listed_under, IndexManagerOps.get_table_indexes in *.
  rewrite Ht. refine (conj Hnd (conj _ (conj _ Hone))).
  - intros t n Hn. apply Hi. exact (Hex t n Hn).
  - intros n Hn. apply Hlisted, Hi. exact Hn.
Qed.

Lemma step_well_formed (im : IndexManager) (op : IndexInv.IndexOp) :
  IndexInv.well_formed im -> IndexInv.well_formed (IndexInv.step im op).
Proof.
  intros Hwf. destruct op as [n t c|n|t row_data row_id|t row_data row_id]; simpl.
  - apply create_index_well_formed, Hwf.
  - apply drop_index_well_formed, Hwf.
  - pose proof (insert_loop_shape (IndexManagerOps.get_table_indexes im t) im row_data row_id)
      as [Ht Hi].
    exact (same_shape_well_formed _ _ Ht Hi Hwf).
  - pose proof (delete_loop_shape (IndexManagerOps.get_table_indexes im t) im row_data)
      as [Ht Hi].
    exact (same_shape_well_formed _ _ Ht Hi Hwf).
Qed.

Lemma new_well_formed : IndexInv.well_formed IndexManagerOps.new.
Proof.
  unfold IndexInv.well_formed, IndexInv.listed_under, IndexManagerOps.get_table_indexes.
  simpl. refine (conj _ (conj _ (conj _ _))).
  - intros t. rewrite lookup_empty. constructor.
  - intros t n. rewrite lookup_empty. intros [].
  - intros n. rewrite lookup_empty. intros [x Hx]. discriminate Hx.
  - intros t t' n. rewrite lookup_empty. intros [].
Qed.

Lemma run_well_formed (ops : list IndexInv.IndexOp) (im : IndexManager) :
  IndexInv.well_formed im -> IndexInv.well_formed (IndexInv.run im ops).
Proof.
  revert im. induction ops as [|op ops IH]; intros im Hwf; simpl; [exact Hwf|].
  apply IH, step_well_formed, Hwf.
Qed.

(** X10. In every index manager reached from a new one by creating and
    dropping indexes and by the index maintenance of row inserts and
    deletes, whether the calls return or raise, no table lists an index
    twice, every listed name is the name of an existing index, every
    existing index is listed, and it is listed under one table only. *)
Theorem index_registry_well_formed (ops : list IndexInv.IndexOp) :
  IndexInv.well_formed (IndexInv.run IndexManagerOps.new ops).
Proof.
  unfold IndexInv.run.
  generalize new_well_formed. generalize IndexManagerOps.new as im.
  induction ops as [|op ops IH]; intros im Hwf; simpl; [exact Hwf|].
  apply IH. destruct op as [n t c|n|t row_data row_id|t row_data row_id]; simpl.
  - apply create_index_well_formed, Hwf.
  - apply drop_index_well_formed, Hwf.
  - pose proof (insert_loop_shape (IndexManagerOps.get_table_indexes im t) im row_data row_id)
      as [Ht Hi].
    exact (same_shape_well_formed _ _ Ht Hi Hwf).
  - pose proof (delete_loop_shape (IndexManagerOps.get_table_indexes im t) im row_data)
      as [Ht Hi].
    exact (same_shape_well_formed _ _ Ht Hi Hwf).
Qed.

(** X11. In such an index manager, creating an index under a name not in
    use and dropping it again gives back the indexes and the list of every
    table. In between, a second [create_index] under the name raises and
    changes nothing; afterwards, a second [drop_index] does. *)
Theorem create_then_drop_index (ops : list IndexInv.IndexOp) (n t c : string) :
  let im := IndexInv.run IndexManagerOps.new ops in
  indexes im !! n = None ->
  exists im1 im2,
    IndexManagerOps.create_index im n t c = (im1, Ok tt) /\
    (forall t' c', IndexManagerOps.create_index im1 n t' c'
                   = (im1, Raise (ValueError (IndexExists n)))) /\
    IndexManagerOps.drop_index im1 n = (im2, Ok tt) /\
    indexes im2 = indexes im /\
    (forall t', IndexManagerOps.get_table_indexes im2 t'
                = IndexManagerOps.get_table_indexes im t') /\
    IndexManagerOps.drop_index im2 n = (im2, Raise (ValueError (IndexMissing n))).
Proof.
  intros im Hn.
  pose proof (run_well_formed ops _ new_well_formed) as (Hnd & Hex & _ & _).
  fold im in Hnd, Hex.
  assert (Hfresh : forall t', ~ In n (IndexManagerOps.get_table_indexes im t')).
  { intros t' Hin. destruct (Hex t' n Hin) as [ix Hix]. congruence. }
  assert (Hc : IndexManagerOps.create_index im n t c
               = (mkIndexManager
                    (<[n := BTree.new_index 4]> (indexes im))
                    (<[t := IndexManagerOps.get_table_indexes im t ++ [n]]> (table_indexes im)),
                  Ok tt)).
  { unfold IndexManagerOps.create_index. rewrite Hn. reflexivity. }
  pose proof (fun t' => create_index_lists im n t c t' Hn) as Hlists1.
  rewrite Hc in Hlists1. simpl in Hlists1.
  eexists _, _. split; [exact Hc|].
  split.
  { intros t' c'. unfold IndexManagerOps.create_index. simpl.
    rewrite lookup_insert_eq. reflexivity. }
  unfold IndexManagerOps.drop_index. simpl. rewrite lookup_insert_eq.
  split; [reflexivity|]. simpl.
  split. { apply delete_insert_id. exact Hn. }
  split.
  - intros t'.
    pose proof (drop_index_lists
                  (mkIndexManager
                     (<[n := BTree.new_index 4]> (indexes im))
                     (<[t := IndexManagerOps.get_table_indexes im t ++ [n]]>
                        (table_indexes im))) n t') as Hd.
    unfold IndexManagerOps.drop_index in Hd. simpl in Hd. rewrite lookup_insert_eq in Hd.
    simpl in Hd. rewrite Hd by eauto. rewrite Hlists1.
    destruct (decide (t = t')) as [<-|_].
    + apply remove_first_last, Hfresh.
    + apply remove_first_absent, Hfresh.
  - rewrite lookup_delete_eq. reflexivity.
Qed.

Lemma create_then_drop_index_witness :
  exists im1 im2,
    IndexManagerOps.create_index
      (IndexInv.run IndexManagerOps.new [IndexInv.OpCreate "by_id" "users" "id"])
      "by_name" "users" "name" = (im1, Ok tt) /\
    (forall t' c', IndexManagerOps.create_index im1 "by_name" t' c'
                   = (im1, Raise (ValueError (IndexExists "by_name")))) /\
    IndexManagerOps.drop_index im1 "by_name" = (im2, Ok tt) /\
    indexes im2
    = indexes (IndexInv.run IndexManagerOps.new [IndexInv.OpCreate "by_id" "users" "id"]) /\
    (forall t', IndexManagerOps.get_table_indexes im2 t'
                = IndexManagerOps.get_table_indexes
                    (IndexInv.run IndexManagerOps.new [IndexInv.OpCreate "by_id" "users" "id"])
                    t') /\
    IndexManagerOps.drop_index im2 "by_name"
    = (im2, Raise (ValueError (IndexMissing "by_name"))).
Proof.
  refine (create_then_drop_index [IndexInv.OpCreate "by_id" "users" "id"]
            "by_name" "users" "name" _).
  reflexivity.
Defined.

(** * The query executor: the index path and the full scan *)

Lemma rows_with_ids_empty (rs : list Row) :
  QueryExecutor.rows_with_ids rs (BTree.SBucket []) = Ok [].
Proof.
  induction rs as [|row rs IH]; simpl; [reflexivity|]. rewrite IH. reflexivity.
Qed.

Lemma search_new_index (order : Z) (key : PyVal) :
  BTree.search (BTree.new_index order) key = Ok (BTree.SBucket []).
Proof. reflexivity. Qed.

(** X12. Once a table that had no index is given one, a SELECT of the
    query executor on that table with a condition [column op literal],
    whatever the column, the operator and the literal (not NULL), the
    column list and the join, returns no row: the new index is empty, it is
    not filled from the rows the table has, and the index path takes the
    rows from the index alone. *)
Theorem new_index_hides_rows (tables : gmap string Table) (im im' : IndexManager)
    (table : Table) (t n c : string) (cols : list string) (a op : string) (k : PyVal)
    (jc : option JoinClause) :
  tables !! t = Some table ->
  schema_name (schema table) = t ->
  IndexManagerOps.get_table_indexes im t = [] ->
  IndexManagerOps.create_index im n t c = (im', Ok tt) ->
  k <> VNone ->
  QueryExecutor.execute_select tables im' t cols (Some (mkCondition (ColRef a) op (Lit k))) jc
  = Ok [].
Proof.
  intros Ht Hname Hnone Hcreate Hk.
  unfold IndexManagerOps.create_index in Hcreate.
  destruct (indexes im !! n) eqn:Hn; [discriminate Hcreate|].
  injection Hcreate as <-.
  unfold IndexManagerOps.get_table_indexes in Hnone.
  unfold QueryExecutor.execute_select. rewrite Ht.
  unfold QueryExecutor._can_use_index, QueryExecutor._execute_select_with_index.
  rewrite Hname.
  unfold IndexManagerOps.get_table_indexes, IndexManagerOps.get_index.
  cbn [cond_left cond_right indexes table_indexes].
  rewrite lookup_insert_eq, Hnone. cbn [default from_option id app]. rewrite lookup_insert_eq.
  rewrite search_new_index. cbn [mbind result_bind].
  rewrite rows_with_ids_empty.
  destruct k; try reflexivity. congruence.
Qed.

Lemma new_index_hides_rows_witness :
  QueryExecutor.execute_select
    {["users" := mkTable Scenario.users_schema
                   [mkRow [("id", VInt 1); ("name", VStr "a"); ("row_id", VInt 1)]] 2]}
    (fst (IndexManagerOps.create_index IndexManagerOps.new "by_id" "users" "id"))
    "users" ["*"] (Some (mkCondition (ColRef "id") "=" (Lit (VInt 1)))) None
  = Ok [].
Proof.
  refine (new_index_hides_rows
            {["users" := mkTable Scenario.users_schema
                   [mkRow [("id", VInt 1); ("name", VStr "a"); ("row_id", VInt 1)]] 2]}
            IndexManagerOps.new _ _ "users" "by_id" "id" ["*"] "id" "=" (VInt 1) None
            _ _ _ _ _).
  - reflexivity.
  - reflexivity.
  - reflexivity.
  - reflexivity.
  - discriminate.
Defined.

(** X13. Without a condition, or on a table that has no index, the
    SELECT of the query executor returns what [Database._execute_select]
    returns, rows and exceptions alike: the full scan and its helpers
    repeat the code of the database class. *)
Theorem executor_full_scan_agrees (db : Database) (t : string) (cols : list string)
    (w : option Condition) (jc : option JoinClause) :
  w = None \/ IndexManagerOps.get_table_indexes (index_manager db) t = [] ->
  QueryExecutor.execute_select (storage db) (index_manager db) t cols w jc
  = DatabaseOps._execute_select db t cols w jc.
Proof.
  intros Hw. unfold QueryExecutor.execute_select, DatabaseOps._execute_select.
  destruct (storage db !! t) as [table|]; [|reflexivity].
  assert (Hscan : QueryExecutor._execute_select_full_scan (storage db) table cols w jc
                  = (rows1 ← match w with
                             | Some c => DatabaseOps.keep_matching c
                                           (TableOps.select table (Some cols))
                             | None => Ok (TableOps.select table (Some cols))
                             end;
                     Ok (map (DatabaseOps.format_row cols)
                           match jc with
                           | Some j =>
                               match storage db !! join_table j with
                               | Some jt => DatabaseOps._apply_join rows1 jt j
                               | None => rows1
                               end
                           | None => rows1
                           end))).
  { reflexivity. }
  destruct w as [c|]; [|exact Hscan].
  destruct Hw as [Hw|Hw]; [discriminate Hw|].
  unfold QueryExecutor._can_use_index. rewrite Hw.
  destruct (cond_left c); exact Hscan.
Qed.

Lemma executor_full_scan_agrees_witness :
  QueryExecutor.execute_select (storage JoinScenario.db) (index_manager JoinScenario.db)
    "users" ["*"] (Some (mkCondition (ColRef "id") ">=" (Lit (VInt 1))))
    (Some JoinScenario.on_user_id)
  = DatabaseOps._execute_select JoinScenario.db
      "users" ["*"] (Some (mkCondition (ColRef "id") ">=" (Lit (VInt 1))))
      (Some JoinScenario.on_user_id).
Proof.
  refine (executor_full_scan_agrees JoinScenario.db "users" ["*"]
            (Some (mkCondition (ColRef "id") ">=" (Lit (VInt 1))))
            (Some JoinScenario.on_user_id) _).
  right. reflexivity.
Defined.

(** * Statements: what reaches the data directory *)

(** Each statement either leaves the directory as it was, or completes
    and leaves what [save_to_disk] writes for the registry it leaves. *)
Lemma execute_files (db : Database) (stmt : StatementSpec.Statement) :
  let db' := fst (StatementSpec.execute db stmt) in
  let r := snd (StatementSpec.execute db stmt) in
  (files db' = files db /\ (StatementSpec.saves stmt = true -> r <> Ok tt)) \/
  (r = Ok tt /\ files db' = StorageEngine.save_to_disk (storage db') (files db)).
Proof.
  destruct stmt as [t vs|t a w|t w|n t c|s]; cbn [StatementSpec.execute StatementSpec.saves].
  - unfold DatabaseOps._execute_insert.
    destruct (storage db !! t) as [table|]; [|left; split; [reflexivity | discriminate]].
    destruct (TableOps.insert table _) as [[table' row'] [row_id|e]];
      [|left; split; [reflexivity | discriminate]].
    destruct (IndexManagerOps.insert_into_indexes _ _ _ _) as [im' [u|e]];
      [right | left]; split; try reflexivity; discriminate.
  - unfold DatabaseOps._execute_update.
    destruct (storage db !! t) as [table|]; [|left; split; [reflexivity | discriminate]].
    destruct (DatabaseOps.matching_rows table w) as [rs|e];
      [|left; split; [reflexivity | discriminate]].
    destruct (DatabaseOps.delete_rows_from_indexes _ _ _) as [im1 [u|e]];
      [|left; split; [reflexivity | discriminate]].
    destruct (TableOps.update table _ w) as [table' [n|e]];
      [|left; split; [reflexivity | discriminate]].
    destruct (DatabaseOps.matching_rows table' w) as [rs'|e];
      [|left; split; [reflexivity | discriminate]].
    destruct (DatabaseOps.insert_rows_into_indexes _ _ _) as [im2 [u'|e]];
      [right | left]; split; try reflexivity; discriminate.
  - unfold DatabaseOps._execute_delete.
    destruct (storage db !! t) as [table|]; [|left; split; [reflexivity | discriminate]].
    destruct (DatabaseOps.matching_rows table w) as [rs|e];
      [|left; split; [reflexivity | discriminate]].
    destruct (DatabaseOps.delete_rows_from_indexes _ _ _) as [im1 [u|e]];
      [|left; split; [reflexivity | discriminate]].
    destruct (TableOps.delete table w) as [table' [n|e]];
      [right | left]; split; try reflexivity; discriminate.
  - unfold DatabaseOps._execute_create_index.
    destruct (IndexManagerOps.create_index _ _ _ _) as [im [u|e]];
      left; split; try reflexivity; discriminate.
  - unfold DatabaseOps.create_table, StorageEngine.create_table.
    destruct (storage db !! schema_name s) as [table|];
      [left | right]; split; try reflexivity; discriminate.
Qed.

(** X14. A statement that raises has written nothing to the data
    directory, whatever it has changed in memory by then; neither has
    CREATE INDEX, which never writes. *)
Theorem failed_statement_writes_nothing (db : Database) (stmt : StatementSpec.Statement) :
  (forall db' e, StatementSpec.execute db stmt = (db', Raise e) -> files db' = files db) /\
  (StatementSpec.saves stmt = false -> files (fst (StatementSpec.execute db stmt)) = files db).
Proof.
  pose proof (execute_files db stmt) as Hf. cbv zeta in Hf. split.
  - intros db' e He. rewrite He in Hf. simpl in Hf.
    destruct Hf as [[Hf _]|[Hr _]]; [exact Hf | discriminate Hr].
  - intros Hs. destruct stmt; try discriminate Hs.
    destruct Hf as [[Hf _]|[_ Hf]]; [exact Hf|].
    revert Hf. cbn [StatementSpec.execute]. unfold DatabaseOps._execute_create_index.
    destruct (IndexManagerOps.create_index _ _ _ _) as [im [u|e]]; reflexivity.
Qed.

Lemma failed_statement_writes_nothing_witness :
  let db := fst (StatementSpec.execute Scenario.users_db
                   (StatementSpec.Insert "users" [VInt 1; VStr "a"])) in
  files (fst (StatementSpec.execute db (StatementSpec.Insert "users" [VInt 1; VStr "b"])))
  = files db.
Proof.
  refine (proj1 (failed_statement_writes_nothing
                   (fst (StatementSpec.execute Scenario.users_db
                           (StatementSpec.Insert "users" [VInt 1; VStr "a"])))
                   (StatementSpec.Insert "users" [VInt 1; VStr "b"]))
                _ (ValueError (DuplicateValue "id")) _).
  vm_compute. reflexivity.
Defined.

(** ** Completed statements and a restart *)

Lemma init_after_save (tables : gmap string Table) (fs : gmap string Document) :
  PersistSpec.well_named tables ->
  PersistSpec.integer_row_ids tables ->
  PersistSpec.owned_schema_files tables fs ->
  StorageEngine.init (StorageEngine.save_to_disk tables fs)
  = Ok (PersistSpec.reloaded <$> tables).
Proof.
  intros Hnames Hids Howned.
  destruct (load_from_disk_spec tables ∅ (StorageEngine.save_to_disk tables fs)
              Hnames Hids (proj1 (save_to_disk_spec tables fs))
              (saved_schema_files_owned tables fs Howned)) as [loaded [Hload Hloaded]].
  unfold StorageEngine.init. rewrite Hload. f_equal. apply map_eq. intros n.
  rewrite Hloaded, lookup_fmap. destruct (tables !! n); [reflexivity | apply lookup_empty].
Qed.

Lemma ok_replace (tables : gmap string Table) (fs : gmap string Document) (t : string)
    (table table' : Table) :
  StatementSpec.ok tables fs ->
  tables !! t = Some table ->
  schema table' = schema table ->
  forallb PersistSpec.int_row_id (rows table') = true ->
  (exists c : Z, next_row_id table' = CInt c) ->
  StatementSpec.ok (<[t := table']> tables) fs.
Proof.
  intros (Hnames & Hids & Howned & Hcols & Hcounters) Ht Hs Hr Hc.
  refine (conj _ (conj _ (conj _ (conj _ _)))).
  - intros n x Hn. apply lookup_insert_Some in Hn as [[<- _]|[_ Hn]]; eauto.
  - intros n x Hn. apply lookup_insert_Some in Hn as [[<- <-]|[_ Hn]]; eauto.
  - intros f doc Hf Hend. destruct (Howned f doc Hf Hend) as [n [-> Hn]].
    exists n. split; [reflexivity|]. apply lookup_insert_is_Some'. right. exact Hn.
  - intros n x Hn. apply lookup_insert_Some in Hn as [[<- <-]|[_ Hn]]; [|eauto].
    rewrite Hs. eauto.
  - intros n x Hn. apply lookup_insert_Some in Hn as [[<- <-]|[_ Hn]]; eauto.
Qed.

Lemma ok_saved (tables : gmap string Table) (fs : gmap string Document) :
  StatementSpec.ok tables fs -> StatementSpec.ok tables (StorageEngine.save_to_disk tables fs).
Proof.
  intros (Hnames & Hids & Howned & Hcols & Hcounters).
  refine (conj Hnames (conj Hids (conj _ (conj Hcols Hcounters)))).
  apply saved_schema_files_owned, Howned.
Qed.

(** The row [_execute_insert] builds has the names of columns for keys. *)
Lemma build_row_data_contains (cols : list Column) (values : list PyVal) (acc : dict)
    (k : string) :
  dict_contains (DatabaseOps.build_row_data cols values acc) k = true ->
  dict_contains acc k = true \/ exists col, In col cols /\ col_name col = k.
Proof.
  revert values acc. induction cols as [|col cols IH]; intros values acc; simpl; [tauto|].
  destruct values as [|v values]; [tauto|]. intros H.
  destruct (IH _ _ H) as [Hacc|[col' [Hin Hk]]].
  - destruct (String.eqb_spec (col_name col) k) as [Heq|Hne].
    + right. exists col. split; [left; reflexivity | exact Heq].
    + left. unfold dict_contains in *. rewrite dict_get_set_ne in Hacc by exact Hne.
      exact Hacc.
  - right. exists col'. split; [right; exact Hin | exact Hk].
Qed.

Lemma built_row_has_no_row_id (s : TableSchema) (values : list PyVal) :
  StatementSpec.no_row_id_column s = true ->
  dict_contains (DatabaseOps.build_row_data (columns s) values []) "row_id" = false.
Proof.
  intros Hcols. destruct (dict_contains _ _) eqn:Hc; [|reflexivity].
  apply build_row_data_contains in Hc as [Hc|[col [Hin Hk]]]; [discriminate Hc|].
  unfold StatementSpec.no_row_id_column in Hcols. rewrite forallb_forall in Hcols.
  specialize (Hcols col Hin). rewrite Hk in Hcols. discriminate Hcols.
Qed.

Lemma insert_int_ids (t t' : Table) (row row' : Row) (r : result PyVal) (c : Z) :
  dict_contains (data row) "row_id" = false ->
  forallb PersistSpec.int_row_id (rows t) = true ->
  next_row_id t = CInt c ->
  TableOps.insert t row = (t', row', r) ->
  schema t' = schema t /\ forallb PersistSpec.int_row_id (rows t') = true /\
  exists c' : Z, next_row_id t' = CInt c'.
Proof.
  intros Hno Hids Hc. unfold TableOps.insert, TableOps.assign_row_id. rewrite Hno, Hc.
  destruct (Schema.validate_row (schema t) row); [|intros [= <- _ _]; eauto].
  destruct (TableOps._check_unique_constraints _ _); intros [= <- _ _]; simpl; eauto.
  split; [reflexivity|]. split; [|eauto]. rewrite forallb_app, Hids. simpl.
  unfold PersistSpec.int_row_id. simpl. rewrite dict_get_set_eq. reflexivity.
Qed.

Lemma build_assignments_keys (assignments : list (string * PyVal)) (acc : dict) (k : string) :
  forallb (fun kv => negb (String.eqb (fst kv) k)) assignments = true ->
  dict_get (fold_left (fun d kv => dict_set d (fst kv) (snd kv)) assignments acc) k
  = dict_get acc k.
Proof.
  revert acc. induction assignments as [|[k' v] rest IH]; intros acc; simpl; [reflexivity|].
  intros H. apply andb_true_iff in H as [Hk Hrest]. rewrite IH by exact Hrest.
  apply dict_get_set_ne. intros ->. rewrite String.eqb_refl in Hk. discriminate Hk.
Qed.

Lemma update_int_ids (t : Table) (a : dict) (w : option Condition) :
  dict_get a "row_id" = None ->
  forallb PersistSpec.int_row_id (rows t) = true ->
  forallb PersistSpec.int_row_id (rows (fst (TableOps.update t a w))) = true.
Proof.
  intros Ha. pose proof (update_rows_pointwise t a w) as Hp.
  induction Hp as [|r r' rs rs' Hr _ IH]; simpl; [reflexivity|].
  intros H. apply andb_true_iff in H as [Hr0 Hrs]. rewrite (IH Hrs), andb_true_r.
  destruct Hr as [->| ->]; [exact Hr0|].
  unfold PersistSpec.int_row_id in *. rewrite apply_assignments_other by exact Ha.
  exact Hr0.
Qed.

Lemma forallb_filter {A} (p q : A -> bool) (l : list A) :
  forallb p l = true -> forallb p (List.filter q l) = true.
Proof.
  induction l as [|x l IH]; simpl; [reflexivity|].
  intros H. apply andb_true_iff in H as [Hx Hl].
  destruct (q x); simpl; [rewrite Hx|]; auto.
Qed.

Lemma delete_int_ids (t : Table) (w : option Condition) :
  forallb PersistSpec.int_row_id (rows t) = true ->
  forallb PersistSpec.int_row_id (rows (fst (TableOps.delete t w))) = true.
Proof.
  intros Hids. unfold TableOps.delete. destruct w as [c|]; [|reflexivity].
  destruct (TableOps.reject_matching c (rows t)) as [kept|e] eqn:Hk; [|exact Hids].
  apply reject_matching_kept in Hk as [-> _]. simpl. apply forallb_filter, Hids.
Qed.

(** Admissible statements keep the registry and the directory in the
    states the round trip is proved for. *)
Lemma execute_ok (db : Database) (stmt : StatementSpec.Statement) :
  StatementSpec.ok (storage db) (files db) ->
  StatementSpec.admissible stmt = true ->
  StatementSpec.ok (storage (fst (StatementSpec.execute db stmt))) (files db).
Proof.
  intros Hok Hadm.
  destruct stmt as [t vs|t a w|t w|n t c|s]; cbn [StatementSpec.execute].
  - unfold DatabaseOps._execute_insert.
    destruct (storage db !! t) as [table|] eqn:Ht; [|exact Hok].
    destruct (TableOps.insert table _) as [[table' row'] r] eqn:Hins.
    assert (Hok' : StatementSpec.ok (<[t := table']> (storage db)) (files db)).
    { destruct Hok as (Hnames & Hids & Howned & Hcols & Hcounters).
      destruct (Hcounters t table Ht) as [c Hc].
      eapply insert_int_ids in Hins as (Hs & Hr & Hc').
      - eapply ok_replace; eauto.
        exact (conj Hnames (conj Hids (conj Howned (conj Hcols Hcounters)))).
      - apply built_row_has_no_row_id. exact (Hcols t table Ht).
      - exact (Hids t table Ht).
      - exact Hc. }
    destruct r as [row_id|e]; [|exact Hok'].
    destruct (IndexManagerOps.insert_into_indexes _ _ _ _) as [im' [u|e]]; exact Hok'.
  - unfold DatabaseOps._execute_update.
    destruct (storage db !! t) as [table|] eqn:Ht; [|exact Hok].
    destruct (DatabaseOps.matching_rows table w) as [rs|e]; [|exact Hok].
    destruct (DatabaseOps.delete_rows_from_indexes _ _ _) as [im1 [u|e]]; [|exact Hok].
    pose proof (update_schema table (DatabaseOps.build_assignments a) w) as Hs.
    pose proof (update_int_ids table (DatabaseOps.build_assignments a) w) as Hr.
    pose proof (update_next_row_id table (DatabaseOps.build_assignments a) w) as Hc.
    destruct (TableOps.update table _ w) as [table' r]. simpl in Hs, Hr, Hc.
    assert (Hok' : StatementSpec.ok (<[t := table']> (storage db)) (files db)).
    { eapply ok_replace; eauto.
      - apply Hr.
        + unfold DatabaseOps.build_assignments.
          rewrite build_assignments_keys; [reflexivity|]. exact Hadm.
        + destruct Hok as (_ & Hids & _). exact (Hids t table Ht).
      - rewrite Hc. destruct Hok as (_ & _ & _ & _ & Hcounters). eauto. }
    destruct r as [n|e]; [|exact Hok'].
    destruct (DatabaseOps.matching_rows table' w) as [rs'|e]; [|exact Hok'].
    destruct (DatabaseOps.insert_rows_into_indexes _ _ _) as [im2 [u'|e]]; exact Hok'.
  - unfold DatabaseOps._execute_delete.
    destruct (storage db !! t) as [table|] eqn:Ht; [|exact Hok].
    destruct (DatabaseOps.matching_rows table w) as [rs|e]; [|exact Hok].
    destruct (DatabaseOps.delete_rows_from_indexes _ _ _) as [im1 [u|e]]; [|exact Hok].
    pose proof (delete_schema table w) as Hs.
    pose proof (delete_int_ids table w) as Hr.
    pose proof (delete_next_row_id table w) as Hc.
    destruct (TableOps.delete table w) as [table' r]. simpl in Hs, Hr, Hc.
    assert (Hok' : StatementSpec.ok (<[t := table']> (storage db)) (files db)).
    { eapply ok_replace; eauto.
      - apply Hr. destruct Hok as (_ & Hids & _). exact (Hids t table Ht).
      - rewrite Hc. destruct Hok as (_ & _ & _ & _ & Hcounters). eauto. }
    destruct r as [n|e]; exact Hok'.
  - unfold DatabaseOps._execute_create_index.
    destruct (IndexManagerOps.create_index _ _ _ _) as [im [u|e]]; exact Hok.
  - unfold DatabaseOps.create_table, StorageEngine.create_table.
    destruct (storage db !! schema_name s) as [table|] eqn:Ht; [exact Hok|].
    cbn [fst storage].
    cbn [StatementSpec.admissible] in Hadm. apply andb_true_iff in Hadm as [Hid Hcol].
    destruct Hok as (Hnames & Hids & Howned & Hcols & Hcounters).
    refine (conj _ (conj _ (conj _ (conj _ _)))).
    + intros n x Hn. apply lookup_insert_Some in Hn as [[<- _]|[_ Hn]]; eauto.
    + intros n x Hn. apply lookup_insert_Some in Hn as [[<- <-]|[_ Hn]]; eauto.
    + intros f doc Hf Hend. destruct (Howned f doc Hf Hend) as [n [-> Hn]].
      exists n. split; [reflexivity|]. apply lookup_insert_is_Some'. right. exact Hn.
    + intros n x Hn. apply lookup_insert_Some in Hn as [[<- <-]|[_ Hn]]; [|eauto].
      destruct (StorageEngine.first_primary_key (columns s)); exact Hcol.
    + intros n x Hn. apply lookup_insert_Some in Hn as [[<- <-]|[_ Hn]]; [|eauto].
      exists 1. reflexivity.
Qed.

Lemma execute_ok_files (db : Database) (stmt : StatementSpec.Statement) :
  StatementSpec.ok (storage db) (files db) ->
  StatementSpec.admissible stmt = true ->
  let db' := fst (StatementSpec.execute db stmt) in
  StatementSpec.ok (storage db') (files db').
Proof.
  intros Hok Hadm. cbv zeta. pose proof (execute_ok db stmt Hok Hadm) as Hok'.
  pose proof (execute_files db stmt) as Hf. cbv zeta in Hf.
  destruct Hf as [[Hf _]|[_ Hf]]; rewrite Hf; [exact Hok' | apply ok_saved, Hok'].
Qed.

Lemma execute_all_ok (stmts : list StatementSpec.Statement) (db : Database) :
  StatementSpec.ok (storage db) (files db) ->
  forallb StatementSpec.admissible stmts = true ->
  let db' := StatementSpec.execute_all db stmts in
  StatementSpec.ok (storage db') (files db').
Proof.
  revert db. induction stmts as [|stmt stmts IH]; intros db Hok Hadm; simpl; [exact Hok|].
  simpl in Hadm. apply andb_true_iff in Hadm as [Hs Hrest].
  apply IH; [|exact Hrest]. apply execute_ok_files; assumption.
Qed.

Lemma empty_db_ok : StatementSpec.ok (storage Scenario.empty_db) (files Scenario.empty_db).
Proof.
  simpl. refine (conj _ (conj _ (conj _ (conj _ _)))).
  - intros n t H. rewrite lookup_empty in H. discriminate H.
  - intros n t H. rewrite lookup_empty in H. discriminate H.
  - intros f doc H. rewrite lookup_empty in H. discriminate H.
  - intros n t H. rewrite lookup_empty in H. discriminate H.
  - intros n t H. rewrite lookup_empty in H. discriminate H.
Qed.

(** X15. Start from an empty database in an empty directory and run
    statements that name tables by identifiers and leave the key
    ['row_id'] to the engine, in any number and whether they complete or
    raise. When an INSERT, UPDATE, DELETE or table creation then completes,
    a database opened on the directory has the tables of the running one,
    each with the same schema and the same rows; the row-id counters are
    computed anew from the rows, and it has no index. *)
Theorem completed_statement_is_durable (stmts : list StatementSpec.Statement)
    (stmt : StatementSpec.Statement) (db' : Database) :
  forallb StatementSpec.admissible (stmts ++ [stmt]) = true ->
  StatementSpec.saves stmt = true ->
  StatementSpec.execute (StatementSpec.execute_all Scenario.empty_db stmts) stmt
  = (db', Ok tt) ->
  DatabaseOps.new (files db')
  = Ok (mkDatabase (PersistSpec.reloaded <$> storage db') (files db') IndexManagerOps.new) /\
  PersistSpec.reproduces (storage db') (PersistSpec.reloaded <$> storage db').
Proof.
  intros Hadm Hsaves Hex. rewrite forallb_app in Hadm.
  apply andb_true_iff in Hadm as [Hstmts Hstmt]. simpl in Hstmt.
  rewrite andb_true_r in Hstmt.
  pose proof (execute_all_ok stmts Scenario.empty_db empty_db_ok Hstmts) as Hok.
  cbv zeta in Hok.
  pose proof (execute_ok _ stmt Hok Hstmt) as Hok'.
  pose proof (execute_files (StatementSpec.execute_all Scenario.empty_db stmts) stmt) as Hf.
  cbv zeta in Hf. rewrite Hex in Hok', Hf. simpl in Hok', Hf.
  destruct Hf as [[_ Hno]|[_ Hf]]; [exfalso; exact (Hno Hsaves eq_refl)|].
  split; [|apply reloaded_reproduces].
  destruct Hok' as (Hnames & Hids & Howned & _ & _).
  unfold DatabaseOps.new. rewrite Hf at 1.
  rewrite init_after_save by assumption. reflexivity.
Qed.

Lemma completed_statement_is_durable_witness :
  let stmts := [StatementSpec.CreateTable Scenario.users_schema;
                StatementSpec.CreateIndex "by_id" "users" "id";
                StatementSpec.Insert "users" [VInt 1; VStr "a"];
                StatementSpec.Insert "users" [VInt 1; VStr "b"];
                StatementSpec.Update "users" [("name", VStr "c")] None] in
  let stmt := StatementSpec.Insert "users" [VInt 2; VStr "b"] in
  let db' := fst (StatementSpec.execute
                    (StatementSpec.execute_all Scenario.empty_db stmts) stmt) in
  DatabaseOps.new (files db')
  = Ok (mkDatabase (PersistSpec.reloaded <$> storage db') (files db') IndexManagerOps.new) /\
  PersistSpec.reproduces (storage db') (PersistSpec.reloaded <$> storage db').
Proof.
  intros stmts stmt db'.
  refine (completed_statement_is_durable stmts stmt db' _ _ _).
  - reflexivity.
  - reflexivity.
  - vm_compute. reflexivity.
Defined.

(** * Row validation and loading: what is checked and what is read *)

Lemma check_required_ok (cols : list Column) (row : Row) :
  Schema.check_required cols row = Ok tt <->
  (forall col, In col cols -> has_constraint NOT_NULL (col_constraints col) = true ->
               dict_contains (data row) (col_name col) = true).
Proof.
  induction cols as [|col cols IH]; simpl.
  - split; [intros _ col [] | reflexivity].
  - destruct (has_constraint NOT_NULL (col_constraints col)) eqn:Hnn;
      destruct (dict_contains (data row) (col_name col)) eqn:Hc; simpl.
    + rewrite IH. split.
      * intros H c [<-|Hin] Hc'; [exact Hc | exact (H c Hin Hc')].
      * intros H c Hin. apply H. right. exact Hin.
    + split; [discriminate|]. intros H.
      specialize (H col (or_introl eq_refl) Hnn). congruence.
    + rewrite IH. split.
      * intros H c [<-|Hin] Hc'; [exact Hc | exact (H c Hin Hc')].
      * intros H c Hin. apply H. right. exact Hin.
    + rewrite IH. split.
      * intros H c [<-|Hin] Hc'; [congruence | exact (H c Hin Hc')].
      * intros H c Hin. apply H. right. exact Hin.
Qed.

Lemma check_types_ok (s : TableSchema) (items : dict) :
  Schema.check_types s items = Ok tt <->
  (forall k v col, In (k, v) items -> Schema.get_column s k = Some col ->
                   Schema._validate_type v (col_data_type col) = true).
Proof.
  induction items as [|[k v] items IH]; simpl.
  - split; [intros _ k v col [] | reflexivity].
  - destruct (Schema.get_column s k) as [col|] eqn:Hcol.
    + destruct (Schema._validate_type v (col_data_type col)) eqn:Hty.
      * rewrite IH. split.
        -- intros H k' v' col' [[= <- <-]|Hin] Hc'; [congruence | exact (H k' v' col' Hin Hc')].
        -- intros H k' v' col' Hin. apply H. right. exact Hin.
      * split; [discriminate|]. intros H.
        specialize (H k v col (or_introl eq_refl) Hcol). congruence.
    + rewrite IH. split.
      * intros H k' v' col' [[= <- <-]|Hin] Hc'; [congruence | exact (H k' v' col' Hin Hc')].
      * intros H k' v' col' Hin. apply H. right. exact Hin.
Qed.

(** X16. [validate_row] accepts a row exactly when the row has a key for
    every NOT_NULL column and every value stored under the name of a column
    is of the column's type; keys that name no column are not looked at.
    It never returns False. [None] is of no type, so a row with NULL under
    the name of a column is rejected, whether the column is NOT_NULL or
    not. *)
Theorem validate_row_accepts (s : TableSchema) (row : Row) :
  (Schema.validate_row s row = Ok true <->
   TableInv.required_present s row /\
   (forall k v col, In (k, v) (data row) -> Schema.get_column s k = Some col ->
                    Schema._validate_type v (col_data_type col) = true)) /\
  Schema.validate_row s row <> Ok false /\
  (forall k col, In (k, VNone) (data row) -> Schema.get_column s k = Some col ->
                 Schema.validate_row s row <> Ok true).
Proof.
  assert (Hiff : Schema.validate_row s row = Ok true <->
                 TableInv.required_present s row /\
                 (forall k v col, In (k, v) (data row) -> Schema.get_column s k = Some col ->
                                  Schema._validate_type v (col_data_type col) = true)).
  { unfold TableInv.required_present. rewrite <- check_required_ok, <- check_types_ok.
    unfold Schema.validate_row.
    destruct (Schema.check_required (columns s) row) as [[]|e]; simpl.
    - destruct (Schema.check_types s (data row)) as [[]|e]; simpl.
      + tauto.
      + split; [discriminate | intros [_ H]; discriminate H].
    - split; [discriminate | intros [H _]; discriminate H]. }
  split; [exact Hiff|]. split.
  - unfold Schema.validate_row.
    destruct (Schema.check_required (columns s) row); simpl; [|discriminate].
    destruct (Schema.check_types s (data row)); simpl; discriminate.
  - intros k col Hin Hcol Hok. apply Hiff in Hok as [_ Hty].
    specialize (Hty k VNone col Hin Hcol). destruct (col_data_type col); discriminate Hty.
Qed.

Lemma validate_row_accepts_witness :
  Schema.validate_row (mkTableSchema "t" [mkColumn "a" INT []; mkColumn "b" TEXT []] None)
                      (mkRow [("a", VInt 1); ("b", VNone)])
  <> Ok true.
Proof.
  refine (proj2 (proj2 (validate_row_accepts
                          (mkTableSchema "t" [mkColumn "a" INT []; mkColumn "b" TEXT []] None)
                          (mkRow [("a", VInt 1); ("b", VNone)])))
                "b" (mkColumn "b" TEXT []) _ _).
  - right. left. reflexivity.
  - reflexivity.
Defined.

(** X17. [load_from_disk] reads schema files and the rows files they
    name, and nothing else: over a directory none of whose file names ends
    in [_schema.json], rows files included, it returns with the registry
    as it was. *)
Theorem load_ignores_other_files (tables : gmap string Table) (fs : gmap string Document) :
  (forall f doc, fs !! f = Some doc -> StorageEngine.endswith f "_schema.json" = false) ->
  StorageEngine.load_from_disk tables fs = Ok tables.
Proof.
  assert (Hfold : forall (dir m : gmap string Document),
             (forall f doc, m !! f = Some doc ->
                            StorageEngine.endswith f "_schema.json" = false) ->
             map_fold (fun filename doc acc => acc ≫= StorageEngine.load_file dir filename doc)
                      (Ok tables) m = Ok tables).
  { intros dir m. induction m as [|f doc m Hf Hfirst IH] using map_first_key_ind.
    - intros _. apply map_fold_empty.
    - intros Hall. rewrite map_fold_insert_first_key by assumption.
      rewrite IH.
      + simpl. unfold StorageEngine.load_file.
        rewrite (Hall f doc) by apply lookup_insert_eq. reflexivity.
      + intros g d Hg. apply (Hall g d). rewrite lookup_insert_ne; [exact Hg|].
        intros <-. congruence. }
  intros Hall. exact (Hfold fs fs Hall).
Qed.

Lemma load_ignores_other_files_witness :
  StorageEngine.load_from_disk ∅ {["users_rows.json" := RowsDoc [[("row_id", VInt 1)]]]}
  = Ok ∅.
Proof.
  refine (load_ignores_other_files ∅ {["users_rows.json" := RowsDoc [[("row_id", VInt 1)]]]} _).
  intros f doc H. apply lookup_singleton_Some in H as [<- _]. reflexivity.
Defined.

(** * Range search *)

Lemma string_compare_lt_trans (a b c : string) :
  String.compare a b = Lt -> String.compare b c = Lt -> String.compare a c = Lt.
Proof.
  revert b c. induction a as [|x a IH]; intros [|y b] [|z c]; simpl; try discriminate; auto.
  unfold Ascii.compare.
  destruct (N.compare_spec (N_of_ascii x) (N_of_ascii y)) as [Hxy|Hxy|Hxy]; try discriminate;
    destruct (N.compare_spec (N_of_ascii y) (N_of_ascii z)) as [Hyz|Hyz|Hyz]; try discriminate;
    destruct (N.compare_spec (N_of_ascii x) (N_of_ascii z)) as [Hxz|Hxz|Hxz];
    try lia; auto.
  apply IH.
Qed.

Lemma py_order_lt_trans (a b c : PyVal) :
  py_order a b = Ok Lt -> py_order b c = Ok Lt -> py_order a c = Ok Lt.
Proof.
  destruct a as [|p|p|p|p], b as [|q|q|q|q]; try discriminate;
    destruct c as [|r|r|r|r]; try (intros _ H; discriminate H);
    unfold py_order; cbn [num_of]; intros [= H1] [= H2]; f_equal;
    try exact (string_compare_lt_trans _ _ _ H1 H2);
    apply Qlt_alt; apply Qlt_alt in H1, H2; exact (Qlt_trans _ _ _ H1 H2).
Qed.

Lemma py_order_le_lt_trans (a b c : PyVal) (x : comparison) :
  py_order a b = Ok x -> x <> Gt -> py_order b c = Ok Lt -> py_order a c = Ok Lt.
Proof.
  intros Hab Hx Hbc. destruct x; [|exact (py_order_lt_trans _ _ _ Hab Hbc)|congruence].
  revert Hab Hbc.
  destruct a as [|p|p|p|p], b as [|q|q|q|q]; try discriminate;
    destruct c as [|r|r|r|r]; try (intros _ H; discriminate H);
    unfold py_order; cbn [num_of]; intros [= H1] [= H2]; f_equal;
    try (apply String.compare_eq_iff in H1; subst; exact H2);
    apply Qeq_alt in H1; rewrite H1; exact H2.
Qed.

Lemma compare_keys_val (a b : PyVal) (x : comparison) :
  py_order a b = Ok x -> BTree._compare_keys a b = Ok (OrderSpec.of_comparison x).
Proof. intros H. rewrite compare_keys_order, H. reflexivity. Qed.

Lemma compare_keys_raise (a b : PyVal) (e : PyError) :
  py_order a b = Raise e -> BTree._compare_keys a b = Raise e.
Proof. intros H. rewrite compare_keys_order, H. reflexivity. Qed.

Lemma is_GT_of_comparison (x : comparison) :
  BTree.is_GT (OrderSpec.of_comparison x) = is_Gt x.
Proof. destruct x; reflexivity. Qed.

Lemma py_le_val (a b : PyVal) (x : comparison) :
  py_order a b = Ok x -> py_le a b = Ok (negb (is_Gt x)).
Proof. intros H. unfold py_le. rewrite H. reflexivity. Qed.

Lemma ascending_head (k : PyVal) (ks : list PyVal) :
  BTreeSpec.strictly_ascending (k :: ks) = true ->
  Forall (fun k' => py_order k k' = Ok Lt) ks /\ BTreeSpec.strictly_ascending ks = true.
Proof.
  revert k. induction ks as [|k2 ks IH]; intros k; [split; [constructor | reflexivity]|].
  cbn [BTreeSpec.strictly_ascending].
  destruct (py_order k k2) as [[| |]|] eqn:Hk; try discriminate.
  intros Hasc. split; [|exact Hasc].
  destruct (IH k2 Hasc) as [Hall _]. constructor; [exact Hk|].
  eapply Forall_impl; [exact Hall|]. intros k' Hk'. exact (py_order_lt_trans _ _ _ Hk Hk').
Qed.

(** Past a key above the range, no key of an ascending list is in it. *)
Lemma beyond_range (lo hi k : PyVal) (ks : list PyVal) :
  py_order k hi = Ok Gt ->
  BTreeSpec.strictly_ascending (k :: ks) = true ->
  Forall (fun k' => RangeSpec.between lo hi k' = false) (k :: ks).
Proof.
  intros Hk Hasc. apply ascending_head in Hasc as [Hall _].
  assert (Hout : forall k', py_order k' hi = Ok Gt -> RangeSpec.between lo hi k' = false).
  { intros k' Hk'. unfold RangeSpec.between. rewrite (py_le_val _ _ _ Hk'). simpl.
    destruct (py_le lo k') as [[|]|]; reflexivity. }
  constructor; [exact (Hout k Hk)|].
  eapply Forall_impl; [exact Hall|]. intros k' Hk'. apply Hout.
  pose proof (py_order_flip _ _ _ Hk) as Hhi. simpl in Hhi.
  pose proof (py_order_lt_trans _ _ _ Hhi Hk') as Hlt.
  apply py_order_flip in Hlt. exact Hlt.
Qed.

Lemma below_range (lo hi k : PyVal) :
  py_order lo k = Ok Gt -> RangeSpec.between lo hi k = false.
Proof.
  intros Hk. unfold RangeSpec.between. rewrite (py_le_val _ _ _ Hk). reflexivity.
Qed.

(** The pairs of the leaf slots, as [BTreeSpec.entries] lists them. *)
Local Abbreviation slot_entries :=
  (fun kc : PyVal * BTree.Slot =>
     match snd kc with
     | BTree.SBucket values => map (pair (fst kc)) values
     | _ => []
     end).

Lemma no_entries_between (lo hi : PyVal) (ks : list PyVal) (cs : list BTree.Slot) :
  Forall (fun k => RangeSpec.between lo hi k = false) ks ->
  List.filter (fun kv => RangeSpec.between lo hi (fst kv))
              (flat_map slot_entries (combine ks cs)) = [].
Proof.
  intros Hall. revert cs. induction Hall as [|k ks Hk _ IH]; intros [|c cs]; try reflexivity.
  cbn [combine flat_map]. rewrite List.filter_app, IH, app_nil_r.
  cbn [fst snd]. destruct c as [|values|]; try reflexivity.
  induction values as [|v values IHv]; [reflexivity|].
  cbn [map List.filter fst]. rewrite Hk. exact IHv.
Qed.

Lemma all_entries_between (lo hi k : PyVal) (values : list PyVal) :
  RangeSpec.between lo hi k = true ->
  List.filter (fun kv => RangeSpec.between lo hi (fst kv)) (map (pair k) values)
  = map (pair k) values.
Proof.
  intros Hk. induction values as [|v values IH]; [reflexivity|].
  cbn [map List.filter fst]. rewrite Hk, IH. reflexivity.
Qed.

Section LeafRange.

Variable descend : BTree.Slot -> list (PyVal * PyVal) -> result (list (PyVal * PyVal)).
Variables lo hi : PyVal.

(** The second loop over a leaf, from a key that is not below the range. *)
Lemma range_walk_collect (ks : list PyVal) :
  forall (cs : list BTree.Slot) (res : list (PyVal * PyVal)),
    (length ks <= length cs)%nat ->
    forallb RangeSpec.holds_values cs = true ->
    BTreeSpec.strictly_ascending ks = true ->
    Forall (fun k => exists x, py_order lo k = Ok x /\ x <> Gt) ks ->
    forallb (PredicateSpec.orderable hi) ks = true ->
    BTree.range_walk descend lo hi true cs ks false res
    = Ok (res ++ List.filter (fun kv => RangeSpec.between lo hi (fst kv))
                             (flat_map slot_entries (combine ks cs))).
Proof.
  induction ks as [|k ks IH]; intros cs res Hlen Hcs Hasc Hlo Hhi.
  - destruct cs; simpl; rewrite app_nil_r; reflexivity.
  - destruct cs as [|c cs]; [simpl in Hlen; lia|].
    simpl in Hlen, Hcs, Hhi.
    apply andb_true_iff in Hcs as [Hc Hcs]. apply andb_true_iff in Hhi as [Hk Hhi].
    apply Forall_cons in Hlo as [[x [Hx Hxle]] Hlo].
    assert (Hok : PredicateSpec.orderable k hi = true).
    { unfold PredicateSpec.orderable in *. rewrite (andb_comm (PredicateSpec.is_number k)),
        (andb_comm (PredicateSpec.is_text k)). exact Hk. }
    destruct (py_order_orderable k hi Hok) as [y Hy].
    cbn [BTree.range_walk mbind result_bind].
    rewrite (compare_keys_val _ _ _ Hy). cbn [mbind result_bind].
    rewrite is_GT_of_comparison.
    destruct (is_Gt y) eqn:Hgt.
    + destruct y; try discriminate Hgt.
      rewrite no_entries_between by (exact (beyond_range lo hi k ks Hy Hasc)).
      rewrite app_nil_r. reflexivity.
    + assert (Hin : RangeSpec.between lo hi k = true).
      { unfold RangeSpec.between. rewrite (py_le_val _ _ _ Hx), (py_le_val _ _ _ Hy), Hgt.
        destruct x; try reflexivity. congruence. }
      destruct (ascending_head k ks Hasc) as [_ Hasc'].
      cbn [combine flat_map fst snd]. rewrite List.filter_app.
      destruct c as [|values|]; [| |discriminate Hc]; cbn [mbind result_bind].
      * rewrite IH by (assumption || lia). reflexivity.
      * rewrite IH by (assumption || lia).
        rewrite all_entries_between by exact Hin. rewrite app_assoc. reflexivity.
Qed.

(** The first loop over a leaf. *)
Lemma range_walk_skip (ks : list PyVal) :
  forall (cs : list BTree.Slot) (res : list (PyVal * PyVal)),
    (length ks <= length cs)%nat ->
    forallb RangeSpec.holds_values cs = true ->
    BTreeSpec.strictly_ascending ks = true ->
    forallb (PredicateSpec.orderable lo) ks = true ->
    forallb (PredicateSpec.orderable hi) ks = true ->
    BTree.range_walk descend lo hi true cs ks true res
    = Ok (res ++ List.filter (fun kv => RangeSpec.between lo hi (fst kv))
                             (flat_map slot_entries (combine ks cs))).
Proof.
  induction ks as [|k ks IH]; intros cs res Hlen Hcs Hasc Hlo Hhi.
  - destruct cs; simpl; rewrite app_nil_r; reflexivity.
  - destruct cs as [|c cs]; [simpl in Hlen; lia|].
    destruct (py_order_orderable lo k) as [x Hx].
    { simpl in Hlo. apply andb_true_iff in Hlo as [Hk _]. exact Hk. }
    destruct (is_Gt x) eqn:Hgt.
    + destruct x; try discriminate Hgt.
      cbn [BTree.range_walk mbind result_bind].
      rewrite (compare_keys_val _ _ _ Hx). cbn [mbind result_bind OrderSpec.of_comparison BTree.is_GT].
      simpl in Hlen, Hcs, Hlo, Hhi.
      apply andb_true_iff in Hcs as [_ Hcs]. apply andb_true_iff in Hlo as [_ Hlo].
      apply andb_true_iff in Hhi as [_ Hhi].
      destruct (ascending_head k ks Hasc) as [_ Hasc'].
      rewrite IH by (assumption || lia).
      cbn [combine flat_map]. rewrite List.filter_app.
      replace (List.filter _ (slot_entries (k, c))) with (@nil (PyVal * PyVal)); [reflexivity|].
      cbn [fst snd]. destruct c as [|values|]; try reflexivity.
      symmetry. induction values as [|v values IHv]; [reflexivity|].
      cbn [map List.filter fst]. rewrite (below_range lo hi k Hx). exact IHv.
    + rewrite <- (range_walk_collect (k :: ks) (c :: cs) res Hlen Hcs Hasc); [|
        |exact Hhi].
      * cbn [BTree.range_walk mbind result_bind].
        rewrite (compare_keys_val _ _ _ Hx). cbn [mbind result_bind].
        rewrite is_GT_of_comparison, Hgt. reflexivity.
      * destruct (ascending_head k ks Hasc) as [Hall _].
        assert (Hxle : x <> Gt) by (intros ->; discriminate Hgt).
        constructor; [exists x; split; assumption|].
        eapply Forall_impl; [exact Hall|]. intros k' Hk'.
        exists Lt. split; [|discriminate].
        exact (py_order_le_lt_trans _ _ _ _ Hx Hxle Hk').
Qed.

End LeafRange.

(** X18. On an index that is one leaf whose keys are in strictly
    ascending order, with a list of values or None for each key,
    [search_range] with bounds that Python can compare with the keys
    returns the (key, value) pairs of the keys between the bounds, both
    included, in the order of the keys and for each key in the order of
    its values. *)
Theorem search_range_leaf (idx : BTree.BTreeIndex) (keys : list PyVal)
    (children : list BTree.Slot) (lo hi : PyVal) :
  BTree.root idx = BTree.SNode keys children true ->
  (length keys <= length children)%nat ->
  forallb RangeSpec.holds_values children = true ->
  BTreeSpec.strictly_ascending keys = true ->
  forallb (PredicateSpec.orderable lo) keys = true ->
  forallb (PredicateSpec.orderable hi) keys = true ->
  BTree.search_range idx lo hi = Ok (RangeSpec.entries_between lo hi (BTree.root idx)).
Proof.
  intros Hroot Hlen Hcs Hasc Hlo Hhi.
  unfold BTree.search_range, RangeSpec.entries_between. rewrite Hroot.
  cbn [BTree._search_range BTreeSpec.entries].
  rewrite range_walk_skip by assumption. reflexivity.
Qed.

Lemma search_range_leaf_witness :
  BTree.search_range
    (BTree.mkBTreeIndex 4
       (BTree.SNode [VInt 1; VFloat (5 # 2); VInt 5; VInt 7]
          [BTree.SBucket [VInt 10]; BTree.SBucket [VInt 25; VInt 26]; BTree.SNone;
           BTree.SBucket [VInt 70]] true))
    (VInt 2) (VInt 6)
  = Ok [(VFloat (5 # 2), VInt 25); (VFloat (5 # 2), VInt 26)].
Proof.
  refine (search_range_leaf
            (BTree.mkBTreeIndex 4
               (BTree.SNode [VInt 1; VFloat (5 # 2); VInt 5; VInt 7]
                  [BTree.SBucket [VInt 10]; BTree.SBucket [VInt 25; VInt 26]; BTree.SNone;
                   BTree.SBucket [VInt 70]] true))
            _ _ (VInt 2) (VInt 6) eq_refl _ _ _ _ _).
  - simpl. lia.
  - reflexivity.
  - reflexivity.
  - reflexivity.
  - reflexivity.
Defined.

(** The loops past the end of [children], with a key in the range. *)
Lemma range_past_children_raises (lo hi : PyVal) (ks : list PyVal)
    (res : list (PyVal * PyVal)) :
  BTreeSpec.strictly_ascending ks = true ->
  Exists (fun k => RangeSpec.between lo hi k = true) ks ->
  exists e, BTree.range_past_children lo hi ks true res = Raise e.
Proof.
  induction ks as [|k ks IH]; intros Hasc Hex; [inversion Hex|].
  cbn [BTree.range_past_children mbind result_bind].
  destruct (py_order lo k) as [x|e] eqn:Hx;
    [|rewrite (compare_keys_raise _ _ _ Hx); eexists; reflexivity].
  rewrite (compare_keys_val _ _ _ Hx). cbn [mbind result_bind]. rewrite is_GT_of_comparison.
  destruct (is_Gt x) eqn:Hgt.
  - destruct x; try discriminate Hgt.
    apply IH; [exact (proj2 (ascending_head k ks Hasc))|].
    apply Exists_cons in Hex as [Hk|Hex]; [|exact Hex].
    rewrite (below_range lo hi k Hx) in Hk. discriminate Hk.
  - destruct (py_order k hi) as [y|e] eqn:Hy;
      [|rewrite (compare_keys_raise _ _ _ Hy); eexists; reflexivity].
    rewrite (compare_keys_val _ _ _ Hy). cbn [mbind result_bind]. rewrite is_GT_of_comparison.
    destruct (is_Gt y) eqn:Hgty; [|eexists; reflexivity].
    destruct y; try discriminate Hgty.
    pose proof (beyond_range lo hi k ks Hy Hasc) as Hnone.
    apply Exists_exists in Hex as [k' [Hin Hk']].
    rewrite Forall_forall in Hnone. rewrite (Hnone k' Hin) in Hk'. discriminate Hk'.
Qed.

(** The loops over an internal node, with a key in the range. *)
Lemma range_walk_internal_raises (lo hi : PyVal) (ks : list PyVal) :
  forall (cs : list BTree.Slot) (res : list (PyVal * PyVal)),
    BTreeSpec.strictly_ascending ks = true ->
    Exists (fun k => RangeSpec.between lo hi k = true) ks ->
    exists e,
      BTree.range_walk (fun child res' => BTree._search_range child lo hi res')
                       lo hi false cs ks true res = Raise e.
Proof.
  induction ks as [|k ks IH]; intros cs res Hasc Hex; [inversion Hex|].
  destruct cs as [|c cs].
  { cbn [BTree.range_walk]. apply range_past_children_raises; assumption. }
  cbn [BTree.range_walk mbind result_bind].
  destruct (py_order lo k) as [x|e] eqn:Hx;
    [|rewrite (compare_keys_raise _ _ _ Hx); eexists; reflexivity].
  rewrite (compare_keys_val _ _ _ Hx). cbn [mbind result_bind]. rewrite is_GT_of_comparison.
  destruct (is_Gt x) eqn:Hgt.
  - destruct x; try discriminate Hgt.
    apply IH; [exact (proj2 (ascending_head k ks Hasc))|].
    apply Exists_cons in Hex as [Hk|Hex]; [|exact Hex].
    rewrite (below_range lo hi k Hx) in Hk. discriminate Hk.
  - destruct (py_order k hi) as [y|e] eqn:Hy;
      [|rewrite (compare_keys_raise _ _ _ Hy); eexists; reflexivity].
    rewrite (compare_keys_val _ _ _ Hy). cbn [mbind result_bind]. rewrite is_GT_of_comparison.
    destruct (is_Gt y) eqn:Hgty.
    + destruct y; try discriminate Hgty.
      pose proof (beyond_range lo hi k ks Hy Hasc) as Hnone.
      apply Exists_exists in Hex as [k' [Hin Hk']].
      rewrite Forall_forall in Hnone. rewrite (Hnone k' Hin) in Hk'. discriminate Hk'.
    + destruct c as [|values|keys children is_leaf].
      * eexists; reflexivity.
      * eexists; reflexivity.
      * destruct (BTree._search_range (BTree.SNode keys children is_leaf) lo hi res)
          as [res1|e]; eexists; reflexivity.
Qed.

(** X19. On an index whose root is not a leaf and has its keys in
    strictly ascending order, [search_range] raises whenever one of the
    keys of the root is between the bounds, whatever is below the root: at
    such a key it takes the child node for a list of values. *)
Theorem search_range_internal_raises (idx : BTree.BTreeIndex) (keys : list PyVal)
    (children : list BTree.Slot) (lo hi k : PyVal) :
  BTree.root idx = BTree.SNode keys children false ->
  BTreeSpec.strictly_ascending keys = true ->
  In k keys ->
  RangeSpec.between lo hi k = true ->
  exists e, BTree.search_range idx lo hi = Raise e.
Proof.
  intros Hroot Hasc Hin Hk. unfold BTree.search_range. rewrite Hroot.
  cbn [BTree._search_range].
  apply range_walk_internal_raises; [exact Hasc|].
  apply Exists_exists. exists k. split; [apply list_elem_of_In; exact Hin | exact Hk].
Qed.

Lemma search_range_internal_raises_witness :
  exists e,
    BTree.search_range
      (BTree.mkBTreeIndex 2
         (BTree.SNode [VInt 4]
            [BTree.SNode [VInt 1; VInt 2] [BTree.SBucket [VInt 10]; BTree.SBucket [VInt 20]] true;
             BTree.SNode [VInt 5; VInt 6] [BTree.SBucket [VInt 50]; BTree.SBucket [VInt 60]] true]
            false))
      (VInt 1) (VInt 4)
    = Raise e.
Proof.
  refine (search_range_internal_raises
            (BTree.mkBTreeIndex 2
               (BTree.SNode [VInt 4]
                  [BTree.SNode [VInt 1; VInt 2]
                     [BTree.SBucket [VInt 10]; BTree.SBucket [VInt 20]] true;
                   BTree.SNode [VInt 5; VInt 6]
                     [BTree.SBucket [VInt 50]; BTree.SBucket [VInt 60]] true]
                  false))
            _ _ (VInt 1) (VInt 4) (VInt 4) eq_refl _ _ _).
  - reflexivity.
  - left. reflexivity.
  - reflexivity.
Defined.

(** ** Keys inserted in ascending order *)

Lemma ascending_before (pre post : list PyVal) (k : PyVal) :
  BTreeSpec.strictly_ascending (pre ++ k :: post) = true ->
  Forall (fun k' => BTree._compare_keys k k' = Ok BTree.GT) pre.
Proof.
  induction pre as [|a pre IH]; intros Hasc; [constructor|].
  rewrite <- app_comm_cons in Hasc. apply ascending_head in Hasc as [Hall Hasc].
  constructor; [|exact (IH Hasc)].
  apply Forall_app in Hall as [_ Hall]. apply Forall_cons in Hall as [Hak _].
  apply py_order_flip in Hak. exact (compare_keys_val _ _ _ Hak).
Qed.

Lemma search_pos_at (pre post : list PyVal) (key : PyVal) (i : nat) :
  Forall (fun k => BTree._compare_keys key k = Ok BTree.GT) pre ->
  PredicateSpec.orderable key key = true ->
  BTree.search_pos key (pre ++ key :: post) i = Ok (i + length pre)%nat.
Proof.
  intros Hpre Hself. revert i.
  induction Hpre as [|k ks Hk _ IH]; intros i.
  - cbn. rewrite (compare_keys_refl key Hself). cbn. f_equal. lia.
  - cbn [app BTree.search_pos]. rewrite Hk. cbn. rewrite IH. f_equal. simpl. lia.
Qed.

Lemma insert_all_ascending (order : Z) (kvs : list (PyVal * PyVal)) :
  forall (keys : list PyVal) (children : list BTree.Slot),
    length children = length keys ->
    BTreeSpec.strictly_ascending (keys ++ map fst kvs) = true ->
    Z.of_nat (length keys + length kvs) <= 2 * order - 1 ->
    BTreeSpec.insert_all (BTree.mkBTreeIndex order (BTree.SNode keys children true)) kvs
    = (BTree.mkBTreeIndex order
         (BTree.SNode (keys ++ map fst kvs)
                      (children ++ map (fun kv => BTree.SBucket [snd kv]) kvs) true),
       Ok tt).
Proof.
  induction kvs as [|[k v] kvs IH]; intros keys children Haligned Hasc Hroom.
  - simpl. rewrite !app_nil_r. reflexivity.
  - cbn [BTreeSpec.insert_all map fst snd] in *.
    rewrite (insert_root_leaf (BTree.mkBTreeIndex order (BTree.SNode keys children true))
               keys children k v eq_refl) by (simpl in *; lia).
    rewrite (leaf_insert_largest keys children k v Haligned (ascending_before _ _ _ Hasc)).
    cbn [BTree.order]. rewrite IH.
    + rewrite <- !app_assoc. reflexivity.
    + rewrite !length_app. simpl. lia.
    + rewrite <- app_assoc. exact Hasc.
    + rewrite length_app. simpl in *. lia.
Qed.

Lemma leaf_entries (kvs : list (PyVal * PyVal)) :
  flat_map slot_entries (combine (map fst kvs) (map (fun kv => BTree.SBucket [snd kv]) kvs))
  = kvs.
Proof.
  induction kvs as [|[k v] kvs IH]; [reflexivity|]. simpl. f_equal. exact IH.
Qed.

(** X20. Inserting up to [2 * order - 1] pairs with keys in strictly
    ascending order into a new index completes and leaves one leaf that
    holds the pairs inserted, key by key, in a tree of the intended shape;
    [search] for an inserted key then returns the list of its one value,
    and [search_range] the pairs whose keys lie between the bounds. *)
Theorem ascending_inserts_are_found (order : Z) (kvs : list (PyVal * PyVal)) :
  BTreeSpec.strictly_ascending (map fst kvs) = true ->
  forallb (fun kv => PredicateSpec.orderable (fst kv) (fst kv)) kvs = true ->
  Z.of_nat (length kvs) <= 2 * order - 1 ->
  exists idx,
    BTreeSpec.insert_all (BTree.new_index order) kvs = (idx, Ok tt) /\
    BTreeSpec.well_shaped idx = true /\
    BTreeSpec.entries (BTree.root idx) = kvs /\
    (forall k v, In (k, v) kvs -> BTree.search idx k = Ok (BTree.SBucket [v])) /\
    (forall lo hi,
       forallb (fun kv => PredicateSpec.orderable lo (fst kv)) kvs = true ->
       forallb (fun kv => PredicateSpec.orderable hi (fst kv)) kvs = true ->
       BTree.search_range idx lo hi
       = Ok (List.filter (fun kv => RangeSpec.between lo hi (fst kv)) kvs)).
Proof.
  intros Hasc Hself Hroom.
  eexists. split.
  { unfold BTree.new_index, BTree.new_node.
    apply (insert_all_ascending order kvs [] [] eq_refl Hasc). simpl. lia. }
  cbn [app]. refine (conj _ (conj _ (conj _ _))).
  - unfold BTreeSpec.well_shaped. cbn. rewrite length_map, Hasc.
    destruct (Z.leb_spec (Z.of_nat (length kvs)) (2 * order - 1)); [reflexivity | lia].
  - cbn [BTree.root BTreeSpec.entries]. apply leaf_entries.
  - intros k v Hin. apply in_split in Hin as [pre [post ->]].
    rewrite map_app in Hasc. cbn [map fst] in Hasc.
    rewrite forallb_app in Hself. apply andb_true_iff in Hself as [_ Hself].
    cbn [forallb fst] in Hself. apply andb_true_iff in Hself as [Hk _].
    unfold BTree.search. cbn [BTree.root BTree._search].
    rewrite !map_app. cbn [map fst snd].
    rewrite (search_pos_at _ _ k 0 (ascending_before _ _ _ Hasc) Hk).
    cbn [mbind result_bind plus]. unfold BTree.key_at.
    rewrite (lookup_app_r (map fst pre)) by lia. rewrite Nat.sub_diag.
    cbn [lookup list_lookup].
    rewrite (compare_keys_refl k Hk). cbn [mbind result_bind BTree.is_EQ].
    rewrite lookup_app_r by (rewrite !length_map; lia).
    rewrite !length_map, Nat.sub_diag. reflexivity.
  - intros lo hi Hlo Hhi. unfold BTree.search_range. cbn [BTree.root BTree._search_range].
    rewrite range_walk_skip.
    + rewrite leaf_entries. reflexivity.
    + rewrite !length_map. lia.
    + clear. induction kvs as [|kv kvs IH]; [reflexivity | exact IH].
    + exact Hasc.
    + clear - Hlo. induction kvs as [|kv kvs IH]; [reflexivity|].
      simpl in *. apply andb_true_iff in Hlo as [-> Hlo]. exact (IH Hlo).
    + clear - Hhi. induction kvs as [|kv kvs IH]; [reflexivity|].
      simpl in *. apply andb_true_iff in Hhi as [-> Hhi]. exact (IH Hhi).
Qed.

Lemma ascending_inserts_are_found_witness :
  exists idx,
    BTreeSpec.insert_all (BTree.new_index 2)
      [(VInt 1, VInt 10); (VFloat (5 # 2), VInt 20); (VInt 3, VInt 30)] = (idx, Ok tt) /\
    BTreeSpec.well_shaped idx = true /\
    BTreeSpec.entries (BTree.root idx)
    = [(VInt 1, VInt 10); (VFloat (5 # 2), VInt 20); (VInt 3, VInt 30)] /\
    (forall k v, In (k, v) [(VInt 1, VInt 10); (VFloat (5 # 2), VInt 20); (VInt 3, VInt 30)] ->
                 BTree.search idx k = Ok (BTree.SBucket [v])) /\
    (forall lo hi,
       forallb (fun kv => PredicateSpec.orderable lo (fst kv))
               [(VInt 1, VInt 10); (VFloat (5 # 2), VInt 20); (VInt 3, VInt 30)] = true ->
       forallb (fun kv => PredicateSpec.orderable hi (fst kv))
               [(VInt 1, VInt 10); (VFloat (5 # 2), VInt 20); (VInt 3, VInt 30)] = true ->
       BTree.search_range idx lo hi
       = Ok (List.filter (fun kv => RangeSpec.between lo hi (fst kv))
               [(VInt 1, VInt 10); (VFloat (5 # 2), VInt 20); (VInt 3, VInt 30)])).
Proof.
  refine (ascending_inserts_are_found 2
            [(VInt 1, VInt 10); (VFloat (5 # 2), VInt 20); (VInt 3, VInt 30)] _ _ _).
  - reflexivity.
  - reflexivity.
  - simpl. lia.
Defined.
